(* ===== verification/_CoqProject ===== *)
-Q . S2P
Prelude.v
Types.v
Mock.v
Store.v
Classifier.v
Submission.v
Orchestrator.v
Batch.v
Sends.v
