(* ===== verification/Prelude.v ===== *)
(** * Verification of the delegation relay (transaction-sender, delegate_user_decrypt)

    ** The program

    [src/coprocessor/fhevm-engine/transaction-sender/src/ops/delegate_user_decrypt.rs]
    relays delegation-of-decryption events, observed on a host chain and queued
    in the table [delegate_user_decrypt], to the MultichainACL contract of the
    gateway chain.  One call of [execute] is one pass:

      wait_last_block_number          (notification, with a polling fallback)
      -> block_number - block_delay   (the safety threshold)
      -> begin a store transaction
      -> tx_check_ready_delegations   (fetch the rows up to the threshold in
                                       order, classify each anchoring block
                                       Stable / Dismissed / Unkown against the
                                       live host chain, memoised per height)
      -> one spawned send_transaction per Stable row, joined
      -> clean_delegation             (delete by anchoring block hash)
      -> commit, or rollback on any submission failure.

    ** The development, file by file (in dependency order)

    - [Prelude] (this file): the result type [Result] of fallible code, the
      state monad [M] in which effectful code is written (notations in
      [relay_scope]), a Hoare-style rule set for it ([hoare], [hoare_bind],
      [hoare_foldM]: the loop rule), the rewriting database [relay_run] that
      steps [eval] and [exec] through a computation, machine integers as [Z]
      with their wrap-around ([as_u64], [as_i64], [u64_sub], [usize_sub]),
      byte strings with the ordering of PostgreSQL's bytea, comparison
      functions as instances of [WeakOrder], and the list lemmas the
      components share.
    - [Types]: the data of the source: [DelegationRow], [BlockStatus],
      the RPC error taxonomy ([RpcError], [TransportErrorKind],
      [MultichainACLErrors]), receipts, configuration, the [Provider] interface
      (a [Class], as the source is generic in [P: Provider]), the [World] a pass
      runs in (host and gateway providers, committed table, oracle of the
      pass, counters, trace of observable events), the primitive effects on
      it, and three preorders between a world and a later one, each with the
      lemmas and the tactic that establish it for a computation ([preserves]):
      [frame] (host chain, table and oracle unchanged, trace and counters
      grown), [quiet_step] (gateway chain and counters unchanged) and [grows]
      (the trace has grown).
    - [Mock]: a scripted provider, an instance of [Provider], and sample rows,
      chains and worlds on which the theorems are applied (the witnesses).
    - [Store]: the Delegation Store: [delayed_sorted_delegation] (the SELECT
      with its WHERE, ORDER BY and the [as u64] casts of the row conversion),
      [clean_delegation] (the DELETE by block hash) and the transaction
      ([tx_begin], [tx_commit], [tx_rollback]).
    - [Classifier]: the Block Oracle [get_block_hash] and the Readiness
      Filter [tx_check_ready_delegations] with its per-pass memo table (a
      [gmap] from height to [BlockStatus]); the closed forms [memo_status],
      [stable_rows], [handled_hashes] and [check_events] of what the loop
      computes; the reference [live_status] without the memo table and the
      proof of when the two agree.
    - [Submission]: the Submission Engine [send_transaction] in its two
      phases, with the three-tier classification of send errors
      ([non_applicable_delegation] first), the receipt wait and the two
      counters; its specification [submission_outcome].
    - [Orchestrator]: the Readiness Notifier [wait_last_block_number] and the
      Batch Orchestrator [execute]: threshold, transaction, fan-out of one task
      per Stable row, the join loop under an explicit schedule ([join_tasks]),
      the tasks that go on while the rollback is awaited ([run_until_drop]),
      cleanup, commit or rollback; the specification of a pass
      ([notified_height], [pass_threshold], [pass_deletion_set],
      [pass_table]).
    - [Batch]: the submissions of a pass under every schedule: the invariant
      [batch_inv] of the join loop (a task that has left its first state has
      sent its request; the failure counter counts the failed tasks), what a
      pass that returns [Ok] has submitted, and progress, from a generic
      invariant that excludes failed tasks (Section [no_failure]), over a
      gateway chain that cooperates ([cooperative]) and over one on which the
      delegations are already in place ([rejecting]).
    - [Sends]: the requests a pass sends, read off the trace ([sent_during]):
      the steps that send nothing ([silent]), the invariant that a batch has
      sent one request per task that has left its first state ([sends_inv]),
      the order of the requests and what the first failure does to the other
      tasks.

    ** How state and effects are modelled

    Every [async fn] of the source is a function into [M World _]: explicit
    state passing over the record [World].  A Rust [Result] is a value of
    [Result]; the [?] operator is the notation [x <-? c ;; k]; a panic is the
    error [ErrPanic].  Calls to collaborators that are not in the source (the
    alloy provider, sqlx, the PostgreSQL listener) go through the [Provider]
    class or through the oracle of the [World], which says for one pass which
    store operation fails, what the listener receives and how the tasks are
    scheduled; each such call is appended to the world's trace, so that call
    counts and call order are statements about the trace.  The host chain is
    read-only during a pass; the gateway chain changes with every send.
    The table [delegate_user_decrypt] is a list of rows; a store transaction
    is the snapshot taken by [tx_begin], which [clean_delegation] replaces and
    [tx_commit] writes back (a rollback, or an error, leaves the table as it
    was).  Integers keep their width: a [u64] is a [Z] in [0, 2^64), the
    database columns are [i64], and every [as] cast of the source is written
    out; [execute] takes the build's overflow-check setting as a parameter.

    ** Concurrency, bounds and totality

    The tasks of the [JoinSet] are machines ([TaskState]) with one step per
    suspension point of [send_transaction]: the send, then the receipt.  A
    schedule (a list of [Run i] / [Poll] items) says which task advances and
    when the [join_next] loop looks at the finished ones; when the schedule
    ends, every task runs to its end ([run_to_end]: two steps, which is the
    number of suspension points, so it always reaches [TaskDone]).  A [Poll]
    that sees a failed task ends the join loop; the [JoinSet] is dropped only
    when [execute] returns, so the other tasks go on while [tx.rollback()] is
    awaited: they advance by the rest of the schedule up to its next [Poll]
    ([run_until_drop]) and what has not run by then is aborted.  The trace
    records the rollback before these steps; the two commute, since a task
    touches the gateway chain and the counters and the rollback the store.
    Every definition is a total function: no fuel is needed, the loops of
    the source are folds over finite lists ([foldM], [mapM]) and the
    recursion on the schedule is structural.  The spawn loop has no
    suspension point in the source; on a runtime with several workers the
    tasks spawned so far may run while it builds the next request, which
    matters only when it panics: then they run by the schedule until the
    unwinding drops the set ([run_until_drop]), an over-approximation of a
    runtime with one worker.  The SELECT is a filter followed by a stable
    merge sort: PostgreSQL leaves the order of rows that agree on all three
    sort keys open, the model picks the order of the table, and no theorem
    depends on the order of ties.

    ** What the theorems show

    Each claim is numbered (C1, C2, ...) in the doc comment of its theorem;
    every claim is a theorem over all tables, chains, worlds and (where it
    applies) schedules, and a claim with hypotheses is applied to a concrete
    world of [Mock] by a witness next to it.
    - Store: the fetch is sorted by (block number, counter, transaction id
      with NULL last), complete for thresholds that fit an [i64] and empty
      for thresholds that wrap; the DELETE removes exactly the listed hashes.
    - Classifier: the closed form of the filter, trace included (one host
      lookup per distinct height); failure only when the fetch fails; the
      candidates keep the order of the store; agreement with the reference
      when a height determines the recorded hash; the three statuses of a
      row, each under the condition on the other fetched rows that it needs;
      and what the memo table, keyed by height alone, does without that
      condition: a row of the live block is dismissed, and a row of a
      reorganised block submitted, whenever the first fetched row at its
      height says so.
    - Submission: [send_transaction] refines [submission_outcome]; benign
      rejections are successes that touch no counter; every other failure
      increments the failure counter once; a reverted receipt is a failure.
    - Orchestrator: [execute] refines the specification of a pass; a failed
      pass changes nothing in the table, the host chain and the oracle; a pass
      never inserts rows, keeps the table well formed, and keeps every row
      whose hash was not handled (unresolved heights, rows above the
      threshold); the notifier and its fallback; the underflow of the
      threshold with and without overflow checks; the panic on an address
      column that is not 20 bytes long.  The three scenarios of the
      specification are run on the model as examples.
    - Batch: a pass that returns [Ok] has sent the request of every stable
      row during the pass and none of its submissions failed; no delegation is
      lost (a removed row of the live chain was submitted) when hashes and
      heights determine each other; over a cooperative gateway the pass
      returns [Ok(true)] under every schedule and drains the rows up to the
      threshold; over a gateway that rejects every send as already applied it
      commits and counts nothing (idempotence).
    - Sends: a pass sends at most one request per stable row, and exactly one
      each when it returns [Ok]; of two tasks the one the schedule runs first
      sends first, whatever the order of the store; when the join loop sees
      the first failure the tasks that have not sent are dropped unless they
      run while the rollback is awaited, in which case their request is sent
      although the pass fails.

    ** Not modelled

    The loop that calls [execute] again and its backoff (it is outside this
    source), the constructor [new] and the channel name, nonce management and
    gas estimation (operations of [Provider] without laws), ABI encoding, the
    contract itself, telemetry spans and the text of log lines (log events are
    constructors), elapsed time (a timeout is an outcome).  Writers of the
    table other than the pass are not part of a pass: the table changes only
    by [tx_commit].  *)

From Stdlib Require Import ZArith Lia List.
From Stdlib.Strings Require Import Byte.
From stdpp Require Import base option list.

#[local] Open Scope Z_scope.

(** ** Results of fallible code *)

Inductive Result (A E : Type) : Type :=
| Ok (a : A)
| Err (e : E).

Arguments Ok {A E} a.
Arguments Err {A E} e.

Definition is_ok {A E} (r : Result A E) : bool :=
  match r with Ok _ => true | Err _ => false end.

Definition is_err {A E} (r : Result A E) : bool := negb (is_ok r).

Definition result_map {A B E} (f : A -> B) (r : Result A E) : Result B E :=
  match r with Ok a => Ok (f a) | Err e => Err e end.

Definition result_to_option {A E} (r : Result A E) : option A :=
  match r with Ok a => Some a | Err _ => None end.

#[export] Instance Result_eq_dec {A E} `{EqDecision A, EqDecision E} :
  EqDecision (Result A E).
Proof. solve_decision. Defined.

(** ** The state monad of effectful code *)

Definition M (S A : Type) : Type := S -> A * S.

Definition ret {S A} (a : A) : M S A := fun s => (a, s).

Definition bind {S A B} (m : M S A) (k : A -> M S B) : M S B :=
  fun s => let (a, s') := m s in k a s'.

Definition get {S} : M S S := fun s => (s, s).

Definition gets {S A} (f : S -> A) : M S A := fun s => (f s, s).

Definition modify {S} (f : S -> S) : M S unit := fun s => (tt, f s).

Definition run {S A} (m : M S A) (s : S) : A * S := m s.

Definition eval {S A} (m : M S A) (s : S) : A := fst (m s).

Definition exec {S A} (m : M S A) (s : S) : S := snd (m s).

Declare Scope relay_scope.
Delimit Scope relay_scope with relay.

Notation "x <- c ;; k" := (bind c (fun x => k))
  (at level 100, c at next level, right associativity) : relay_scope.
Notation "c ;; k" := (bind c (fun _ => k))
  (at level 100, right associativity) : relay_scope.
(** The [?] operator: an [Err] of [c] is returned at once. *)
Notation "x <-? c ;; k" :=
  (bind c (fun r => match r with Ok x => k | Err e => ret (Err e) end))
  (at level 100, c at next level, right associativity) : relay_scope.

#[local] Open Scope relay_scope.

(** A loop over a list that threads an accumulator: [for x in l { acc = f acc x }]. *)
Fixpoint foldM {S A B} (f : B -> A -> M S B) (l : list A) (b : B) : M S B :=
  match l with
  | [] => ret b
  | x :: l' => b' <- f b x ;; foldM f l' b'
  end.

(** [for x in l { ys.push(f(x)) }]. *)
Fixpoint mapM {S A B} (f : A -> M S B) (l : list A) : M S (list B) :=
  match l with
  | [] => ret []
  | x :: l' => y <- f x ;; ys <- mapM f l' ;; ret (y :: ys)
  end.

(** Hoare triples over [M]: from a state in [P], the result and final state are in [Q]. *)
Definition hoare {S A} (P : S -> Prop) (m : M S A) (Q : A -> S -> Prop) : Prop :=
  forall s, P s -> Q (eval m s) (exec m s).

(** ** Machine integers

    A [u64] or [i64] is a [Z] in its range; an [as] cast is reduction into the
    range of the target type. *)

Definition u64_modulus : Z := 2 ^ 64.
Definition i64_min : Z := - 2 ^ 63.
Definition i64_max : Z := 2 ^ 63 - 1.
Definition u64_max : Z := 2 ^ 64 - 1.

Definition is_u64 (z : Z) : Prop := 0 <= z <= u64_max.
Definition is_i64 (z : Z) : Prop := i64_min <= z <= i64_max.

#[export] Instance is_u64_dec z : Decision (is_u64 z).
Proof. unfold is_u64. apply _. Defined.
#[export] Instance is_i64_dec z : Decision (is_i64 z).
Proof. unfold is_i64. apply _. Defined.

(** [x as u64] *)
Definition as_u64 (z : Z) : Z := z mod u64_modulus.

(** [x as i64] *)
Definition as_i64 (z : Z) : Z := (z + 2 ^ 63) mod u64_modulus - 2 ^ 63.

(** [a - b] on [u64]: with overflow checks a panic ([None]) when [a < b],
    without them the wrapped difference. *)
Definition u64_sub (overflow_checks : bool) (a b : Z) : option Z :=
  if decide (b <= a) then Some (a - b)
  else if overflow_checks then None
  else Some (as_u64 (a - b)).

(** [a - b] on [usize] counts. *)
Definition usize_sub (a b : nat) : option nat :=
  if decide (b <= a)%nat then Some (a - b)%nat else None.

(** ** Byte strings *)

Abbreviation bytes := (list byte).

#[export] Instance byte_eq_dec' : EqDecision byte := Byte.byte_eq_dec.

Definition byte_val (b : byte) : Z := Z.of_N (Byte.to_N b).

(** The order of PostgreSQL's bytea: bytewise, a proper prefix first. *)
Fixpoint bytes_compare (a b : bytes) : comparison :=
  match a, b with
  | [], [] => Eq
  | [], _ :: _ => Lt
  | _ :: _, [] => Gt
  | x :: a', y :: b' =>
      match Z.compare (byte_val x) (byte_val y) with
      | Eq => bytes_compare a' b'
      | c => c
      end
  end.

(** ** Orderings given by a comparison function

    The ORDER BY of a query is a lexicographic comparison of columns.  A
    comparison is a weak order when it is antisymmetric, when equivalent
    elements compare alike, and when [Lt] is transitive. *)

Class WeakOrder {A} (cmp : A -> A -> comparison) : Prop := {
  wo_antisym a b : cmp b a = CompOpp (cmp a b);
  wo_eq_compat a b : cmp a b = Eq -> forall d, cmp a d = cmp b d;
  wo_lt_trans a b d : cmp a b = Lt -> cmp b d = Lt -> cmp a d = Lt;
}.

Arguments wo_antisym {A} cmp {_} a b.
Arguments wo_eq_compat {A} cmp {_} a b _ d.
Arguments wo_lt_trans {A} cmp {_} a b d _ _.

(** [a] is not after [b]. *)
Definition cmp_le {A} (cmp : A -> A -> comparison) (a b : A) : Prop := cmp a b <> Gt.

#[export] Instance cmp_le_dec {A} (cmp : A -> A -> comparison) a b : Decision (cmp_le cmp a b).
Proof. unfold cmp_le. apply _. Defined.

(** Lexicographic combination: the second comparison decides ties of the first. *)
Definition lex (c1 c2 : comparison) : comparison :=
  match c1 with Eq => c2 | _ => c1 end.

Definition lex_compare {A B} (ca : A -> A -> comparison) (cb : B -> B -> comparison)
    (x y : A * B) : comparison :=
  lex (ca (fst x) (fst y)) (cb (snd x) (snd y)).

(** Comparison of keys computed by [f]. *)
Definition compare_on {A K} (f : A -> K) (cmp : K -> K -> comparison) (x y : A) : comparison :=
  cmp (f x) (f y).

(** A nullable column in ascending order: NULL sorts last. *)
Definition nulls_last_compare {A} (cmp : A -> A -> comparison) (x y : option A) : comparison :=
  match x, y with
  | Some a, Some b => cmp a b
  | Some _, None => Lt
  | None, Some _ => Gt
  | None, None => Eq
  end.

(** ** Tactics *)

(** Case analysis on the [decide] or [match] at the head of the goal or of a hypothesis. *)
Ltac case_step :=
  first [ progress simplify_eq/=
        | case_decide
        | case_match ].

(** Decides a closed decidable proposition by evaluation. *)
Ltac by_compute := apply (bool_decide_unpack _); vm_compute; exact I.

Ltac monad_unfold :=
  unfold hoare, eval, exec, run, bind, ret, get, gets, modify in *; simpl in *.

Create HintDb relay discriminated.
Create Rewrite HintDb relay_rw.
Create Rewrite HintDb relay_run.

(** ** Lemmas *)

Section monad_laws.
Context {S : Type}.

Lemma bind_ret_l {A B} (a : A) (k : A -> M S B) s : bind (ret a) k s = k a s.
Proof. reflexivity. Qed.

Lemma bind_ret_r {A} (m : M S A) s : bind m ret s = m s.
Proof. unfold bind, ret. by destruct (m s). Qed.

Lemma bind_assoc {A B C} (m : M S A) (k : A -> M S B) (h : B -> M S C) s :
  bind (bind m k) h s = bind m (fun a => bind (k a) h) s.
Proof. unfold bind. by destruct (m s). Qed.

Lemma run_bind {A B} (m : M S A) (k : A -> M S B) s :
  bind m k s = k (eval m s) (exec m s).
Proof. unfold bind, eval, exec. by destruct (m s). Qed.

Lemma eval_bind {A B} (m : M S A) (k : A -> M S B) s :
  eval (bind m k) s = eval (k (eval m s)) (exec m s).
Proof. unfold eval at 1. by rewrite run_bind. Qed.

Lemma exec_bind {A B} (m : M S A) (k : A -> M S B) s :
  exec (bind m k) s = exec (k (eval m s)) (exec m s).
Proof. unfold exec at 1. by rewrite run_bind. Qed.

Lemma eval_ret {A} (a : A) (s : S) : eval (ret a) s = a.
Proof. reflexivity. Qed.

Lemma exec_ret {A} (a : A) (s : S) : exec (ret a) s = s.
Proof. reflexivity. Qed.

Lemma eval_gets {A} (f : S -> A) s : eval (gets f) s = f s.
Proof. reflexivity. Qed.

Lemma exec_gets {A} (f : S -> A) s : exec (gets f) s = s.
Proof. reflexivity. Qed.

Lemma exec_modify (f : S -> S) s : exec (modify f) s = f s.
Proof. reflexivity. Qed.

Lemma foldM_app {A B} (f : B -> A -> M S B) l1 l2 b s :
  foldM f (l1 ++ l2) b s = bind (foldM f l1 b) (foldM f l2) s.
Proof.
  revert b s. induction l1 as [|x l1 IH]; intros b s; simpl; [done|].
  rewrite bind_assoc, !(run_bind (f b x)). apply IH.
Qed.

End monad_laws.

Section hoare_rules.
Context {S : Type}.

Lemma hoare_ret {A} (P : S -> Prop) (Q : A -> S -> Prop) a :
  (forall s, P s -> Q a s) -> hoare P (ret a) Q.
Proof. intros H s Hs. by apply H. Qed.

Lemma hoare_bind {A B} (P : S -> Prop) (R : A -> S -> Prop) (Q : B -> S -> Prop)
    (m : M S A) (k : A -> M S B) :
  hoare P m R -> (forall a, hoare (R a) (k a) Q) -> hoare P (bind m k) Q.
Proof.
  intros Hm Hk s Hs. unfold eval, exec. rewrite run_bind.
  apply (Hk (eval m s)), Hm, Hs.
Qed.

Lemma hoare_consequence {A} (P P' : S -> Prop) (Q Q' : A -> S -> Prop) (m : M S A) :
  hoare P' m Q' -> (forall s, P s -> P' s) -> (forall a s, Q' a s -> Q a s) ->
  hoare P m Q.
Proof. intros Hm HP HQ s Hs. apply HQ, Hm, HP, Hs. Qed.

(** The loop rule: an invariant [I] of the accumulator and the state, indexed
    by the part of the list already consumed. *)
Lemma hoare_foldM {A B} (I : list A -> B -> S -> Prop) (f : B -> A -> M S B) l b :
  (forall done x b, hoare (I done b) (f b x) (fun b' s' => I (done ++ [x]) b' s')) ->
  hoare (I [] b) (foldM f l b) (fun b' s' => I l b' s').
Proof.
  intros Hf.
  enough (forall done b, hoare (I done b) (foldM f l b) (fun b' s' => I (done ++ l) b' s'))
    as H by apply (H []).
  induction l as [|x l IH]; intros done b0; simpl.
  - apply hoare_ret. intros s Hs. by rewrite app_nil_r.
  - eapply hoare_bind; [apply Hf|]. intros b'.
    eapply hoare_consequence; [apply (IH (done ++ [x]))|done|].
    intros b'' s Hs. by rewrite <- app_assoc in Hs.
Qed.

End hoare_rules.

Section integers.

Lemma as_u64_range z : is_u64 (as_u64 z).
Proof. unfold is_u64, as_u64, u64_max, u64_modulus. pose proof (Z.mod_pos_bound z (2 ^ 64)). lia. Qed.

Lemma as_i64_range z : is_i64 (as_i64 z).
Proof.
  unfold is_i64, as_i64, i64_min, i64_max, u64_modulus.
  pose proof (Z.mod_pos_bound (z + 2 ^ 63) (2 ^ 64)). lia.
Qed.

Lemma as_u64_id z : is_u64 z -> as_u64 z = z.
Proof. unfold is_u64, as_u64, u64_max, u64_modulus. intros. apply Z.mod_small. lia. Qed.

Lemma as_i64_id z : is_i64 z -> as_i64 z = z.
Proof.
  unfold is_i64, as_i64, i64_min, i64_max, u64_modulus. intros.
  rewrite Z.mod_small; lia.
Qed.

Lemma as_i64_of_big z : 2 ^ 63 <= z <= u64_max -> as_i64 z = z - 2 ^ 64.
Proof.
  unfold as_i64, u64_max, u64_modulus. intros.
  replace (z + 2 ^ 63) with (z - 2 ^ 63 + 1 * 2 ^ 64) by lia.
  rewrite Z.mod_add by lia. rewrite Z.mod_small; lia.
Qed.

Lemma as_u64_of_negative z : i64_min <= z < 0 -> as_u64 z = z + 2 ^ 64.
Proof.
  unfold as_u64, i64_min, u64_modulus. intros.
  replace z with (z + 2 ^ 64 + (-1) * 2 ^ 64) at 1 by lia.
  rewrite Z.mod_add by lia. rewrite Z.mod_small; lia.
Qed.

Lemma as_u64_as_i64 z : is_u64 z -> as_u64 (as_i64 z) = z.
Proof.
  intros Hz. destruct (decide (z < 2 ^ 63)) as [Hlt|Hge].
  - rewrite as_i64_id; [by apply as_u64_id|]. unfold is_u64, is_i64, i64_min, i64_max, u64_max in *. lia.
  - unfold is_u64, u64_max in Hz. rewrite as_i64_of_big by (unfold u64_max; lia).
    rewrite as_u64_of_negative; unfold i64_min; lia.
Qed.

Lemma as_i64_as_u64 z : is_i64 z -> as_i64 (as_u64 z) = z.
Proof.
  intros Hz. unfold is_i64, i64_min, i64_max in Hz.
  destruct (decide (0 <= z)) as [Hge|Hlt].
  - rewrite as_u64_id by (unfold is_u64, u64_max; lia).
    apply as_i64_id. unfold is_i64, i64_min, i64_max. lia.
  - rewrite as_u64_of_negative by (unfold i64_min; lia).
    rewrite as_i64_of_big; unfold u64_max; lia.
Qed.

Lemma u64_sub_no_underflow c a b : b <= a -> u64_sub c a b = Some (a - b).
Proof. intros. unfold u64_sub. by rewrite decide_True. Qed.

Lemma u64_sub_checked_underflow a b : a < b -> u64_sub true a b = None.
Proof. intros. unfold u64_sub. rewrite decide_False; [done|lia]. Qed.

Lemma u64_sub_wrapping_underflow a b :
  is_u64 a -> is_u64 b -> a < b -> u64_sub false a b = Some (a - b + 2 ^ 64).
Proof.
  unfold is_u64, u64_max. intros. unfold u64_sub. rewrite decide_False by lia.
  f_equal. unfold as_u64, u64_modulus.
  replace (a - b) with (a - b + 2 ^ 64 + (-1) * 2 ^ 64) at 1 by lia.
  rewrite Z.mod_add by lia. apply Z.mod_small. lia.
Qed.

End integers.

Section byte_order.

Lemma byte_val_inj x y : byte_val x = byte_val y -> x = y.
Proof.
  unfold byte_val. intros H. apply N2Z.inj in H.
  apply (f_equal Byte.of_N) in H. rewrite !Byte.of_to_N in H.
  by simplify_eq.
Qed.

Lemma bytes_compare_refl a : bytes_compare a a = Eq.
Proof. induction a as [|x a IH]; simpl; [done|]. by rewrite Z.compare_refl. Qed.

Lemma bytes_compare_eq a b : bytes_compare a b = Eq <-> a = b.
Proof.
  split; [|intros ->; apply bytes_compare_refl].
  revert b. induction a as [|x a IH]; intros [|y b]; simpl; try done.
  destruct (Z.compare_spec (byte_val x) (byte_val y)) as [Hxy| |]; try done.
  intros Hab. f_equal; [by apply byte_val_inj|by apply IH].
Qed.

Lemma bytes_compare_antisym a b : bytes_compare b a = CompOpp (bytes_compare a b).
Proof.
  revert b. induction a as [|x a IH]; intros [|y b]; simpl; try done.
  rewrite (Z.compare_antisym (byte_val x) (byte_val y)).
  destruct (byte_val x ?= byte_val y); simpl; auto.
Qed.

End byte_order.

Lemma if_decide_iff {A} (P Q : Prop) `{!Decision P, !Decision Q} (x y : A) :
  (P <-> Q) -> (if decide P then x else y) = (if decide Q then x else y).
Proof. intros. destruct (decide P), (decide Q); tauto. Qed.

Section list_lemmas.
Context {A : Type}.
Implicit Types (l : list A).

Lemma filter_Forall_not (P : A -> Prop) `{!forall x, Decision (P x)} l :
  Forall (fun x => ~ P x) l -> filter P l = [].
Proof.
  induction 1 as [|x l Hx _ IH]; [done|]. by rewrite filter_cons_False.
Qed.

Lemma filter_ext_elem (P Q : A -> Prop) `{!forall x, Decision (P x), !forall x, Decision (Q x)} l :
  (forall x, x ∈ l -> P x <-> Q x) -> filter P l = filter Q l.
Proof.
  induction l as [|x l IH]; intros Hext; [done|].
  rewrite !filter_cons, IH by (intros; apply Hext; by right).
  destruct (decide (P x)) as [HP|HP], (decide (Q x)) as [HQ|HQ]; try done;
    exfalso; apply (Hext x (list_elem_of_here _ _)) in HP || apply (Hext x (list_elem_of_here _ _)) in HQ; done.
Qed.

Lemma length_filter_partition (P : A -> Prop) `{!forall x, Decision (P x)} l :
  (length (filter P l) + length (filter (fun x => ~ P x) l) = length l)%nat.
Proof.
  induction l as [|x l IH]; [done|]. rewrite !filter_cons.
  destruct (decide (P x)); [rewrite decide_False by tauto|rewrite decide_True by done];
    simpl; lia.
Qed.

Lemma Forall_filter_keeps (Q P : A -> Prop) `{!forall x, Decision (P x)} l :
  Forall Q l -> Forall Q (filter P l).
Proof.
  rewrite !Forall_forall. intros HQ x [_ Hx]%list_elem_of_filter. by apply HQ.
Qed.

End list_lemmas.

Section weak_orders.

Lemma cmp_le_total {A} (cmp : A -> A -> comparison) `{!WeakOrder cmp} : Total (cmp_le cmp).
Proof.
  intros a b. unfold cmp_le. rewrite (wo_antisym cmp a b).
  destruct (cmp a b); simpl; auto.
Qed.

(** From [a = b] (as keys) and a comparison of [b], the comparison of [a]. *)
Lemma wo_gt_eq_compat {A} (cmp : A -> A -> comparison) `{!WeakOrder cmp} a b d :
  cmp b d = Eq -> cmp a d = cmp a b.
Proof.
  intros E. rewrite (wo_antisym cmp d a), (wo_antisym cmp b a). f_equal.
  symmetry. apply (wo_eq_compat cmp b d E).
Qed.

Lemma cmp_le_trans {A} (cmp : A -> A -> comparison) `{!WeakOrder cmp} :
  Transitive (cmp_le cmp).
Proof.
  intros a b d. unfold cmp_le. intros Hab Hbd.
  destruct (cmp a b) eqn:E1; [|clear Hab|done].
  - by rewrite (wo_eq_compat cmp a b E1).
  - destruct (cmp b d) eqn:E2; [|by rewrite (wo_lt_trans cmp a b d)|done].
    by rewrite (wo_gt_eq_compat cmp a b d E2), E1.
Qed.

#[export] Instance Z_compare_weak_order : WeakOrder Z.compare.
Proof.
  split.
  - intros a b. apply Z.compare_antisym.
  - intros a b ->%Z.compare_eq d. done.
  - intros a b d. rewrite !Z.compare_lt_iff. lia.
Qed.

#[export] Instance bytes_compare_weak_order : WeakOrder bytes_compare.
Proof.
  split.
  - apply bytes_compare_antisym.
  - intros a b ->%bytes_compare_eq d. done.
  - intros a. induction a as [|x a IH]; intros [|y b] [|z d]; simpl; try done.
    destruct (Z.compare_spec (byte_val x) (byte_val y)) as [Hxy|Hxy|Hxy]; try done;
    destruct (Z.compare_spec (byte_val y) (byte_val z)) as [Hyz|Hyz|Hyz]; try done;
    intros H1 H2.
    + rewrite Hxy, Hyz, Z.compare_refl. by eapply IH.
    + rewrite Hxy. by rewrite (proj2 (Z.compare_lt_iff _ _) Hyz).
    + rewrite <- Hyz. by rewrite (proj2 (Z.compare_lt_iff _ _) Hxy).
    + assert (byte_val x < byte_val z) as Hxz by lia.
      by rewrite (proj2 (Z.compare_lt_iff _ _) Hxz).
Qed.

#[export] Instance nulls_last_weak_order {A} (cmp : A -> A -> comparison) `{!WeakOrder cmp} :
  WeakOrder (nulls_last_compare cmp).
Proof.
  split.
  - intros [a|] [b|]; simpl; try done. apply (wo_antisym cmp).
  - intros [a|] [b|]; simpl; try done. intros E [d|]; simpl; [|done].
    by apply (wo_eq_compat cmp).
  - intros [a|] [b|] [d|]; simpl; try done. apply (wo_lt_trans cmp).
Qed.

#[export] Instance lex_weak_order {A B} (ca : A -> A -> comparison) (cb : B -> B -> comparison)
    `{!WeakOrder ca, !WeakOrder cb} : WeakOrder (lex_compare ca cb).
Proof.
  split; unfold lex_compare, lex.
  - intros [a1 b1] [a2 b2]; simpl. rewrite (wo_antisym ca a1 a2).
    destruct (ca a1 a2); simpl; [apply (wo_antisym cb)|done..].
  - intros [a1 b1] [a2 b2]; simpl. destruct (ca a1 a2) eqn:Ea; try done.
    intros Eb [a3 b3]; simpl. rewrite (wo_eq_compat ca a1 a2 Ea).
    destruct (ca a2 a3); [by apply (wo_eq_compat cb)|done..].
  - intros [a1 b1] [a2 b2] [a3 b3]; simpl.
    destruct (ca a1 a2) eqn:E12; try done; destruct (ca a2 a3) eqn:E23; try done;
    intros H1 H2.
    + rewrite (wo_eq_compat ca a1 a2 E12), E23. by eapply (wo_lt_trans cb).
    + by rewrite (wo_eq_compat ca a1 a2 E12), E23.
    + by rewrite (wo_gt_eq_compat ca a1 a2 a3 E23), E12.
    + by rewrite (wo_lt_trans ca a1 a2 a3).
Qed.

#[export] Instance compare_on_weak_order {A K} (f : A -> K) (cmp : K -> K -> comparison)
    `{!WeakOrder cmp} : WeakOrder (compare_on f cmp).
Proof.
  split; unfold compare_on.
  - intros a b. apply (wo_antisym cmp).
  - intros a b E d. by apply (wo_eq_compat cmp).
  - intros a b d. apply (wo_lt_trans cmp).
Qed.

End weak_orders.

#[export] Hint Resolve as_u64_range as_i64_range : relay.
#[export] Hint Rewrite @eval_bind @exec_bind @eval_ret @exec_ret @eval_gets @exec_gets
  @exec_modify : relay_run.
#[export] Hint Rewrite as_u64_id as_i64_id as_u64_as_i64 as_i64_as_u64
  using (auto with relay; fail) : relay_rw.
