(* ===== verification/Types.v ===== *)
(** * Types: the data of [delegate_user_decrypt.rs], the provider interface
    and the world a pass runs in.

    Records and inductive types keep the names of the source.  The types of
    collaborators that the source only uses (alloy's RPC errors, receipts and
    provider, sqlx's errors, the configuration) are modelled as far as the
    source inspects them. *)

From Stdlib Require Import ZArith Lia List String.
From Stdlib.Strings Require Import Byte.
From stdpp Require Import base option list strings.
From S2P Require Import Prelude.

#[local] Open Scope Z_scope.
#[local] Open Scope relay_scope.

(** ** Rows *)

(** [struct DelegationRow]. *)
Record DelegationRow := mkDelegationRow {
  delegator : bytes;
  delegate : bytes;
  contract_address : bytes;
  delegation_counter : Z;
  old_expiry_date : Z;
  expiry_date : Z;
  host_chain_id : Z;
  block_hash : bytes;
  block_number : Z;
  transaction_id : option bytes;
}.

(** A row of the table [delegate_user_decrypt] as the SELECT returns it:
    the integer columns are BIGINT, that is [i64]. *)
Record DbRow := mkDbRow {
  db_delegator : bytes;
  db_delegate : bytes;
  db_contract_address : bytes;
  db_delegation_counter : Z;
  db_old_expiry_date : Z;
  db_expiry_date : Z;
  db_host_chain_id : Z;
  db_block_number : Z;
  db_block_hash : bytes;
  db_transaction_id : option bytes;
}.

(** [enum BlockStatus], with the spelling of the source. *)
Inductive BlockStatus :=
| Unkown
| Stable
| Dismissed.

(** [type BlockHash = FixedBytes<32>]; a block of the host chain, of which the
    source reads [header.hash]. *)
Abbreviation BlockHash := bytes.

Record Block := mkBlock { header_hash : BlockHash }.

(** ** Errors *)

(** [MultichainACLErrors]: the two variants the source names, and the rest. *)
Inductive MultichainACLErrors :=
| CoprocessorAlreadyDelegatedOrRevokedUserDecryption
| UserDecryptionDelegationCounterTooLow
| OtherMultichainACLError (selector : bytes).

(** The payload of a JSON-RPC error response, with the result of decoding its
    data as an interface error of the contract. *)
Record ErrorPayload := mkErrorPayload {
  payload_code : Z;
  as_decoded_interface_error : option MultichainACLErrors;
}.

Inductive TransportErrorKind :=
| MissingBatchResponse
| BackendGone
| PubsubUnavailable
| HttpError (retryable : bool)
| Custom (retryable : bool).

Inductive RpcError :=
| ErrorResp (payload : ErrorPayload)
| NullResp
| UnsupportedFeature
| LocalUsageError
| SerError
| DeserError
| Transport (inner : TransportErrorKind).

Inductive PendingTransactionError :=
| FailedToRegister
| ReceiptTransportError (e : RpcError)
| RecvError
| TxWatcherTimeout.

(** The operations of the store and of the listener that can fail. *)
Inductive DbOp :=
| OpListenerConnect
| OpListen
| OpBegin
| OpFetch
| OpDelete
| OpCommit
| OpRollback.

(** The messages of [anyhow::bail!] and [anyhow::anyhow!] in the source. *)
Inductive ErrorMessage :=
| CannotGetPastBlock
| ErrorCheckingReadyDelegations
| ErrorSendingDelegationTransaction
| TransactionFailedWithStatus (transaction_hash : bytes).

Inductive PanicCause :=
| SubtractWithOverflow
| AddressFromSliceLength.

(** [anyhow::Error], by origin; a panic of the pass is the last case. *)
Inductive Error :=
| ErrRpc (e : RpcError)
| ErrPendingTransaction (e : PendingTransactionError)
| ErrDb (op : DbOp)
| ErrMsg (m : ErrorMessage)
| ErrPanic (c : PanicCause).

Abbreviation Res A := (Result A Error).

(** ** Transactions *)

(** The call [delegateUserDecryption(chainId, delegator, delegate, contract,
    expiry, counter)]. *)
Record DelegateUserDecryptionCall := mkCall {
  call_chain_id : Z;
  call_delegator : bytes;
  call_delegate : bytes;
  call_contract_address : bytes;
  call_expiry_date : Z;
  call_delegation_counter : Z;
}.

Record TransactionRequest := mkTransactionRequest {
  request_to : bytes;
  request_call : DelegateUserDecryptionCall;
  request_gas_limit : option Z;
}.

Record PendingTransaction := mkPendingTransaction { pending_hash : bytes }.

Record TransactionReceipt := mkReceipt {
  receipt_transaction_hash : bytes;
  receipt_status : bool;
}.

(** ** Configuration and the operation *)

(** The fields of [ConfigSettings] the source reads. *)
Record ConfigSettings := mkConfigSettings {
  gas_limit_overprovision_percent : Z;
  txn_receipt_timeout_secs : Z;
  required_txn_confirmations : Z;
  delegation_fallback_polling : Z;
  block_delay_for_delegation : Z;
}.

(** [struct DelegateUserDecryptOperation], without the two providers and the
    pool, which are state and live in the [World]. *)
Record DelegateUserDecryptOperation := mkOperation {
  multichain_acl_address : bytes;
  conf : ConfigSettings;
  gas : option Z;
}.

(** ** Observable events *)

(** One constructor per log line of the source that carries information. *)
Inductive LogEvent :=
| LogDelegationNotAccepted (e : MultichainACLErrors)
| LogSendFailedUnlimitedRetry
| LogSendFailed
| LogGettingReceiptFailed
| LogTxnSucceeded (transaction_hash : bytes)
| LogTxnFailed (transaction_hash : bytes)
| LogCheckingReady (nb_ready_delegations : nat)
| LogCannotGetBlockHash (block_number : Z)
| LogPastBlockNotFound (block_number : Z)
| LogDismissed (nb_dismissed_delegations : nat)
| LogUnsure (nb_unsure_delegations : nat)
| LogProcessingReady (nb_stable_delegations : nat)
| LogNoNotification
| LogNotificationError
| LogInvalidPayload (payload : string)
| LogErrorCheckingReady
| LogNoDelegations
| LogCannotClean.

Inductive Event :=
| EvHostGetBlock (block_number : Z)
| EvHostGetBlockNumber
| EvGatewaySend (request : TransactionRequest)
| EvGatewayReceipt (pending : PendingTransaction)
| EvDb (op : DbOp)
| EvLog (l : LogEvent).

(** What [listener.recv()] under its timeout gives in a pass. *)
Inductive RecvOutcome :=
| RecvTimeout
| RecvConnectionError
| RecvNotification (payload : string).

(** ** Decidable equality *)

#[export] Instance DelegationRow_eq_dec : EqDecision DelegationRow.
Proof. solve_decision. Defined.
#[export] Instance DbRow_eq_dec : EqDecision DbRow.
Proof. solve_decision. Defined.
#[export] Instance BlockStatus_eq_dec : EqDecision BlockStatus.
Proof. solve_decision. Defined.
#[export] Instance Block_eq_dec : EqDecision Block.
Proof. solve_decision. Defined.
#[export] Instance MultichainACLErrors_eq_dec : EqDecision MultichainACLErrors.
Proof. solve_decision. Defined.
#[export] Instance ErrorPayload_eq_dec : EqDecision ErrorPayload.
Proof. solve_decision. Defined.
#[export] Instance TransportErrorKind_eq_dec : EqDecision TransportErrorKind.
Proof. solve_decision. Defined.
#[export] Instance RpcError_eq_dec : EqDecision RpcError.
Proof. solve_decision. Defined.
#[export] Instance PendingTransactionError_eq_dec : EqDecision PendingTransactionError.
Proof. solve_decision. Defined.
#[export] Instance DbOp_eq_dec : EqDecision DbOp.
Proof. solve_decision. Defined.
#[export] Instance ErrorMessage_eq_dec : EqDecision ErrorMessage.
Proof. solve_decision. Defined.
#[export] Instance PanicCause_eq_dec : EqDecision PanicCause.
Proof. solve_decision. Defined.
#[export] Instance Error_eq_dec : EqDecision Error.
Proof. solve_decision. Defined.
#[export] Instance DelegateUserDecryptionCall_eq_dec : EqDecision DelegateUserDecryptionCall.
Proof. solve_decision. Defined.
#[export] Instance TransactionRequest_eq_dec : EqDecision TransactionRequest.
Proof. solve_decision. Defined.
#[export] Instance PendingTransaction_eq_dec : EqDecision PendingTransaction.
Proof. solve_decision. Defined.
#[export] Instance TransactionReceipt_eq_dec : EqDecision TransactionReceipt.
Proof. solve_decision. Defined.
#[export] Instance LogEvent_eq_dec : EqDecision LogEvent.
Proof. solve_decision. Defined.
#[export] Instance Event_eq_dec : EqDecision Event.
Proof. solve_decision. Defined.

(** ** The provider interface

    The source is generic in [P: Provider<Ethereum> + Clone].  Reads of the
    host chain are functions of the provider; a send and a receipt wait on
    the gateway change the provider (the chain behind it). *)
Class Provider (P : Type) := {
  get_block_by_number : P -> Z -> Result (option Block) RpcError;
  get_block_number : P -> Result Z RpcError;
  provider_send_transaction :
    P -> TransactionRequest -> Result PendingTransaction RpcError * P;
  get_receipt :
    P -> PendingTransaction -> Z -> Z ->
    Result TransactionReceipt PendingTransactionError * P;
  try_overprovision_gas_limit : P -> TransactionRequest -> Z -> TransactionRequest;
}.

(** ** The world *)

(** One item of a schedule of the spawned tasks: task [i] advances to its
    next suspension point, or the orchestrator's join loop looks at the tasks
    that have finished. *)
Inductive SchedItem :=
| Run (i : nat)
| Poll.

(** What a pass does not decide itself: which store operations fail, what the
    listener delivers, and how the spawned tasks are scheduled. *)
Record PassOracle := mkPassOracle {
  o_db_fault : DbOp -> bool;
  o_recv : RecvOutcome;
  o_schedule : list SchedItem;
}.

Section world.
Context {P : Type}.

Record World := mkWorld {
  w_host_chain_provider : P;
  w_gateway_provider : P;
  (** the committed rows of [delegate_user_decrypt] *)
  w_table : list DbRow;
  w_oracle : PassOracle;
  (** DELEGATE_USER_DECRYPT_SUCCESS_COUNTER and ..._FAIL_COUNTER *)
  w_success_counter : nat;
  w_fail_counter : nat;
  (** calls to collaborators and log lines, oldest first *)
  w_trace : list Event;
}.

Definition w_db_fault (w : World) : DbOp -> bool := o_db_fault (w_oracle w).
Definition w_recv (w : World) : RecvOutcome := o_recv (w_oracle w).
Definition w_schedule (w : World) : list SchedItem := o_schedule (w_oracle w).

Definition set_gateway_provider (p : P) (w : World) : World :=
  mkWorld (w_host_chain_provider w) p (w_table w) (w_oracle w)
    (w_success_counter w) (w_fail_counter w) (w_trace w).

Definition set_table (t : list DbRow) (w : World) : World :=
  mkWorld (w_host_chain_provider w) (w_gateway_provider w) t (w_oracle w)
    (w_success_counter w) (w_fail_counter w) (w_trace w).

Definition add_events (evs : list Event) (w : World) : World :=
  mkWorld (w_host_chain_provider w) (w_gateway_provider w) (w_table w) (w_oracle w)
    (w_success_counter w) (w_fail_counter w) (w_trace w ++ evs).

Definition add_event (e : Event) (w : World) : World := add_events [e] w.

(** [n] increments of the success counter and [m] of the failure counter. *)
Definition add_counts (n m : nat) (w : World) : World :=
  mkWorld (w_host_chain_provider w) (w_gateway_provider w) (w_table w) (w_oracle w)
    (n + w_success_counter w) (m + w_fail_counter w) (w_trace w).

Definition inc_success (w : World) : World := add_counts 1 0 w.

Definition inc_fail (w : World) : World := add_counts 0 1 w.

(** The primitive effects. *)
Definition emit (e : Event) : M World unit := modify (add_event e).

Definition log (l : LogEvent) : M World unit := emit (EvLog l).

(** [COUNTER.inc()] *)
Definition success_counter_inc : M World unit := modify inc_success.
Definition fail_counter_inc : M World unit := modify inc_fail.

(** A store operation: recorded in the trace, failing when the oracle says so. *)
Definition db_op (op : DbOp) : M World (Res unit) :=
  emit (EvDb op) ;;
  fault <- gets (fun w => w_db_fault w op) ;;
  ret (if fault : bool then Err (ErrDb op) else Ok tt).

(** The trace only grows, and [add_events] touches nothing else. *)
Lemma add_events_nil w : add_events [] w = w.
Proof. destruct w. unfold add_events; simpl. by rewrite app_nil_r. Qed.

Lemma add_events_app evs1 evs2 w :
  add_events evs2 (add_events evs1 w) = add_events (evs1 ++ evs2) w.
Proof. unfold add_events; simpl. by rewrite app_assoc. Qed.

Lemma db_op_run op w :
  db_op op w = (if w_db_fault w op then Err (ErrDb op) else Ok tt, add_events [EvDb op] w).
Proof. reflexivity. Qed.

(** ** Frames

    Everything a pass does before its commit leaves the host provider, the
    table and the oracle as they are, extends the trace and does not decrease
    the counters. *)
Record frame (w w' : World) : Prop := mkFrame {
  frame_host : w_host_chain_provider w' = w_host_chain_provider w;
  frame_table : w_table w' = w_table w;
  frame_oracle : w_oracle w' = w_oracle w;
  frame_trace : w_trace w `prefix_of` w_trace w';
  frame_success : (w_success_counter w <= w_success_counter w')%nat;
  frame_fail : (w_fail_counter w <= w_fail_counter w')%nat;
}.

#[export] Instance frame_preorder : PreOrder frame.
Proof.
  split.
  - intros w. by split.
  - intros w1 w2 w3 [] []. split; try congruence; try lia. by etrans.
Qed.

(** What a pass leaves alone before its submissions and after them: the
    gateway chain and the two counters. *)
Record quiet_step (w w' : World) : Prop := mkQuiet {
  quiet_gateway : w_gateway_provider w' = w_gateway_provider w;
  quiet_success : w_success_counter w' = w_success_counter w;
  quiet_fail : w_fail_counter w' = w_fail_counter w;
}.

#[export] Instance quiet_step_preorder : PreOrder quiet_step.
Proof.
  split.
  - intros w. by split.
  - intros w1 w2 w3 [] []. split; congruence.
Qed.

(** The trace only grows, whatever a pass does. *)
Definition grows (w w' : World) : Prop := w_trace w `prefix_of` w_trace w'.

#[export] Instance grows_preorder : PreOrder grows.
Proof. unfold grows. split; [by intros w|intros w1 w2 w3 ? ?; by etrans]. Qed.

Lemma frame_grows w w' : frame w w' -> grows w w'.
Proof. apply frame_trace. Qed.

(** An action all of whose steps are in a preorder [R] on worlds. *)
Definition preserves (R : relation World) {A} (m : M World A) : Prop :=
  forall w, R w (exec m w).

Section preserves.
Context (R : relation World) `{!PreOrder R}.

Lemma preserves_ret {A} (a : A) : preserves R (ret a).
Proof. intros w. reflexivity. Qed.

Lemma preserves_bind {A B} (m : M World A) (k : A -> M World B) :
  preserves R m -> (forall a, preserves R (k a)) -> preserves R (bind m k).
Proof.
  intros Hm Hk w. rewrite exec_bind. etrans; [apply Hm|apply Hk].
Qed.

Lemma preserves_gets {A} (f : World -> A) : preserves R (gets f).
Proof. intros w. reflexivity. Qed.

Lemma preserves_foldM {A B} (f : B -> A -> M World B) l b :
  (forall b x, preserves R (f b x)) -> preserves R (foldM f l b).
Proof.
  intros Hf. revert b. induction l as [|x l IH]; intros b; simpl.
  - apply preserves_ret.
  - apply preserves_bind; auto.
Qed.

Lemma preserves_mapM {A B} (f : A -> M World B) l :
  (forall x, preserves R (f x)) -> preserves R (mapM f l).
Proof.
  intros Hf. induction l as [|x l IH]; simpl.
  - apply preserves_ret.
  - repeat (apply preserves_bind; auto; intros). apply preserves_ret.
Qed.

End preserves.

(** An action that only makes frame steps, and one that only makes quiet
    steps. *)
Definition framed {A} (m : M World A) : Prop := preserves frame m.

Definition quiet {A} (m : M World A) : Prop := preserves quiet_step m.

Lemma framed_ret {A} (a : A) : framed (ret a).
Proof. apply (preserves_ret frame). Qed.

Lemma framed_bind {A B} (m : M World A) (k : A -> M World B) :
  framed m -> (forall a, framed (k a)) -> framed (bind m k).
Proof. apply (preserves_bind frame). Qed.

Lemma framed_gets {A} (f : World -> A) : framed (gets f).
Proof. apply (preserves_gets frame). Qed.

Lemma framed_foldM {A B} (f : B -> A -> M World B) l b :
  (forall b x, framed (f b x)) -> framed (foldM f l b).
Proof. apply (preserves_foldM frame). Qed.

Lemma framed_mapM {A B} (f : A -> M World B) l :
  (forall x, framed (f x)) -> framed (mapM f l).
Proof. apply (preserves_mapM frame). Qed.

Definition growing {A} (m : M World A) : Prop := preserves grows m.

Lemma growing_framed {A} (m : M World A) : framed m -> growing m.
Proof. intros Hm w. apply frame_grows, Hm. Qed.

Lemma growing_ret {A} (a : A) : growing (ret a).
Proof. apply (preserves_ret grows). Qed.

Lemma growing_bind {A B} (m : M World A) (k : A -> M World B) :
  growing m -> (forall a, growing (k a)) -> growing (bind m k).
Proof. apply (preserves_bind grows). Qed.

Lemma growing_modify_set_table t : growing (modify (set_table t)).
Proof. intros w. unfold grows. reflexivity. Qed.

Lemma quiet_ret {A} (a : A) : quiet (ret a).
Proof. apply (preserves_ret quiet_step). Qed.

Lemma quiet_bind {A B} (m : M World A) (k : A -> M World B) :
  quiet m -> (forall a, quiet (k a)) -> quiet (bind m k).
Proof. apply (preserves_bind quiet_step). Qed.

Lemma quiet_gets {A} (f : World -> A) : quiet (gets f).
Proof. apply (preserves_gets quiet_step). Qed.

Lemma quiet_foldM {A B} (f : B -> A -> M World B) l b :
  (forall b x, quiet (f b x)) -> quiet (foldM f l b).
Proof. apply (preserves_foldM quiet_step). Qed.

Lemma quiet_add_events evs w : quiet_step w (add_events evs w).
Proof. by split. Qed.

Lemma quiet_set_table t w : quiet_step w (set_table t w).
Proof. by split. Qed.

Lemma quiet_modify_set_table t : quiet (modify (set_table t)).
Proof. intros w. apply quiet_set_table. Qed.

Lemma quiet_emit e : quiet (emit e).
Proof. intros w. apply quiet_add_events. Qed.

Lemma quiet_log l : quiet (log l).
Proof. apply quiet_emit. Qed.

Lemma quiet_db_op op : quiet (db_op op).
Proof. intros w. apply quiet_add_events. Qed.

Lemma frame_add_events evs w : frame w (add_events evs w).
Proof. split; simpl; try done. by apply prefix_app_r. Qed.

Lemma frame_add_counts n m w : frame w (add_counts n m w).
Proof. split; simpl; try done; lia. Qed.

Lemma frame_set_gateway_provider p w : frame w (set_gateway_provider p w).
Proof. by split. Qed.

Lemma frame_db_fault w w' : frame w w' -> w_db_fault w' = w_db_fault w.
Proof. intros Hf. unfold w_db_fault. by rewrite (frame_oracle _ _ Hf). Qed.

Lemma frame_recv w w' : frame w w' -> w_recv w' = w_recv w.
Proof. intros Hf. unfold w_recv. by rewrite (frame_oracle _ _ Hf). Qed.

Lemma frame_schedule w w' : frame w w' -> w_schedule w' = w_schedule w.
Proof. intros Hf. unfold w_schedule. by rewrite (frame_oracle _ _ Hf). Qed.

Lemma w_db_fault_add_events evs w : w_db_fault (add_events evs w) = w_db_fault w.
Proof. reflexivity. Qed.

Lemma w_recv_add_events evs w : w_recv (add_events evs w) = w_recv w.
Proof. reflexivity. Qed.

Lemma w_schedule_add_events evs w : w_schedule (add_events evs w) = w_schedule w.
Proof. reflexivity. Qed.

Lemma w_host_add_events evs w :
  w_host_chain_provider (add_events evs w) = w_host_chain_provider w.
Proof. reflexivity. Qed.

Lemma w_table_add_events evs w : w_table (add_events evs w) = w_table w.
Proof. reflexivity. Qed.

Lemma w_table_set_table t w : w_table (set_table t w) = t.
Proof. reflexivity. Qed.

Lemma eval_db_op op w :
  eval (db_op op) w = if w_db_fault w op then Err (ErrDb op) else Ok tt.
Proof. reflexivity. Qed.

Lemma exec_db_op op w : exec (db_op op) w = add_events [EvDb op] w.
Proof. reflexivity. Qed.

Lemma exec_emit e w : exec (emit e) w = add_events [e] w.
Proof. reflexivity. Qed.

Lemma exec_log l w : exec (log l) w = add_events [EvLog l] w.
Proof. reflexivity. Qed.

Lemma framed_emit e : framed (emit e).
Proof. intros w. apply frame_add_events. Qed.

Lemma framed_log l : framed (log l).
Proof. apply framed_emit. Qed.

Lemma framed_success_counter_inc : framed success_counter_inc.
Proof. intros w. apply frame_add_counts. Qed.

Lemma framed_fail_counter_inc : framed fail_counter_inc.
Proof. intros w. apply frame_add_counts. Qed.

Lemma framed_db_op op : framed (db_op op).
Proof. intros w. unfold exec. rewrite db_op_run. apply frame_add_events. Qed.

End world.

Arguments World P : clear implicits.

#[export] Hint Resolve @framed_ret @framed_gets @framed_emit @framed_log
  @framed_success_counter_inc @framed_fail_counter_inc @framed_db_op
  @frame_add_events @frame_add_counts @frame_set_gateway_provider : relay.
#[export] Hint Resolve @quiet_ret @quiet_gets @quiet_emit @quiet_log @quiet_db_op
  @quiet_modify_set_table
  @quiet_add_events @quiet_set_table : relay.

(** Proves that a composite action is [framed] from the lemmas of the
    [relay] database, going under binds and case distinctions. *)
Ltac solve_framed :=
  repeat first
    [ progress (auto with relay)
    | apply framed_bind
    | apply framed_foldM
    | apply framed_mapM
    | progress intros
    | case_match ].

#[export] Hint Resolve @growing_ret @growing_modify_set_table : relay.

(** The same for [growing]: framed actions are, and so is a commit. *)
Ltac solve_growing :=
  repeat first
    [ solve [auto 2 with relay]
    | apply growing_framed; solve_framed; fail
    | apply growing_bind
    | progress intros
    | case_match ].

(** The same for [quiet]. *)
Ltac solve_quiet :=
  repeat first
    [ progress (auto with relay)
    | apply quiet_bind
    | apply quiet_foldM
    | progress intros
    | case_match ].

#[export] Hint Rewrite @add_events_nil @add_events_app : relay_rw.
#[export] Hint Rewrite @eval_db_op @exec_db_op @exec_emit @exec_log : relay_run.
#[export] Hint Rewrite @w_db_fault_add_events @w_recv_add_events @w_schedule_add_events
  @w_host_add_events @w_table_add_events @w_table_set_table : relay_rw.

(** Merges the events added to a world into one [add_events]. *)
Ltac trace_simpl :=
  unfold log, emit in *; monad_unfold; unfold add_event in *;
  rewrite ?add_events_app, ?add_events_nil; simpl.

(** ** Well-formed rows *)

(** An address is 20 bytes, a block hash 32, and the integer columns hold
    values that were [u64] before they were stored as BIGINT. *)
Definition wf_DbRow (r : DbRow) : Prop :=
  0 <= db_delegation_counter r <= i64_max /\
  0 <= db_old_expiry_date r <= i64_max /\
  0 <= db_expiry_date r <= i64_max /\
  0 <= db_host_chain_id r <= i64_max /\
  0 <= db_block_number r <= i64_max.

#[export] Instance wf_DbRow_dec r : Decision (wf_DbRow r).
Proof. unfold wf_DbRow. apply _. Defined.

Definition wf_table (t : list DbRow) : Prop := Forall wf_DbRow t.
