(* ===== verification/Mock.v ===== *)
(** * Mock: a scripted provider and sample data, on which the development's
    statements are checked at concrete inputs.

    [MockProvider] answers block lookups from a table of heights and hashes,
    and answers sends and receipt waits from scripts that are consumed in
    order; once the script of the sends is used up every send gets the
    default answer, and an empty script of receipts confirms. *)

From Stdlib Require Import ZArith Lia List.
From Stdlib.Strings Require Import Byte.
From stdpp Require Import base option list.
From S2P Require Import Prelude Types.

#[local] Open Scope Z_scope.

Record MockProvider := mkMock {
  (** the canonical chain: height and hash *)
  mock_blocks : list (Z * BlockHash);
  (** heights whose lookup fails *)
  mock_unreachable : list Z;
  mock_block_number : Result Z RpcError;
  mock_send_answers : list (Result PendingTransaction RpcError);
  mock_receipt_answers : list (Result TransactionReceipt PendingTransactionError);
  (** the requests the chain accepted, oldest first *)
  mock_accepted : list TransactionRequest;
  (** the answer to a send once the script is used up *)
  mock_send_default : Result PendingTransaction RpcError;
}.

Fixpoint mock_hash_at (blocks : list (Z * BlockHash)) (n : Z) : option BlockHash :=
  match blocks with
  | [] => None
  | (m, h) :: blocks' => if decide (m = n) then Some h else mock_hash_at blocks' n
  end.

Definition mock_get_block_by_number (p : MockProvider) (n : Z)
    : Result (option Block) RpcError :=
  if decide (n ∈ mock_unreachable p) then Err (Transport BackendGone)
  else Ok (mkBlock <$> mock_hash_at (mock_blocks p) n).

Definition mock_send (p : MockProvider) (request : TransactionRequest)
    : Result PendingTransaction RpcError * MockProvider :=
  let answer := default (mock_send_default p) (head (mock_send_answers p)) in
  (answer,
   mkMock (mock_blocks p) (mock_unreachable p) (mock_block_number p)
     (tail (mock_send_answers p)) (mock_receipt_answers p)
     (match answer with
      | Ok _ => mock_accepted p ++ [request]
      | Err _ => mock_accepted p
      end)
     (mock_send_default p)).

Definition mock_get_receipt (p : MockProvider) (transaction : PendingTransaction)
    (timeout confirmations : Z)
    : Result TransactionReceipt PendingTransactionError * MockProvider :=
  (default (Ok (mkReceipt (pending_hash transaction) true)) (head (mock_receipt_answers p)),
   mkMock (mock_blocks p) (mock_unreachable p) (mock_block_number p)
     (mock_send_answers p) (tail (mock_receipt_answers p)) (mock_accepted p)
     (mock_send_default p)).

#[export] Instance mock_provider : Provider MockProvider := {
  get_block_by_number := mock_get_block_by_number;
  get_block_number := mock_block_number;
  provider_send_transaction := mock_send;
  get_receipt := mock_get_receipt;
  try_overprovision_gas_limit := fun _ request _ => request;
}.

(** ** Sample data *)

(** The answer of a chain that accepts a send. *)
Definition accepted : Result PendingTransaction RpcError := Ok (mkPendingTransaction []).

Definition hash_H : BlockHash := replicate 32 x11.
Definition hash_H' : BlockHash := replicate 32 x22.
Definition address_A : bytes := replicate 20 xa1.
Definition address_B : bytes := replicate 20 xb2.
Definition address_C : bytes := replicate 20 xc3.

(** A row of the table at a height, with a block hash and a counter. *)
Definition sample_row (n : Z) (h : BlockHash) (counter : Z) : DbRow :=
  mkDbRow address_A address_B address_C counter 0 1000 1 n h None.

(** The same as a fetched row. *)
Definition delegation_of_sample (n : Z) (h : BlockHash) (counter : Z) : DelegationRow :=
  mkDelegationRow address_A address_B address_C counter 0 1000 1 h n None.

(** A chain with block [H] at height 100 and nothing else known. *)
Definition chain_100 : MockProvider :=
  mkMock [(100, hash_H)] [] (Ok 100) [] [] [] accepted.

(** A gateway that accepts and confirms everything. *)
Definition gateway_ok : MockProvider := mkMock [] [] (Ok 0) [] [] [] accepted.

(** A gateway that answers the sends with [answers] and the receipt waits
    with [receipts], in order. *)
Definition gateway_scripted
    (answers : list (Result PendingTransaction RpcError))
    (receipts : list (Result TransactionReceipt PendingTransactionError)) : MockProvider :=
  mkMock [] [] (Ok 0) answers receipts [] accepted.

(** The contract's answer to a delegation that is already in place. *)
Definition already_delegated : Result PendingTransaction RpcError :=
  Err (ErrorResp (mkErrorPayload 3
         (Some CoprocessorAlreadyDelegatedOrRevokedUserDecryption))).

(** A gateway on which every delegation is already in place. *)
Definition gateway_rejecting : MockProvider :=
  mkMock [] [] (Ok 0) [] [] [] already_delegated.

(** A sample request. *)
Definition sample_request : TransactionRequest :=
  mkTransactionRequest (replicate 20 xee)
    (mkCall 1 address_A address_B address_C 1000 1) None.

(** An oracle with no store fault, a notification carrying [payload] and the
    schedule [schedule]. *)
Definition oracle_of (recv : RecvOutcome) (schedule : list SchedItem) : PassOracle :=
  mkPassOracle (fun _ => false) recv schedule.

Definition sample_conf : ConfigSettings := mkConfigSettings 120 30 1 10 0.

Definition sample_op : DelegateUserDecryptOperation :=
  mkOperation (replicate 20 xee) sample_conf None.

Definition sample_world (host gateway : MockProvider) (table : list DbRow)
    (oracle : PassOracle) : World MockProvider :=
  mkWorld host gateway table oracle 0 0 [].
