(* ===== verification/Store.v ===== *)
(** * Store: the table [delegate_user_decrypt] and the transaction a pass
    opens on it.

    [delayed_sorted_delegation] is the SELECT of the source (WHERE on the
    threshold cast to [i64], ORDER BY three columns, conversion of each row
    with [as u64]); [clean_delegation] is the DELETE by block hash.  A
    transaction is the list of rows it sees; commit installs it as the table. *)

From Stdlib Require Import ZArith Lia List.
From Stdlib.Strings Require Import Byte.
From stdpp Require Import base option list sorting.
From S2P Require Import Prelude Types Mock.

#[local] Open Scope Z_scope.
#[local] Open Scope relay_scope.

(** ** Definitions *)

(** [type DbTransaction]: the rows the open transaction sees. *)
Abbreviation DbTransaction := (list DbRow).

(** ORDER BY block_number ASC, delegation_counter ASC, transaction_id ASC. *)
Definition row_key (r : DbRow) : Z * (Z * option bytes) :=
  (db_block_number r, (db_delegation_counter r, db_transaction_id r)).

Definition row_compare : DbRow -> DbRow -> comparison :=
  compare_on row_key
    (lex_compare Z.compare (lex_compare Z.compare (nulls_last_compare bytes_compare))).

Definition row_le : relation DbRow := cmp_le row_compare.

(** WHERE block_number <= $1. *)
Definition ready_rows (t : list DbRow) (bound : Z) : list DbRow :=
  filter (fun r => db_block_number r <= bound) t.

(** The rows the query returns, in its order. *)
Definition select_delayed_sorted (t : list DbRow) (bound : Z) : list DbRow :=
  merge_sort row_le (ready_rows t bound).

(** The conversion of a fetched row into a [DelegationRow]. *)
Definition delegation_of_db_row (r : DbRow) : DelegationRow :=
  {| delegator := db_delegator r;
     delegate := db_delegate r;
     contract_address := db_contract_address r;
     delegation_counter := as_u64 (db_delegation_counter r);
     old_expiry_date := as_u64 (db_old_expiry_date r);
     expiry_date := as_u64 (db_expiry_date r);
     host_chain_id := as_u64 (db_host_chain_id r);
     block_hash := db_block_hash r;
     block_number := as_u64 (db_block_number r);
     transaction_id := db_transaction_id r |}.

(** The order of the fetched rows, read on the converted values. *)
Definition delegation_key (d : DelegationRow) : Z * (Z * option bytes) :=
  (block_number d, (delegation_counter d, transaction_id d)).

Definition delegation_compare : DelegationRow -> DelegationRow -> comparison :=
  compare_on delegation_key
    (lex_compare Z.compare (lex_compare Z.compare (nulls_last_compare bytes_compare))).

Definition delegation_le : relation DelegationRow := cmp_le delegation_compare.

(** The rows a fetch up to [last_ready_block] returns. *)
Definition fetched_rows (tx : list DbRow) (last_ready_block : Z) : list DelegationRow :=
  map delegation_of_db_row (select_delayed_sorted tx (as_i64 last_ready_block)).

(** WHERE block_hash IN (SELECT unnest($1)): the rows the DELETE leaves. *)
Definition delete_block_hashes (t : list DbRow) (blocks_hash : list bytes) : list DbRow :=
  filter (fun r => db_block_hash r ∉ blocks_hash) t.

Section store.
Context {P : Type}.

(** [pub async fn delayed_sorted_delegation]. *)
Definition delayed_sorted_delegation (tx : DbTransaction) (up_to_block_number : Z)
    : M (World P) (Res (list DelegationRow)) :=
  _ <-? db_op OpFetch ;;
  ret (Ok (fetched_rows tx up_to_block_number)).

(** [pub async fn clean_delegation]: the result and the transaction after it. *)
Definition clean_delegation (tx : DbTransaction) (blocks_hash : list bytes)
    : M (World P) (Res unit * DbTransaction) :=
  match blocks_hash with
  | [] => ret (Ok tt, tx)
  | _ :: _ =>
      r <- db_op OpDelete ;;
      match r with
      | Ok _ => ret (Ok tt, delete_block_hashes tx blocks_hash)
      | Err e => ret (Err e, tx)
      end
  end.

(** [self.db_pool.begin()]: the transaction sees the committed table. *)
Definition tx_begin : M (World P) (Res DbTransaction) :=
  _ <-? db_op OpBegin ;;
  t <- gets w_table ;;
  ret (Ok t).

(** [tx.commit()]: the rows of the transaction become the table; a failed
    commit leaves the table as it was. *)
Definition tx_commit (tx : DbTransaction) : M (World P) (Res unit) :=
  _ <-? db_op OpCommit ;;
  modify (set_table tx) ;;
  ret (Ok tt).

(** [tx.rollback()]: the table is as before, whether the call fails or not
    (a transaction that is dropped is rolled back). *)
Definition tx_rollback (tx : DbTransaction) : M (World P) (Res unit) :=
  db_op OpRollback.

End store.

(** ** The order *)

#[export] Instance row_compare_weak_order : WeakOrder row_compare.
Proof. unfold row_compare. apply _. Qed.

#[export] Instance delegation_compare_weak_order : WeakOrder delegation_compare.
Proof. unfold delegation_compare. apply _. Qed.

#[export] Instance row_le_dec a b : Decision (row_le a b).
Proof. unfold row_le. apply _. Defined.

#[export] Instance row_le_total : Total row_le.
Proof. apply cmp_le_total, _. Qed.

#[export] Instance row_le_trans : Transitive row_le.
Proof. apply cmp_le_trans, _. Qed.

Section select.
Implicit Types (t : list DbRow) (r : DbRow) (bound : Z).

Lemma elem_of_ready_rows t bound r :
  r ∈ ready_rows t bound <-> r ∈ t /\ db_block_number r <= bound.
Proof. unfold ready_rows. rewrite list_elem_of_filter. tauto. Qed.

Lemma select_delayed_sorted_perm t bound :
  select_delayed_sorted t bound ≡ₚ ready_rows t bound.
Proof. apply merge_sort_Permutation. Qed.

Lemma elem_of_select_delayed_sorted t bound r :
  r ∈ select_delayed_sorted t bound <-> r ∈ t /\ db_block_number r <= bound.
Proof. by rewrite select_delayed_sorted_perm, elem_of_ready_rows. Qed.

Lemma select_delayed_sorted_strongly_sorted t bound :
  StronglySorted row_le (select_delayed_sorted t bound).
Proof. apply StronglySorted_merge_sort; apply _. Qed.

Lemma select_delayed_sorted_length t bound :
  (length (select_delayed_sorted t bound) <= length t)%nat.
Proof.
  rewrite select_delayed_sorted_perm. unfold ready_rows. apply length_filter.
Qed.

Lemma select_delayed_sorted_wf t bound :
  wf_table t -> wf_table (select_delayed_sorted t bound).
Proof.
  unfold wf_table. rewrite !Forall_forall. intros Hwf r Hr.
  apply elem_of_select_delayed_sorted in Hr as [Hr _]. by apply Hwf.
Qed.

(** A bound below every stored height selects nothing. *)
Lemma select_delayed_sorted_negative t bound :
  wf_table t -> bound < 0 -> select_delayed_sorted t bound = [].
Proof.
  intros Hwf Hb. apply Permutation_nil_r. rewrite select_delayed_sorted_perm.
  unfold ready_rows. rewrite filter_Forall_not; [done|].
  eapply Forall_impl; [apply Hwf|]. intros r (_ & _ & _ & _ & Hn & _). simpl. lia.
Qed.

End select.

Section conversion.

(** On a well-formed row the casts of the conversion change nothing. *)
Lemma delegation_key_of_db_row r :
  wf_DbRow r -> delegation_key (delegation_of_db_row r) = row_key r.
Proof.
  intros (Hc & _ & _ & _ & Hn). unfold delegation_key, row_key; simpl.
  rewrite !as_u64_id; [done|unfold is_u64, u64_max, i64_max in *; lia..].
Qed.

Lemma delegation_compare_of_db_row a b :
  wf_DbRow a -> wf_DbRow b ->
  delegation_compare (delegation_of_db_row a) (delegation_of_db_row b) = row_compare a b.
Proof.
  intros Ha Hb. unfold delegation_compare, row_compare, compare_on.
  by rewrite !delegation_key_of_db_row.
Qed.

Lemma block_number_of_db_row r :
  wf_DbRow r -> block_number (delegation_of_db_row r) = db_block_number r.
Proof.
  intros (_ & _ & _ & _ & Hn). simpl.
  apply as_u64_id. unfold is_u64, u64_max, i64_max in *. lia.
Qed.

Lemma StronglySorted_map_of_db_row l :
  wf_table l -> StronglySorted row_le l ->
  StronglySorted delegation_le (map delegation_of_db_row l).
Proof.
  intros Hwf Hs. induction Hs as [|a l Hs IH Hall]; simpl; [constructor|].
  apply Forall_cons in Hwf as [Ha Hl]. constructor; [by apply IH|].
  rewrite Forall_map. unfold wf_table in Hl. rewrite Forall_forall in Hall, Hl |- *.
  intros b Hb. unfold delegation_le, cmp_le.
  rewrite delegation_compare_of_db_row by auto. by apply Hall.
Qed.

End conversion.

Section delete.
Implicit Types (t : list DbRow) (r : DbRow) (hs : list bytes).

Lemma elem_of_delete_block_hashes t hs r :
  r ∈ delete_block_hashes t hs <-> r ∈ t /\ db_block_hash r ∉ hs.
Proof. unfold delete_block_hashes. rewrite list_elem_of_filter. tauto. Qed.

Lemma delete_block_hashes_nil t : delete_block_hashes t [] = t.
Proof.
  unfold delete_block_hashes. induction t as [|r t IH]; [done|].
  rewrite filter_cons_True by apply not_elem_of_nil. by rewrite IH.
Qed.

Lemma delete_block_hashes_sublist t hs : delete_block_hashes t hs `sublist_of` t.
Proof. apply sublist_filter. Qed.

Lemma delete_block_hashes_idemp t hs :
  delete_block_hashes (delete_block_hashes t hs) hs = delete_block_hashes t hs.
Proof. unfold delete_block_hashes. apply list_filter_filter_l. tauto. Qed.

Lemma delete_block_hashes_wf t hs : wf_table t -> wf_table (delete_block_hashes t hs).
Proof. apply Forall_filter_keeps. Qed.

End delete.

(** ** The operations on a world *)

Section store_run.
Context {P : Type}.
Implicit Types (w : World P) (tx : DbTransaction) (hs : list bytes).

Lemma delayed_sorted_delegation_run tx b w :
  delayed_sorted_delegation tx b w =
  (if w_db_fault w OpFetch then Err (ErrDb OpFetch) else Ok (fetched_rows tx b),
   add_events [EvDb OpFetch] w).
Proof.
  unfold delayed_sorted_delegation. rewrite run_bind. unfold eval, exec.
  rewrite db_op_run. simpl. by destruct (w_db_fault w OpFetch).
Qed.

Lemma clean_delegation_run tx hs w :
  clean_delegation tx hs w =
  match hs with
  | [] => (Ok tt, tx, w)
  | _ :: _ =>
      (if w_db_fault w OpDelete then (Err (ErrDb OpDelete), tx)
       else (Ok tt, delete_block_hashes tx hs),
       add_events [EvDb OpDelete] w)
  end.
Proof.
  unfold clean_delegation. destruct hs; [done|].
  rewrite run_bind. unfold eval, exec. rewrite db_op_run. simpl.
  by destruct (w_db_fault w OpDelete).
Qed.

Lemma tx_begin_run w :
  tx_begin w =
  (if w_db_fault w OpBegin then Err (ErrDb OpBegin) else Ok (w_table w),
   add_events [EvDb OpBegin] w).
Proof.
  unfold tx_begin. rewrite run_bind. unfold eval, exec. rewrite db_op_run. simpl.
  by destruct (w_db_fault w OpBegin).
Qed.

Lemma tx_commit_run tx w :
  tx_commit tx w =
  if w_db_fault w OpCommit
  then (Err (ErrDb OpCommit), add_events [EvDb OpCommit] w)
  else (Ok tt, set_table tx (add_events [EvDb OpCommit] w)).
Proof.
  unfold tx_commit. rewrite run_bind. unfold eval, exec. rewrite db_op_run. simpl.
  by destruct (w_db_fault w OpCommit).
Qed.

Lemma eval_tx_commit tx w :
  eval (tx_commit tx) w = if w_db_fault w OpCommit then Err (ErrDb OpCommit) else Ok tt.
Proof. unfold eval. rewrite tx_commit_run. by destruct (w_db_fault w OpCommit). Qed.

Lemma table_tx_commit tx w :
  w_table (exec (tx_commit tx) w) = if w_db_fault w OpCommit then w_table w else tx.
Proof. unfold exec. rewrite tx_commit_run. by destruct (w_db_fault w OpCommit). Qed.

Lemma tx_commit_ok tx w u :
  eval (tx_commit tx) w = Ok u -> w_table (exec (tx_commit tx) w) = tx.
Proof. rewrite eval_tx_commit, table_tx_commit. by destruct (w_db_fault w OpCommit). Qed.

Lemma exec_tx_begin w : exec tx_begin w = add_events [EvDb OpBegin] w.
Proof. unfold exec. by rewrite tx_begin_run. Qed.

Lemma eval_tx_begin w :
  eval tx_begin w = if w_db_fault w OpBegin then Err (ErrDb OpBegin) else Ok (w_table w).
Proof. unfold eval. by rewrite tx_begin_run. Qed.

Lemma eval_clean_delegation tx hs w :
  eval (clean_delegation tx hs) w =
  if bool_decide (hs = []) || negb (w_db_fault w OpDelete)
  then (Ok tt, delete_block_hashes tx hs) else (Err (ErrDb OpDelete), tx).
Proof.
  unfold eval. rewrite clean_delegation_run. destruct hs as [|h hs]; simpl.
  - by rewrite delete_block_hashes_nil.
  - by destruct (w_db_fault w OpDelete).
Qed.

Lemma framed_delayed_sorted_delegation tx b : framed (delayed_sorted_delegation (P:=P) tx b).
Proof. unfold delayed_sorted_delegation. solve_framed. Qed.

Lemma framed_clean_delegation tx hs : framed (clean_delegation (P:=P) tx hs).
Proof. unfold clean_delegation. solve_framed. Qed.

Lemma framed_tx_begin : framed (tx_begin (P:=P)).
Proof. unfold tx_begin. solve_framed. Qed.

Lemma framed_tx_rollback tx : framed (tx_rollback (P:=P) tx).
Proof. unfold tx_rollback. solve_framed. Qed.

Lemma quiet_delayed_sorted_delegation tx b : quiet (delayed_sorted_delegation (P:=P) tx b).
Proof. unfold delayed_sorted_delegation. solve_quiet. Qed.

Lemma quiet_clean_delegation tx hs : quiet (clean_delegation (P:=P) tx hs).
Proof. unfold clean_delegation. solve_quiet. Qed.

Lemma quiet_tx_begin : quiet (tx_begin (P:=P)).
Proof. unfold tx_begin. solve_quiet. Qed.

Lemma quiet_tx_commit tx : quiet (tx_commit (P:=P) tx).
Proof. unfold tx_commit. solve_quiet. Qed.

Lemma growing_tx_commit tx : growing (tx_commit (P:=P) tx).
Proof. unfold tx_commit. solve_growing. Qed.

Lemma quiet_tx_rollback tx : quiet (tx_rollback (P:=P) tx).
Proof. unfold tx_rollback. solve_quiet. Qed.

End store_run.

#[export] Hint Resolve @framed_delayed_sorted_delegation @framed_clean_delegation
  @framed_tx_begin @framed_tx_rollback : relay.
#[export] Hint Resolve @quiet_delayed_sorted_delegation @quiet_clean_delegation
  @quiet_tx_begin @quiet_tx_commit @quiet_tx_rollback @growing_tx_commit : relay.

(** ** Properties of the store *)

Section store_properties.
Context {P : Type}.
Implicit Types (w : World P) (tx : DbTransaction) (hs : list bytes).

(** C13. On a well-formed table a fetch that the store serves returns its rows
    in the order of the query: ascending block number, then delegation
    counter, then transaction id with absent ids last. *)
Theorem delayed_sorted_delegation_sorted tx b w :
  wf_table tx -> w_db_fault w OpFetch = false ->
  exists ds, eval (delayed_sorted_delegation tx b) w = Ok ds /\
             StronglySorted delegation_le ds.
Proof.
  intros Hwf Hfault. exists (fetched_rows tx b). split.
  - unfold eval. by rewrite delayed_sorted_delegation_run, Hfault.
  - apply StronglySorted_map_of_db_row.
    + by apply select_delayed_sorted_wf.
    + apply select_delayed_sorted_strongly_sorted.
Qed.

(** C14. A fetch up to a threshold that fits an [i64] returns exactly the rows
    of the transaction whose block number is at most the threshold, each
    once, converted. *)
Theorem delayed_sorted_delegation_complete tx b w :
  0 <= b <= i64_max -> w_db_fault w OpFetch = false ->
  exists ds, eval (delayed_sorted_delegation tx b) w = Ok ds /\
             ds ≡ₚ delegation_of_db_row <$> filter (fun r => db_block_number r <= b) tx.
Proof.
  intros Hb Hfault. exists (fetched_rows tx b). split.
  - unfold eval. by rewrite delayed_sorted_delegation_run, Hfault.
  - unfold fetched_rows. rewrite select_delayed_sorted_perm. unfold ready_rows.
    rewrite as_i64_id; [done|]. unfold is_i64, i64_min, i64_max in *. lia.
Qed.

(** C27. The cast of the threshold to [i64] wraps: for a threshold of 2^63 or
    more the query compares with a negative bound and a well-formed table
    yields no row, although every row is below the threshold. *)
Theorem delayed_sorted_delegation_wrapped_threshold tx b w :
  wf_table tx -> 2 ^ 63 <= b <= u64_max -> w_db_fault w OpFetch = false ->
  eval (delayed_sorted_delegation tx b) w = Ok [].
Proof.
  intros Hwf Hb Hfault. unfold eval.
  rewrite delayed_sorted_delegation_run, Hfault. simpl. unfold fetched_rows.
  rewrite select_delayed_sorted_negative; [done..|].
  rewrite as_i64_of_big by done. unfold u64_max in Hb. lia.
Qed.

(** C15. A DELETE that the store serves removes from the transaction exactly
    the rows whose block hash is one of the given hashes and keeps the others
    in their order; a failed DELETE and an empty list of hashes change
    nothing. *)
Theorem clean_delegation_deletes_exactly tx hs w :
  let r := eval (clean_delegation tx hs) w in
  (fst r = Ok tt -> snd r = filter (fun row => db_block_hash row ∉ hs) tx) /\
  (fst r <> Ok tt -> snd r = tx /\ w_db_fault w OpDelete = true).
Proof.
  unfold eval. rewrite clean_delegation_run. destruct hs as [|h hs].
  - simpl. split; [|done]. intros _. symmetry. apply delete_block_hashes_nil.
  - destruct (w_db_fault w OpDelete); simpl; split; done.
Qed.

End store_properties.

(** ** Checks at concrete inputs *)

(** Three rows, stored out of order. *)
Definition table_3 : list DbRow :=
  [sample_row 101 hash_H' 1; sample_row 100 hash_H 2; sample_row 100 hash_H 1].

Definition world_3 : World MockProvider :=
  sample_world chain_100 gateway_ok table_3 (oracle_of RecvTimeout []).

Lemma wf_table_3 : wf_table table_3.
Proof. unfold wf_table. by_compute. Defined.

(** Order stability: rows at block 100 with counter 1, block 100 with
    counter 2 and block 101 with counter 1, stored in another order, are
    fetched at threshold 101 in exactly that sequence. *)
Theorem delayed_sorted_delegation_order_stability :
  eval (delayed_sorted_delegation table_3 101) world_3 =
  Ok (delegation_of_db_row <$>
        [sample_row 100 hash_H 1; sample_row 100 hash_H 2; sample_row 101 hash_H' 1]).
Proof. vm_compute. reflexivity. Qed.

Lemma delayed_sorted_delegation_sorted_witness :
  exists ds, eval (delayed_sorted_delegation table_3 101) world_3 = Ok ds /\
             StronglySorted delegation_le ds.
Proof. apply (delayed_sorted_delegation_sorted table_3 101 world_3 wf_table_3 eq_refl). Defined.

Lemma delayed_sorted_delegation_complete_witness :
  exists ds, eval (delayed_sorted_delegation table_3 100) world_3 = Ok ds /\
             ds ≡ₚ delegation_of_db_row <$> filter (fun r => db_block_number r <= 100) table_3.
Proof.
  apply (delayed_sorted_delegation_complete table_3 100 world_3); [|reflexivity].
  unfold i64_max. lia.
Defined.

Lemma delayed_sorted_delegation_wrapped_threshold_witness :
  eval (delayed_sorted_delegation table_3 (2 ^ 64 - 5)) world_3 = Ok [].
Proof.
  apply (delayed_sorted_delegation_wrapped_threshold table_3 (2 ^ 64 - 5) world_3 wf_table_3);
    [|reflexivity].
  unfold u64_max. lia.
Defined.
