(* ===== verification/Classifier.v ===== *)
(** * Classifier: the Block Oracle, the Stability Classifier and the
    Readiness Filter.

    [get_block_hash] asks the host chain for the block at a height;
    [tx_check_ready_delegations] fetches the rows up to the threshold and
    classifies each against the live chain, remembering the status of every
    height it has asked for in [blocks_status] (a [gmap]).  [live_status] is
    the unmemoised reference: the status of a row judged on its own hash. *)

From Stdlib Require Import ZArith Lia List.
From Stdlib.Strings Require Import Byte.
From stdpp Require Import base option list gmap.
From S2P Require Import Prelude Types Mock Store.

#[local] Open Scope Z_scope.
#[local] Open Scope relay_scope.

(** ** Definitions *)

(** The local variables of the loop of [tx_check_ready_delegations]. *)
Record CheckState := mkCheckState {
  blocks_status : gmap Z BlockStatus;
  stable_delegations : list DelegationRow;
  unsure_block : list Z;
  nb_unsure_delegations : nat;
  handled_block_delegation : list bytes;
}.

Definition check_init : CheckState := mkCheckState ∅ [] [] 0 [].

(** [blocks_status.insert(block_number, status)], after [unsure_block.push]
    when the status is [Unkown]. *)
Definition remember_status (n : Z) (status : BlockStatus) (st : CheckState) : CheckState :=
  mkCheckState (<[n := status]> (blocks_status st)) (stable_delegations st)
    (match status with Unkown => unsure_block st ++ [n] | _ => unsure_block st end)
    (nb_unsure_delegations st) (handled_block_delegation st).

(** The [match block_status] of the loop body. *)
Definition apply_status (status : BlockStatus) (delegation : DelegationRow)
    (st : CheckState) : CheckState :=
  match status with
  | Stable =>
      mkCheckState (blocks_status st) (stable_delegations st ++ [delegation])
        (unsure_block st) (nb_unsure_delegations st)
        (handled_block_delegation st ++ [block_hash delegation])
  | Unkown =>
      mkCheckState (blocks_status st) (stable_delegations st) (unsure_block st)
        (S (nb_unsure_delegations st)) (handled_block_delegation st)
  | Dismissed =>
      mkCheckState (blocks_status st) (stable_delegations st) (unsure_block st)
        (nb_unsure_delegations st)
        (handled_block_delegation st ++ [block_hash delegation])
  end.

(** The status of a row against the answer of the host chain for its height. *)
Definition status_of_answer (delegation : DelegationRow)
    (answer : Result (option Block) RpcError) : BlockStatus :=
  match answer with
  | Ok (Some block) =>
      if decide (block_hash delegation = header_hash block) then Stable else Dismissed
  | Ok None | Err _ => Unkown
  end.

Section classifier.
Context `{Provider P}.

(** The reference: the row judged on its own recorded hash. *)
Definition live_status (host : P) (delegation : DelegationRow) : BlockStatus :=
  status_of_answer delegation (get_block_by_number host (block_number delegation)).

(** [async fn get_block_hash]. *)
Definition get_block_hash (block_number : Z) : M (World P) (Res BlockHash) :=
  emit (EvHostGetBlock block_number) ;;
  host <- gets w_host_chain_provider ;;
  match get_block_by_number host block_number with
  | Err e => ret (Err (ErrRpc e))
  | Ok None =>
      log (LogPastBlockNotFound block_number) ;;
      ret (Err (ErrMsg CannotGetPastBlock))
  | Ok (Some block) => ret (Ok (header_hash block))
  end.

(** The [let block_status = if let Some(status) = blocks_status.get(..) {..}
    else {..}] of the loop body: the remembered status of the height, or a
    fresh one from the chain, which is then remembered. *)
Definition block_status_for (st : CheckState) (delegation : DelegationRow)
    : M (World P) (BlockStatus * CheckState) :=
  match blocks_status st !! block_number delegation with
  | Some status => ret (status, st)
  | None =>
      r <- get_block_hash (block_number delegation) ;;
      status <-
        match r with
        | Ok hash =>
            ret (if decide (block_hash delegation = hash) then Stable else Dismissed)
        | Err _ =>
            log (LogCannotGetBlockHash (block_number delegation)) ;;
            ret Unkown
        end ;;
      ret (status, remember_status (block_number delegation) status st)
  end.

(** One iteration of [for delegation in delegations]. *)
Definition check_delegation (st : CheckState) (delegation : DelegationRow)
    : M (World P) CheckState :=
  r <- block_status_for st delegation ;;
  ret (apply_status (fst r) delegation (snd r)).

(** The body of [tx_check_ready_delegations] after the fetch.  The count of
    dismissed rows is a difference of [usize] values: an underflow would
    panic. *)
Definition check_fetched (delegations : list DelegationRow)
    : M (World P) (Res (list DelegationRow * list bytes)) :=
  let nb_ready_delegations := length delegations in
  match delegations with
  | [] => ret (Ok ([], []))
  | _ :: _ =>
      log (LogCheckingReady nb_ready_delegations) ;;
      st <- foldM check_delegation delegations check_init ;;
      let nb_stable_delegations := length (stable_delegations st) in
      match usize_sub nb_ready_delegations nb_stable_delegations
              ≫= (fun n => usize_sub n (nb_unsure_delegations st)) with
      | None => ret (Err (ErrPanic SubtractWithOverflow))
      | Some nb_dismissed_delegations =>
          (if decide (0 < nb_dismissed_delegations)%nat
           then log (LogDismissed nb_dismissed_delegations) else ret tt) ;;
          (if decide (0 < nb_unsure_delegations st)%nat
           then log (LogUnsure (nb_unsure_delegations st)) else ret tt) ;;
          log (LogProcessingReady nb_stable_delegations) ;;
          ret (Ok (stable_delegations st, handled_block_delegation st))
      end
  end.

(** [pub async fn tx_check_ready_delegations]. *)
Definition tx_check_ready_delegations (tx : DbTransaction) (last_ready_block : Z)
    : M (World P) (Res (list DelegationRow * list bytes)) :=
  delegations <-? delayed_sorted_delegation tx last_ready_block ;;
  check_fetched delegations.

(** ** What the loop computes, stated on the list of fetched rows *)

(** The first row of [ds] at height [n]. *)
Fixpoint first_at (ds : list DelegationRow) (n : Z) : option DelegationRow :=
  match ds with
  | [] => None
  | d :: ds' => if decide (block_number d = n) then Some d else first_at ds' n
  end.

(** The status the memo table holds for height [n] after the rows [ds]: that
    of the first row at this height. *)
Definition first_status (host : P) (ds : list DelegationRow) (n : Z) : option BlockStatus :=
  live_status host <$> first_at ds n.

(** The status the loop gives a row of [ds]. *)
Definition memo_status (host : P) (ds : list DelegationRow) (d : DelegationRow) : BlockStatus :=
  default Unkown (first_status host ds (block_number d)).

(** The rows that are the first at their height, in order: one host call each. *)
Fixpoint first_rows (seen : list Z) (ds : list DelegationRow) : list DelegationRow :=
  match ds with
  | [] => []
  | d :: ds' =>
      if decide (block_number d ∈ seen) then first_rows seen ds'
      else d :: first_rows (block_number d :: seen) ds'
  end.

(** The events of one call of [get_block_hash] and of the classification
    that follows it. *)
Definition lookup_events (host : P) (n : Z) : list Event :=
  EvHostGetBlock n ::
  match get_block_by_number host n with
  | Ok (Some _) => []
  | Ok None => [EvLog (LogPastBlockNotFound n); EvLog (LogCannotGetBlockHash n)]
  | Err _ => [EvLog (LogCannotGetBlockHash n)]
  end.

(** The events of the whole loop: one lookup per row that is first at its height. *)
Definition loop_events (host : P) (ds : list DelegationRow) : list Event :=
  first_rows [] ds ≫= (fun d => lookup_events host (block_number d)).

(** The status one iteration works with: the remembered one, or the fresh one. *)
Definition step_status (host : P) (st : CheckState) (d : DelegationRow) : BlockStatus :=
  default (live_status host d) (blocks_status st !! block_number d).

(** One iteration as a function of the loop state. *)
Definition check_step (host : P) (st : CheckState) (d : DelegationRow) : CheckState :=
  match blocks_status st !! block_number d with
  | Some status => apply_status status d st
  | None =>
      apply_status (live_status host d) d
        (remember_status (block_number d) (live_status host d) st)
  end.

Definition step_events (host : P) (st : CheckState) (d : DelegationRow) : list Event :=
  match blocks_status st !! block_number d with
  | Some _ => []
  | None => lookup_events host (block_number d)
  end.

(** The three classes of the fetched rows, and what the function returns. *)
Definition stable_rows (host : P) (ds : list DelegationRow) : list DelegationRow :=
  filter (fun d => memo_status host ds d = Stable) ds.

Definition dismissed_rows (host : P) (ds : list DelegationRow) : list DelegationRow :=
  filter (fun d => memo_status host ds d = Dismissed) ds.

Definition unsure_rows (host : P) (ds : list DelegationRow) : list DelegationRow :=
  filter (fun d => memo_status host ds d = Unkown) ds.

Definition handled_hashes (host : P) (ds : list DelegationRow) : list bytes :=
  block_hash <$> filter (fun d => memo_status host ds d <> Unkown) ds.

(** The events of [tx_check_ready_delegations] after the fetch. *)
Definition check_events (host : P) (ds : list DelegationRow) : list Event :=
  match ds with
  | [] => []
  | _ :: _ =>
      EvLog (LogCheckingReady (length ds)) :: loop_events host ds ++
      (if decide (0 < length (dismissed_rows host ds))%nat
       then [EvLog (LogDismissed (length (dismissed_rows host ds)))] else []) ++
      (if decide (0 < length (unsure_rows host ds))%nat
       then [EvLog (LogUnsure (length (unsure_rows host ds)))] else []) ++
      [EvLog (LogProcessingReady (length (stable_rows host ds)))]
  end.

(** The heights the host chain was asked for, in order. *)
Definition host_calls (evs : list Event) : list Z :=
  omap (fun e => match e with EvHostGetBlock n => Some n | _ => None end) evs.

(** A height determines the recorded hash: rows of one height carry one hash. *)
Definition height_determines_hash (ds : list DelegationRow) : Prop :=
  forall d1 d2, d1 ∈ ds -> d2 ∈ ds ->
    block_number d1 = block_number d2 -> block_hash d1 = block_hash d2.

(** A recorded hash determines the height. *)
Definition hash_determines_height (ds : list DelegationRow) : Prop :=
  forall d1 d2, d1 ∈ ds -> d2 ∈ ds ->
    block_hash d1 = block_hash d2 -> block_number d1 = block_number d2.

End classifier.

(** ** The first row at a height *)

Section first_at.
Implicit Types (ds : list DelegationRow) (d : DelegationRow) (n : Z).

Lemma first_at_app ds1 ds2 n :
  first_at (ds1 ++ ds2) n =
  match first_at ds1 n with Some d => Some d | None => first_at ds2 n end.
Proof. induction ds1 as [|d ds1 IH]; simpl; [done|]. by case_decide. Qed.

Lemma first_at_Some ds n d : first_at ds n = Some d -> d ∈ ds /\ block_number d = n.
Proof.
  induction ds as [|d' ds IH]; simpl; [done|]. case_decide.
  - intros [= ->]. split; [left|done].
  - intros [? ?]%IH. split; [by right|done].
Qed.

Lemma first_at_None ds n : first_at ds n = None <-> forall d, d ∈ ds -> block_number d <> n.
Proof.
  induction ds as [|d' ds IH]; simpl.
  - split; [|done]. by intros _ d ?%elem_of_nil.
  - case_decide as Hn.
    + split; [done|]. intros Hall. by destruct (Hall d' (list_elem_of_here _ _)).
    + rewrite IH. split.
      * intros Hall d [->|?]%elem_of_cons; auto.
      * intros Hall d ?. apply Hall. by right.
Qed.

Lemma first_at_elem ds d : d ∈ ds -> is_Some (first_at ds (block_number d)).
Proof.
  intros Hd. destruct (first_at ds (block_number d)) eqn:E; [by eexists|].
  by destruct (proj1 (first_at_None _ _) E d Hd).
Qed.

(** When one height carries one hash, the first row at the height of [d]
    has the hash of [d]. *)
Lemma first_at_same_hash ds d d0 :
  height_determines_hash ds -> d ∈ ds -> first_at ds (block_number d) = Some d0 ->
  block_hash d0 = block_hash d /\ block_number d0 = block_number d.
Proof.
  intros Hdet Hd [Hd0 Hn]%first_at_Some. split; [|done]. by apply Hdet.
Qed.

End first_at.

(** ** One iteration *)

Section iteration.
Context `{Provider P}.
Implicit Types (w : World P) (st : CheckState) (d : DelegationRow) (n : Z).

Lemma get_block_hash_run n w :
  get_block_hash n w =
  (match get_block_by_number (w_host_chain_provider w) n with
   | Ok (Some block) => Ok (header_hash block)
   | Ok None => Err (ErrMsg CannotGetPastBlock)
   | Err e => Err (ErrRpc e)
   end,
   add_events
     (EvHostGetBlock n ::
      match get_block_by_number (w_host_chain_provider w) n with
      | Ok None => [EvLog (LogPastBlockNotFound n)]
      | _ => []
      end) w).
Proof.
  unfold get_block_hash. trace_simpl.
  destruct (get_block_by_number _ _) as [[b|]|e]; trace_simpl; reflexivity.
Qed.

Lemma block_status_for_run st d w :
  block_status_for st d w =
  (match blocks_status st !! block_number d with
   | Some status => (status, st)
   | None =>
       let status := live_status (w_host_chain_provider w) d in
       (status, remember_status (block_number d) status st)
   end,
   add_events (step_events (w_host_chain_provider w) st d) w).
Proof.
  unfold block_status_for, step_events, live_status, lookup_events.
  destruct (blocks_status st !! block_number d) as [s|]; simpl.
  { by rewrite add_events_nil. }
  rewrite run_bind. unfold eval, exec. rewrite get_block_hash_run. simpl.
  destruct (get_block_by_number _ _) as [[b|]|e]; trace_simpl; reflexivity.
Qed.

Lemma check_delegation_run st d w :
  check_delegation st d w =
  (check_step (w_host_chain_provider w) st d,
   add_events (step_events (w_host_chain_provider w) st d) w).
Proof.
  unfold check_delegation. rewrite run_bind. unfold eval, exec.
  rewrite block_status_for_run. unfold check_step. simpl.
  by destruct (blocks_status st !! block_number d).
Qed.

(** The loop state after one iteration, field by field. *)
Lemma check_step_memo host st d n :
  blocks_status (check_step host st d) !! n =
  match blocks_status st !! n with
  | Some s => Some s
  | None => if decide (block_number d = n) then Some (step_status host st d) else None
  end.
Proof.
  unfold check_step, step_status.
  destruct (blocks_status st !! block_number d) as [s|] eqn:E.
  - destruct s; simpl; destruct (blocks_status st !! n) eqn:En; try done;
      case_decide; congruence.
  - assert (forall s st', blocks_status (apply_status s d st') = blocks_status st') as ->
      by (by intros []).
    simpl. destruct (decide (block_number d = n)) as [<-|Hne].
    + by rewrite lookup_insert_eq, E.
    + rewrite lookup_insert_ne by done. by destruct (blocks_status st !! n).
Qed.

Lemma check_step_stable host st d :
  stable_delegations (check_step host st d) =
  stable_delegations st ++ (if decide (step_status host st d = Stable) then [d] else []).
Proof.
  unfold check_step, step_status.
  destruct (blocks_status st !! block_number d) as [s|]; simpl;
    [destruct s|destruct (live_status host d)]; simpl; by rewrite ?app_nil_r.
Qed.

Lemma check_step_handled host st d :
  handled_block_delegation (check_step host st d) =
  handled_block_delegation st ++
    (if decide (step_status host st d <> Unkown) then [block_hash d] else []).
Proof.
  unfold check_step, step_status.
  destruct (blocks_status st !! block_number d) as [s|]; simpl;
    [destruct s|destruct (live_status host d)]; simpl; by rewrite ?app_nil_r.
Qed.

Lemma check_step_unsure host st d :
  nb_unsure_delegations (check_step host st d) =
  (nb_unsure_delegations st + (if decide (step_status host st d = Unkown) then 1 else 0))%nat.
Proof.
  unfold check_step, step_status.
  destruct (blocks_status st !! block_number d) as [s|]; simpl;
    [destruct s|destruct (live_status host d)]; simpl; lia.
Qed.

End iteration.

(** ** The loop *)

Section loop.
Context `{Provider P} (host : P).
Implicit Types (st : CheckState) (d : DelegationRow) (n : Z).
Implicit Types (ds done : list DelegationRow).

Lemma first_status_snoc done d n :
  first_status host (done ++ [d]) n =
  match first_status host done n with
  | Some s => Some s
  | None => if decide (block_number d = n) then Some (live_status host d) else None
  end.
Proof.
  unfold first_status. rewrite first_at_app. simpl.
  destruct (first_at done n); simpl; [done|]. by case_decide.
Qed.

Lemma memo_status_app_l ds1 ds2 d :
  d ∈ ds1 -> memo_status host (ds1 ++ ds2) d = memo_status host ds1 d.
Proof.
  intros [d0 Hd0]%first_at_elem. unfold memo_status, first_status.
  by rewrite first_at_app, Hd0.
Qed.

(** A filter on the status of the loop, extended by one row. *)
Lemma filter_memo_snoc (Q : BlockStatus -> Prop) `{!forall s, Decision (Q s)} done d :
  filter (fun x => Q (memo_status host (done ++ [d]) x)) (done ++ [d]) =
  filter (fun x => Q (memo_status host done x)) done ++
    (if decide (Q (memo_status host (done ++ [d]) d)) then [d] else []).
Proof.
  rewrite filter_app. f_equal.
  apply filter_ext_elem. intros x Hx. by rewrite memo_status_app_l.
Qed.

(** The invariant of the loop after the rows [done]. *)
Record check_inv (done : list DelegationRow) (st : CheckState) : Prop := {
  inv_memo : forall n, blocks_status st !! n = first_status host done n;
  inv_stable :
    stable_delegations st = filter (fun d => memo_status host done d = Stable) done;
  inv_handled :
    handled_block_delegation st =
    block_hash <$> filter (fun d => memo_status host done d <> Unkown) done;
  inv_unsure :
    nb_unsure_delegations st =
    length (filter (fun d => memo_status host done d = Unkown) done);
}.

Lemma check_inv_init : check_inv [] check_init.
Proof. by split. Qed.

Lemma check_inv_step_status done st d :
  check_inv done st -> step_status host st d = memo_status host (done ++ [d]) d.
Proof.
  intros Hinv. unfold step_status, memo_status.
  rewrite first_status_snoc, (inv_memo _ _ Hinv), decide_True by done.
  by destruct (first_status host done (block_number d)).
Qed.

Lemma check_inv_step done st d :
  check_inv done st -> check_inv (done ++ [d]) (check_step host st d).
Proof.
  intros Hinv. pose proof (check_inv_step_status done st d Hinv) as Hs.
  split.
  - intros n. rewrite check_step_memo, first_status_snoc, (inv_memo _ _ Hinv).
    destruct (first_status host done n) eqn:E; [done|]. case_decide; [subst n|done].
    unfold step_status. by rewrite (inv_memo _ _ Hinv), E.
  - pose proof (filter_memo_snoc (fun s => s = Stable) done d) as ->%id.
    by rewrite check_step_stable, (inv_stable _ _ Hinv), Hs.
  - pose proof (filter_memo_snoc (fun s => s <> Unkown) done d) as ->%id.
    rewrite check_step_handled, fmap_app, (inv_handled _ _ Hinv), Hs. by case_decide.
  - pose proof (filter_memo_snoc (fun s => s = Unkown) done d) as ->%id.
    rewrite check_step_unsure, length_app, (inv_unsure _ _ Hinv), Hs. by case_decide.
Qed.

Lemma first_rows_snoc seen done d :
  first_rows seen (done ++ [d]) =
  first_rows seen done ++
    (if decide (block_number d ∈ seen \/ is_Some (first_at done (block_number d)))
     then [] else [d]).
Proof.
  revert seen. induction done as [|x done IH]; intros seen; simpl.
  - destruct (decide (block_number d ∈ seen)) as [Hin|Hin].
    + by rewrite decide_True by auto.
    + rewrite decide_False; [done|]. intros [?|[? [=]]]; done.
  - destruct (decide (block_number x ∈ seen)) as [Hx|Hx]; rewrite IH; simpl.
    + f_equal. apply if_decide_iff.
      destruct (decide (block_number x = block_number d)) as [<-|]; naive_solver.
    + f_equal. f_equal. apply if_decide_iff. rewrite elem_of_cons.
      destruct (decide (block_number x = block_number d)) as [<-|]; naive_solver.
Qed.

Lemma loop_events_snoc done st d :
  check_inv done st ->
  loop_events host (done ++ [d]) = loop_events host done ++ step_events host st d.
Proof.
  intros Hinv. unfold loop_events, step_events.
  rewrite first_rows_snoc, bind_app, (inv_memo _ _ Hinv). unfold first_status.
  destruct (first_at done (block_number d)) as [d0|].
  - rewrite decide_True by eauto. done.
  - rewrite decide_False; [simpl; by rewrite app_nil_r|].
    intros [?%elem_of_nil|[? [=]]]; done.
Qed.

(** The loop computes a state that satisfies the invariant for all the rows,
    and adds to the trace one lookup per first row of a height. *)
Lemma check_loop_run ds w :
  w_host_chain_provider w = host ->
  exists st,
    foldM check_delegation ds check_init w = (st, add_events (loop_events host ds) w) /\
    check_inv ds st.
Proof.
  intros Hhost.
  pose proof (hoare_foldM
    (fun done st w' => check_inv done st /\ w' = add_events (loop_events host done) w)
    check_delegation ds check_init) as Hloop.
  destruct (Hloop) with (s := w) as [Hinv Hw].
  - intros done x st w' [Hinv ->]. unfold eval, exec.
    rewrite check_delegation_run. simpl. rewrite Hhost. split.
    + by apply check_inv_step.
    + by rewrite add_events_app, (loop_events_snoc done st).
  - split; [apply check_inv_init|]. by rewrite add_events_nil.
  - exists (eval (foldM check_delegation ds check_init) w). split; [|done].
    rewrite <- Hw. unfold eval, exec. by destruct (foldM _ _ _ _).
Qed.

End loop.

(** ** The readiness filter as a whole *)

Section readiness.
Context `{Provider P}.
Implicit Types (w : World P) (host : P) (d : DelegationRow) (ds : list DelegationRow).

(** The three classes have as many rows as were fetched. *)
Lemma status_classes_length host ds :
  (length (stable_rows host ds) + length (unsure_rows host ds) +
   length (dismissed_rows host ds) = length ds)%nat.
Proof.
  unfold stable_rows, unsure_rows, dismissed_rows.
  generalize (memo_status host ds). intros f.
  induction ds as [|d ds IH]; [done|]. rewrite !filter_cons.
  destruct (f d); simpl; lia.
Qed.

(** The count of dismissed rows is computed without underflow. *)
Lemma nb_dismissed_no_underflow host ds :
  usize_sub (length ds) (length (stable_rows host ds))
    ≫= (fun n => usize_sub n (length (unsure_rows host ds))) =
  Some (length (dismissed_rows host ds)).
Proof.
  pose proof (status_classes_length host ds). unfold usize_sub.
  rewrite decide_True by lia. simpl. rewrite decide_True by lia. f_equal. lia.
Qed.

Lemma check_fetched_run ds w :
  check_fetched ds w =
  (Ok (stable_rows (w_host_chain_provider w) ds, handled_hashes (w_host_chain_provider w) ds),
   add_events (check_events (w_host_chain_provider w) ds) w).
Proof.
  set (host := w_host_chain_provider w).
  unfold check_fetched, check_events. destruct ds as [|d0 ds0].
  { simpl. by rewrite add_events_nil. }
  set (ds := d0 :: ds0). rewrite 2!run_bind. unfold eval, exec.
  destruct (check_loop_run host ds (snd (log (LogCheckingReady (length ds)) w)))
    as (st & Hrun & Hinv); [done|].
  rewrite Hrun. simpl.
  rewrite (inv_stable _ _ _ Hinv), (inv_unsure _ _ _ Hinv).
  fold (stable_rows host ds) (unsure_rows host ds).
  rewrite nb_dismissed_no_underflow, (inv_handled _ _ _ Hinv).
  repeat case_decide; trace_simpl; reflexivity.
Qed.

(** The readiness filter in closed form. *)
Lemma check_ready_run tx b w :
  tx_check_ready_delegations tx b w =
  if w_db_fault w OpFetch
  then (Err (ErrDb OpFetch), add_events [EvDb OpFetch] w)
  else
    let host := w_host_chain_provider w in
    let ds := fetched_rows tx b in
    (Ok (stable_rows host ds, handled_hashes host ds),
     add_events (EvDb OpFetch :: check_events host ds) w).
Proof.
  unfold tx_check_ready_delegations. rewrite run_bind. unfold eval, exec.
  rewrite delayed_sorted_delegation_run. simpl.
  destruct (w_db_fault w OpFetch); [done|].
  rewrite check_fetched_run. simpl. by rewrite add_events_app.
Qed.

Lemma eval_check_ready tx b w :
  eval (tx_check_ready_delegations tx b) w =
  if w_db_fault w OpFetch then Err (ErrDb OpFetch)
  else Ok (stable_rows (w_host_chain_provider w) (fetched_rows tx b),
           handled_hashes (w_host_chain_provider w) (fetched_rows tx b)).
Proof. unfold eval. rewrite check_ready_run. by destruct (w_db_fault w OpFetch). Qed.

Lemma exec_check_ready tx b w :
  exec (tx_check_ready_delegations tx b) w =
  add_events (EvDb OpFetch ::
              if w_db_fault w OpFetch then []
              else check_events (w_host_chain_provider w) (fetched_rows tx b)) w.
Proof. unfold exec. rewrite check_ready_run. by destruct (w_db_fault w OpFetch). Qed.

(** C2. [tx_check_ready_delegations] fails exactly when the fetch fails, and
    otherwise returns the rows whose height was first seen with a recorded
    hash equal to the live one, together with the hashes of all rows whose
    height could be resolved; the trace grows by the fetch, one host lookup
    per distinct height and the counts that are logged. *)
Theorem tx_check_ready_delegations_run tx b w :
  run (tx_check_ready_delegations tx b) w =
  if w_db_fault w OpFetch
  then (Err (ErrDb OpFetch), add_events [EvDb OpFetch] w)
  else
    let host := w_host_chain_provider w in
    let ds := fetched_rows tx b in
    (Ok (stable_rows host ds, handled_hashes host ds),
     add_events (EvDb OpFetch :: check_events host ds) w).
Proof. apply check_ready_run. Qed.

End readiness.

(** ** The memo table against the reference *)

Section reference.
Context `{Provider P}.
Implicit Types (w : World P) (host : P) (d : DelegationRow) (ds : list DelegationRow).

(** The status of a row depends on its height and its recorded hash only. *)
Lemma live_status_ext host d1 d2 :
  block_number d1 = block_number d2 -> block_hash d1 = block_hash d2 ->
  live_status host d1 = live_status host d2.
Proof. unfold live_status, status_of_answer. by intros -> ->. Qed.

Lemma memo_status_first host ds d :
  d ∈ ds ->
  exists d0, d0 ∈ ds /\ block_number d0 = block_number d /\
             memo_status host ds d = live_status host d0.
Proof.
  intros [d0 Hd0]%first_at_elem. exists d0.
  destruct (first_at_Some _ _ _ Hd0) as [? ?]. split_and!; [done..|].
  unfold memo_status, first_status. by rewrite Hd0.
Qed.

(** The memo table gives a row the status of the first fetched row at its
    height. *)
Lemma memo_status_first_at host ds d d0 :
  first_at ds (block_number d) = Some d0 -> memo_status host ds d = live_status host d0.
Proof. unfold memo_status, first_status. by intros ->. Qed.

(** A row whose height holds no other recorded hash is judged on its own. *)
Lemma memo_status_same_hash host ds d :
  d ∈ ds ->
  (forall d', d' ∈ ds -> block_number d' = block_number d -> block_hash d' = block_hash d) ->
  memo_status host ds d = live_status host d.
Proof.
  intros Hd Hsame. destruct (memo_status_first host ds d Hd) as (d0 & Hd0 & Hn & ->).
  apply live_status_ext; [done|]. by apply Hsame.
Qed.

Lemma memo_status_live host ds d :
  height_determines_hash ds -> d ∈ ds -> memo_status host ds d = live_status host d.
Proof. intros Hdet Hd. apply memo_status_same_hash; [done|]. intros d' ? ?. by apply Hdet. Qed.

(** The status of a row whose height the host chain resolves. *)
Lemma live_status_resolved host d block :
  get_block_by_number host (block_number d) = Ok (Some block) ->
  live_status host d = if decide (block_hash d = header_hash block) then Stable else Dismissed.
Proof. unfold live_status. by intros ->. Qed.

Lemma live_status_unresolved host d :
  (forall block, get_block_by_number host (block_number d) <> Ok (Some block)) ->
  live_status host d = Unkown.
Proof.
  intros Hblock. unfold live_status.
  destruct (get_block_by_number _ _) as [[block|]|]; try done. by destruct (Hblock block).
Qed.

Lemma stable_rows_live host ds :
  height_determines_hash ds ->
  stable_rows host ds = filter (fun d => live_status host d = Stable) ds.
Proof.
  intros Hdet. apply filter_ext_elem. intros d Hd. by rewrite memo_status_live.
Qed.

Lemma handled_hashes_live host ds :
  height_determines_hash ds ->
  handled_hashes host ds = block_hash <$> filter (fun d => live_status host d <> Unkown) ds.
Proof.
  intros Hdet. unfold handled_hashes. f_equal.
  apply filter_ext_elem. intros d Hd. by rewrite memo_status_live.
Qed.

(** Whether a status is [Unkown] depends on the height alone, so the memo
    table never changes it. *)
Lemma live_status_unknown_height host d1 d2 :
  block_number d1 = block_number d2 ->
  live_status host d1 = Unkown -> live_status host d2 = Unkown.
Proof.
  unfold live_status, status_of_answer. intros ->.
  destruct (get_block_by_number _ _) as [[block|]|]; [|done..].
  by repeat case_decide.
Qed.

Lemma memo_status_unknown host ds d :
  d ∈ ds -> memo_status host ds d = Unkown <-> live_status host d = Unkown.
Proof.
  intros Hd. destruct (memo_status_first host ds d Hd) as (d0 & _ & Hn & ->).
  split; by apply live_status_unknown_height.
Qed.

Lemma elem_of_stable_rows host ds d :
  d ∈ stable_rows host ds <-> d ∈ ds /\ memo_status host ds d = Stable.
Proof. unfold stable_rows. rewrite list_elem_of_filter. tauto. Qed.

Lemma elem_of_handled_hashes host ds h :
  h ∈ handled_hashes host ds <->
  exists d, d ∈ ds /\ block_hash d = h /\ memo_status host ds d <> Unkown.
Proof.
  unfold handled_hashes. rewrite list_elem_of_fmap. setoid_rewrite list_elem_of_filter.
  naive_solver.
Qed.

Lemma stable_rows_sublist host ds : stable_rows host ds `sublist_of` ds.
Proof. apply sublist_filter. Qed.

Lemma stable_rows_handled host ds d :
  d ∈ stable_rows host ds -> block_hash d ∈ handled_hashes host ds.
Proof.
  intros [Hd Hs]%elem_of_stable_rows. apply elem_of_handled_hashes.
  exists d. split_and!; [done..|]. by rewrite Hs.
Qed.

End reference.

(** ** The calls to the host chain *)

Section host_calls.
Context `{Provider P}.
Implicit Types (host : P) (d : DelegationRow) (ds : list DelegationRow) (seen : list Z).

Lemma host_calls_app evs1 evs2 : host_calls (evs1 ++ evs2) = host_calls evs1 ++ host_calls evs2.
Proof. apply omap_app. Qed.

Lemma host_calls_lookup_events host n : host_calls (lookup_events host n) = [n].
Proof. unfold lookup_events. by destruct (get_block_by_number host n) as [[?|]|]. Qed.

Lemma host_calls_bind_lookups host ds :
  host_calls (ds ≫= (fun d => lookup_events host (block_number d))) = block_number <$> ds.
Proof.
  induction ds as [|d ds IH]; [done|].
  rewrite bind_cons, host_calls_app, host_calls_lookup_events, IH. done.
Qed.

Lemma host_calls_check_events host ds :
  host_calls (check_events host ds) = block_number <$> first_rows [] ds.
Proof.
  unfold check_events. destruct ds as [|d0 ds0]; [done|].
  set (ds := d0 :: ds0). change (host_calls (?e :: ?l)) with (host_calls l).
  rewrite !host_calls_app. unfold loop_events. rewrite host_calls_bind_lookups.
  repeat case_decide; simpl; by rewrite app_nil_r.
Qed.

Lemma elem_of_first_rows seen ds n :
  n ∈ block_number <$> first_rows seen ds <->
  n ∉ seen /\ exists d, d ∈ ds /\ block_number d = n.
Proof.
  revert seen. induction ds as [|d ds IH]; intros seen; simpl.
  - rewrite elem_of_nil. split; [done|]. by intros (_ & d & ?%elem_of_nil & _).
  - case_decide as Hseen.
    + rewrite IH. split.
      * intros (? & d' & ? & ?). split; [done|]. exists d'. split; [by right|done].
      * intros (Hn & d' & [->|?]%elem_of_cons & <-); [done|]. eauto.
    + rewrite fmap_cons, elem_of_cons, IH, not_elem_of_cons. split.
      * intros [->|((? & ?) & d' & ? & ?)].
        -- split; [done|]. exists d. split; [by left|done].
        -- split; [done|]. exists d'. split; [by right|done].
      * intros (Hn & d' & [->|?]%elem_of_cons & <-); [by left|].
        destruct (decide (block_number d' = block_number d)); [by left|].
        right. eauto.
Qed.

Lemma NoDup_first_rows seen ds : NoDup (block_number <$> first_rows seen ds).
Proof.
  revert seen. induction ds as [|d ds IH]; intros seen; simpl; [constructor|].
  case_decide; [apply IH|]. rewrite fmap_cons. constructor; [|apply IH].
  rewrite elem_of_first_rows. intros [Hn _]. apply Hn. by left.
Qed.

End host_calls.

(** ** Properties of the readiness filter *)

Lemma height_determines_hash_Forall ds :
  height_determines_hash ds <->
  Forall (fun d1 => Forall (fun d2 =>
    block_number d1 = block_number d2 -> block_hash d1 = block_hash d2) ds) ds.
Proof.
  unfold height_determines_hash. rewrite Forall_forall.
  setoid_rewrite Forall_forall. naive_solver.
Qed.

Lemma hash_determines_height_Forall ds :
  hash_determines_height ds <->
  Forall (fun d1 => Forall (fun d2 =>
    block_hash d1 = block_hash d2 -> block_number d1 = block_number d2) ds) ds.
Proof.
  unfold hash_determines_height. rewrite Forall_forall.
  setoid_rewrite Forall_forall. naive_solver.
Qed.

#[export] Instance height_determines_hash_dec ds : Decision (height_determines_hash ds).
Proof.
  refine (cast_if (decide (Forall (fun d1 => Forall (fun d2 =>
    block_number d1 = block_number d2 -> block_hash d1 = block_hash d2) ds) ds)));
    by rewrite height_determines_hash_Forall.
Defined.

#[export] Instance hash_determines_height_dec ds : Decision (hash_determines_height ds).
Proof.
  refine (cast_if (decide (Forall (fun d1 => Forall (fun d2 =>
    block_hash d1 = block_hash d2 -> block_number d1 = block_number d2) ds) ds)));
    by rewrite hash_determines_height_Forall.
Defined.

Section classifier_properties.
Context `{Provider P}.
Implicit Types (w : World P) (d : DelegationRow) (tx : DbTransaction).

(** C29. The readiness filter fails only when the fetch fails: a failed
    lookup on the host chain is not an error of the filter, and the count of
    dismissed rows, a difference of three [usize] counts, never underflows
    (the stable and the unsure rows together are at most the fetched rows). *)
Theorem tx_check_ready_delegations_fails_only_on_fetch tx b w e :
  eval (tx_check_ready_delegations tx b) w = Err e ->
  e = ErrDb OpFetch /\ w_db_fault w OpFetch = true.
Proof.
  rewrite eval_check_ready. destruct (w_db_fault w OpFetch); [|done]. by intros [= <-].
Qed.

(** C40. The submission candidates are a subsequence of the fetched rows, so
    they keep the order of the store, and the hash of every candidate is
    among the hashes to delete. *)
Theorem tx_check_ready_delegations_order tx b w :
  w_db_fault w OpFetch = false ->
  exists stable handled,
    eval (tx_check_ready_delegations tx b) w = Ok (stable, handled) /\
    stable `sublist_of` fetched_rows tx b /\
    (forall d, d ∈ stable -> block_hash d ∈ handled).
Proof.
  intros Hfault. eexists _, _. split_and!.
  - unfold eval. by rewrite check_ready_run, Hfault.
  - apply stable_rows_sublist.
  - apply stable_rows_handled.
Qed.

(** The filter without its memo table, when a height determines the hash. *)
Lemma check_ready_reference tx b w :
  w_db_fault w OpFetch = false -> height_determines_hash (fetched_rows tx b) ->
  eval (tx_check_ready_delegations tx b) w =
  Ok (filter (fun d => live_status (w_host_chain_provider w) d = Stable) (fetched_rows tx b),
      block_hash <$>
        filter (fun d => live_status (w_host_chain_provider w) d <> Unkown) (fetched_rows tx b)).
Proof.
  intros Hfault Hdet. rewrite eval_check_ready, Hfault.
  by rewrite stable_rows_live, handled_hashes_live.
Qed.

(** C9. When the fetched rows of one height all carry one block hash, the
    memo table is invisible: the filter returns the rows that are Stable on
    their own hash and the hashes of the rows whose lookup succeeded. *)
Theorem tx_check_ready_delegations_reference tx b w :
  w_db_fault w OpFetch = false -> height_determines_hash (fetched_rows tx b) ->
  eval (tx_check_ready_delegations tx b) w =
  Ok (filter (fun d => live_status (w_host_chain_provider w) d = Stable) (fetched_rows tx b),
      block_hash <$>
        filter (fun d => live_status (w_host_chain_provider w) d <> Unkown) (fetched_rows tx b)).
Proof. apply check_ready_reference. Qed.

(** C10. A fetched row whose recorded hash equals the hash of the live block
    at its height is a submission candidate and its hash is marked for
    deletion, provided every fetched row at its height records the same
    hash.  (Without that condition the memo table decides, see
    [memo_dismisses_row_of_live_block].) *)
Theorem stable_when_live_hash_matches tx b w d block :
  w_db_fault w OpFetch = false ->
  d ∈ fetched_rows tx b ->
  (forall d', d' ∈ fetched_rows tx b ->
     block_number d' = block_number d -> block_hash d' = block_hash d) ->
  get_block_by_number (w_host_chain_provider w) (block_number d) = Ok (Some block) ->
  header_hash block = block_hash d ->
  exists stable handled,
    eval (tx_check_ready_delegations tx b) w = Ok (stable, handled) /\
    d ∈ stable /\ block_hash d ∈ handled.
Proof.
  intros Hfault Hd Hsame Hblock Hhash. rewrite eval_check_ready, Hfault.
  eexists _, _. split; [done|].
  assert (memo_status (w_host_chain_provider w) (fetched_rows tx b) d = Stable) as Hs.
  { by rewrite memo_status_same_hash, (live_status_resolved _ _ block), decide_True. }
  split; [by apply elem_of_stable_rows|].
  apply elem_of_handled_hashes. exists d. by rewrite Hs.
Qed.

(** C11. A fetched row whose recorded hash differs from the hash of the live
    block at its height is not submitted and its hash is marked for
    deletion, provided every fetched row at its height records the same
    hash.  (Without that condition the memo table decides, see
    [memo_submits_row_of_reorged_block].) *)
Theorem dismissed_when_live_hash_differs tx b w d block :
  w_db_fault w OpFetch = false ->
  d ∈ fetched_rows tx b ->
  (forall d', d' ∈ fetched_rows tx b ->
     block_number d' = block_number d -> block_hash d' = block_hash d) ->
  get_block_by_number (w_host_chain_provider w) (block_number d) = Ok (Some block) ->
  header_hash block <> block_hash d ->
  exists stable handled,
    eval (tx_check_ready_delegations tx b) w = Ok (stable, handled) /\
    d ∉ stable /\ block_hash d ∈ handled.
Proof.
  intros Hfault Hd Hsame Hblock Hhash. rewrite eval_check_ready, Hfault.
  eexists _, _. split; [done|].
  assert (memo_status (w_host_chain_provider w) (fetched_rows tx b) d = Dismissed) as Hs.
  { by rewrite memo_status_same_hash, (live_status_resolved _ _ block), decide_False. }
  split; [rewrite elem_of_stable_rows, Hs; by intros [_ ?]|].
  apply elem_of_handled_hashes. exists d. by rewrite Hs.
Qed.

(** C12. A fetched row whose height cannot be resolved (the lookup fails or
    finds no block) is not submitted, and its hash is not marked for
    deletion provided every fetched row that records its hash is at its
    height.  (The DELETE selects by hash alone: a row of another, resolved
    height with the same recorded hash would mark it.) *)
Theorem unknown_when_lookup_fails tx b w d :
  w_db_fault w OpFetch = false ->
  d ∈ fetched_rows tx b ->
  (forall d', d' ∈ fetched_rows tx b ->
     block_hash d' = block_hash d -> block_number d' = block_number d) ->
  (forall block,
     get_block_by_number (w_host_chain_provider w) (block_number d) <> Ok (Some block)) ->
  exists stable handled,
    eval (tx_check_ready_delegations tx b) w = Ok (stable, handled) /\
    d ∉ stable /\ block_hash d ∉ handled.
Proof.
  intros Hfault Hd Hsame Hblock. rewrite eval_check_ready, Hfault.
  eexists _, _. split; [done|].
  pose proof (live_status_unresolved _ _ Hblock) as Hs. split.
  - rewrite elem_of_stable_rows. intros [_ Hm].
    apply (memo_status_unknown _ _ _ Hd) in Hs. congruence.
  - rewrite elem_of_handled_hashes. intros (d' & Hd' & Hh & Hm). apply Hm.
    apply memo_status_unknown; [done|].
    apply (live_status_unknown_height _ d); [symmetry; by apply Hsame|done].
Qed.

(** C19. The memo table is keyed by height alone.  A fetched row that records
    the hash of the live block at its height, and so is Stable on its own
    hash, is dismissed whenever the first fetched row at its height records
    another hash: it is not submitted and its hash is marked for deletion. *)
Theorem memo_dismisses_row_of_live_block tx b w d0 d block :
  w_db_fault w OpFetch = false ->
  d ∈ fetched_rows tx b ->
  first_at (fetched_rows tx b) (block_number d) = Some d0 ->
  get_block_by_number (w_host_chain_provider w) (block_number d) = Ok (Some block) ->
  header_hash block = block_hash d ->
  block_hash d0 <> block_hash d ->
  live_status (w_host_chain_provider w) d = Stable /\
  exists stable handled,
    eval (tx_check_ready_delegations tx b) w = Ok (stable, handled) /\
    d ∉ stable /\ block_hash d ∈ handled.
Proof.
  intros Hfault Hd Hfirst Hblock Hhash Hother.
  destruct (first_at_Some _ _ _ Hfirst) as [_ Hn]. rewrite <- Hn in Hblock.
  pose proof (memo_status_first_at (w_host_chain_provider w) _ _ _ Hfirst) as Hs.
  rewrite (live_status_resolved _ _ block), decide_False in Hs by congruence.
  rewrite Hn in Hblock. split; [by rewrite (live_status_resolved _ _ block), decide_True|].
  rewrite eval_check_ready, Hfault. eexists _, _. split; [done|].
  split; [rewrite elem_of_stable_rows, Hs; by intros [_ ?]|].
  apply elem_of_handled_hashes. exists d. by rewrite Hs.
Qed.

(** C20. Conversely, a fetched row that records a hash other than the hash of
    the live block at its height, and so is Dismissed on its own hash, is a
    submission candidate whenever the first fetched row at its height
    records the live hash. *)
Theorem memo_submits_row_of_reorged_block tx b w d0 d block :
  w_db_fault w OpFetch = false ->
  d ∈ fetched_rows tx b ->
  first_at (fetched_rows tx b) (block_number d) = Some d0 ->
  get_block_by_number (w_host_chain_provider w) (block_number d) = Ok (Some block) ->
  header_hash block = block_hash d0 ->
  block_hash d <> block_hash d0 ->
  live_status (w_host_chain_provider w) d = Dismissed /\
  exists stable handled,
    eval (tx_check_ready_delegations tx b) w = Ok (stable, handled) /\
    d ∈ stable.
Proof.
  intros Hfault Hd Hfirst Hblock Hhash Hother.
  destruct (first_at_Some _ _ _ Hfirst) as [_ Hn]. rewrite <- Hn in Hblock.
  pose proof (memo_status_first_at (w_host_chain_provider w) _ _ _ Hfirst) as Hs.
  rewrite (live_status_resolved _ _ block), decide_True in Hs by done.
  rewrite Hn in Hblock. split; [by rewrite (live_status_resolved _ _ block), decide_False by congruence|].
  rewrite eval_check_ready, Hfault. eexists _, _. split; [done|]. by apply elem_of_stable_rows.
Qed.

(** C28. In one run of the readiness filter the host chain is asked for a
    block at most once per height, and it is asked for exactly the heights
    of the fetched rows. *)
Theorem host_asked_once_per_height tx b w :
  w_db_fault w OpFetch = false ->
  let calls := host_calls (drop (length (w_trace w))
                             (w_trace (exec (tx_check_ready_delegations tx b) w))) in
  NoDup calls /\
  forall n, n ∈ calls <-> exists d, d ∈ fetched_rows tx b /\ block_number d = n.
Proof.
  intros Hfault. unfold exec. rewrite check_ready_run, Hfault. simpl.
  rewrite drop_app_length. change (host_calls (?e :: ?l)) with (host_calls l).
  rewrite host_calls_check_events. split; [apply NoDup_first_rows|].
  intros n. rewrite elem_of_first_rows. split; [by intros [_ ?]|].
  intros ?. split; [apply not_elem_of_nil|done].
Qed.

Lemma framed_tx_check_ready_delegations tx b : framed (tx_check_ready_delegations tx b).
Proof.
  intros w. unfold exec. rewrite check_ready_run.
  destruct (w_db_fault w OpFetch); apply frame_add_events.
Qed.

Lemma quiet_tx_check_ready_delegations tx b : quiet (tx_check_ready_delegations tx b).
Proof. intros w. rewrite exec_check_ready. apply quiet_add_events. Qed.

End classifier_properties.

#[export] Hint Resolve @framed_tx_check_ready_delegations @quiet_tx_check_ready_delegations
  : relay.

(** ** Checks at concrete inputs *)

(** Height 100 holds two rows: the first records the hash of a block that was
    reorganised away, the second the hash of the live block. *)
Definition table_reorg_first : list DbRow :=
  [sample_row 100 hash_H' 1; sample_row 100 hash_H 2].

(** The same two rows with the counters exchanged: the row of the live block
    comes first. *)
Definition table_live_first : list DbRow :=
  [sample_row 100 hash_H 1; sample_row 100 hash_H' 2].

Definition world_of_table (table : list DbRow) : World MockProvider :=
  sample_world chain_100 gateway_ok table (oracle_of RecvTimeout []).

(** The world of [table_3] with a store that fails the fetch. *)
Definition world_fetch_fault : World MockProvider :=
  sample_world chain_100 gateway_ok table_3
    (mkPassOracle (fun op => bool_decide (op = OpFetch)) RecvTimeout []).

Lemma tx_check_ready_delegations_fails_only_on_fetch_witness :
  ErrDb OpFetch = ErrDb OpFetch /\ w_db_fault world_fetch_fault OpFetch = true.
Proof.
  apply (tx_check_ready_delegations_fails_only_on_fetch table_3 101 world_fetch_fault).
  reflexivity.
Defined.

Lemma tx_check_ready_delegations_order_witness :
  exists stable handled,
    eval (tx_check_ready_delegations table_3 101) world_3 = Ok (stable, handled) /\
    stable `sublist_of` fetched_rows table_3 101 /\
    (forall d, d ∈ stable -> block_hash d ∈ handled).
Proof. apply (tx_check_ready_delegations_order table_3 101 world_3 eq_refl). Defined.

Lemma tx_check_ready_delegations_reference_witness :
  eval (tx_check_ready_delegations table_3 101) world_3 =
  Ok (filter (fun d => live_status chain_100 d = Stable) (fetched_rows table_3 101),
      block_hash <$>
        filter (fun d => live_status chain_100 d <> Unkown) (fetched_rows table_3 101)).
Proof.
  apply (tx_check_ready_delegations_reference table_3 101 world_3 eq_refl). by_compute.
Defined.

Lemma stable_when_live_hash_matches_witness :
  exists stable handled,
    eval (tx_check_ready_delegations table_3 101) world_3 = Ok (stable, handled) /\
    delegation_of_db_row (sample_row 100 hash_H 1) ∈ stable /\
    hash_H ∈ handled.
Proof.
  apply (stable_when_live_hash_matches table_3 101 world_3
           (delegation_of_db_row (sample_row 100 hash_H 1)) (mkBlock hash_H) eq_refl);
    [by_compute| |reflexivity|reflexivity].
  apply (Forall_forall (fun d' => _ -> _)). by_compute.
Defined.

Lemma dismissed_when_live_hash_differs_witness :
  exists stable handled,
    eval (tx_check_ready_delegations [sample_row 100 hash_H' 1] 100)
      (world_of_table [sample_row 100 hash_H' 1]) = Ok (stable, handled) /\
    delegation_of_db_row (sample_row 100 hash_H' 1) ∉ stable /\
    hash_H' ∈ handled.
Proof.
  apply (dismissed_when_live_hash_differs [sample_row 100 hash_H' 1] 100
           (world_of_table [sample_row 100 hash_H' 1])
           (delegation_of_db_row (sample_row 100 hash_H' 1)) (mkBlock hash_H) eq_refl);
    [by_compute| |reflexivity|by vm_compute].
  apply (Forall_forall (fun d' => _ -> _)). by_compute.
Defined.

Lemma unknown_when_lookup_fails_witness :
  exists stable handled,
    eval (tx_check_ready_delegations table_3 101) world_3 = Ok (stable, handled) /\
    delegation_of_db_row (sample_row 101 hash_H' 1) ∉ stable /\
    hash_H' ∉ handled.
Proof.
  apply (unknown_when_lookup_fails table_3 101 world_3
           (delegation_of_db_row (sample_row 101 hash_H' 1)) eq_refl);
    [by_compute| |by intros block; vm_compute].
  apply (Forall_forall (fun d' => _ -> _)). by_compute.
Defined.

(** Two rows at height 100 on a chain whose block 100 has the hash [hash_H]:
    the row of the live block comes second and is dismissed. *)
Lemma memo_dismisses_row_of_live_block_witness :
  live_status chain_100 (delegation_of_db_row (sample_row 100 hash_H 2)) = Stable /\
  exists stable handled,
    eval (tx_check_ready_delegations table_reorg_first 100) (world_of_table table_reorg_first) =
      Ok (stable, handled) /\
    delegation_of_db_row (sample_row 100 hash_H 2) ∉ stable /\ hash_H ∈ handled.
Proof.
  apply (memo_dismisses_row_of_live_block table_reorg_first 100
           (world_of_table table_reorg_first)
           (delegation_of_db_row (sample_row 100 hash_H' 1))
           (delegation_of_db_row (sample_row 100 hash_H 2)) (mkBlock hash_H) eq_refl);
    [by_compute|reflexivity|reflexivity|reflexivity|by vm_compute].
Defined.

(** The same rows with the row of the live block first: the row of the
    reorganised block is submitted. *)
Lemma memo_submits_row_of_reorged_block_witness :
  live_status chain_100 (delegation_of_db_row (sample_row 100 hash_H' 2)) = Dismissed /\
  exists stable handled,
    eval (tx_check_ready_delegations table_live_first 100) (world_of_table table_live_first) =
      Ok (stable, handled) /\
    delegation_of_db_row (sample_row 100 hash_H' 2) ∈ stable.
Proof.
  apply (memo_submits_row_of_reorged_block table_live_first 100
           (world_of_table table_live_first)
           (delegation_of_db_row (sample_row 100 hash_H 1))
           (delegation_of_db_row (sample_row 100 hash_H' 2)) (mkBlock hash_H) eq_refl);
    [by_compute|reflexivity|reflexivity|reflexivity|by vm_compute].
Defined.

Lemma host_asked_once_per_height_witness :
  let calls := host_calls (drop (length (w_trace world_3))
                             (w_trace (exec (tx_check_ready_delegations table_3 101) world_3))) in
  NoDup calls /\
  forall n, n ∈ calls <-> exists d, d ∈ fetched_rows table_3 101 /\ block_number d = n.
Proof. apply (host_asked_once_per_height table_3 101 world_3 eq_refl). Defined.
