(* ===== verification/Submission.v ===== *)
(** * Submission: the Submission Engine [send_transaction].

    One submission sends the call through the gateway provider and, when the
    send is accepted, waits for the receipt.  A send error is classified in the
    order of the source: first a contract rejection that means the delegation is
    already in place ([non_applicable_delegation]), then the transport and
    local faults that are retried without limit, then every other error.
    [submission_outcome] is the specification of the engine as a function of
    the gateway's answers; [send_transaction_run] shows that the code
    implements it. *)

From Stdlib Require Import ZArith Lia List.
From Stdlib.Strings Require Import Byte.
From stdpp Require Import base option list.
From S2P Require Import Prelude Types Mock.

#[local] Open Scope Z_scope.
#[local] Open Scope relay_scope.

(** ** Definitions *)

(** [RpcError::as_error_resp]. *)
Definition as_error_resp (err : RpcError) : option ErrorPayload :=
  match err with ErrorResp payload => Some payload | _ => None end.

(** [TransportErrorKind::is_retry_err]. *)
Definition is_retry_err (inner : TransportErrorKind) : bool :=
  match inner with
  | MissingBatchResponse => true
  | HttpError retryable | Custom retryable => retryable
  | BackendGone | PubsubUnavailable => false
  end.

(** [fn non_applicable_delegation]: the interface errors that mean the
    delegation is already applied or superseded. *)
Definition non_applicable_delegation (err : RpcError) : option MultichainACLErrors :=
  mjoin
    ((fun error =>
        match error with
        | CoprocessorAlreadyDelegatedOrRevokedUserDecryption => Some error
        | UserDecryptionDelegationCounterTooLow => Some error
        | OtherMultichainACLError _ => None
        end)
     <$> (as_error_resp err ≫= as_decoded_interface_error)).

(** The guard of the second arm of the [match transaction]: retryable
    transport errors, [BackendGone] and local usage errors. *)
Definition unlimited_retry_error (e : RpcError) : bool :=
  match e with
  | Transport inner => is_retry_err inner || bool_decide (inner = BackendGone)
  | LocalUsageError => true
  | _ => false
  end.

(** How one submission ends. *)
Inductive SubmissionOutcome :=
| BenignRejection (err : MultichainACLErrors)
| UnlimitedRetryFault (e : RpcError)
| OtherSendFailure (e : RpcError)
| ReceiptFailure (e : PendingTransactionError)
| Confirmed (receipt : TransactionReceipt)
| Reverted (receipt : TransactionReceipt).

(** The three tiers of a send error. *)
Definition classify_send_error (e : RpcError) : SubmissionOutcome :=
  match non_applicable_delegation e with
  | Some err => BenignRejection err
  | None => if unlimited_retry_error e then UnlimitedRetryFault e else OtherSendFailure e
  end.

Definition classify_receipt
    (r : Result TransactionReceipt PendingTransactionError) : SubmissionOutcome :=
  match r with
  | Err e => ReceiptFailure e
  | Ok receipt => if receipt_status receipt then Confirmed receipt else Reverted receipt
  end.

(** What [send_transaction] returns for an outcome. *)
Definition outcome_result (o : SubmissionOutcome) : Res unit :=
  match o with
  | BenignRejection _ | Confirmed _ => Ok tt
  | UnlimitedRetryFault e | OtherSendFailure e => Err (ErrRpc e)
  | ReceiptFailure e => Err (ErrPendingTransaction e)
  | Reverted receipt =>
      Err (ErrMsg (TransactionFailedWithStatus (receipt_transaction_hash receipt)))
  end.

(** The increments of the success and of the failure counter. *)
Definition outcome_success (o : SubmissionOutcome) : nat :=
  match o with Confirmed _ => 1 | _ => 0 end.

Definition outcome_fail (o : SubmissionOutcome) : nat :=
  match o with BenignRejection _ | Confirmed _ => 0 | _ => 1 end.

(** The log line of an outcome. *)
Definition outcome_log (o : SubmissionOutcome) : LogEvent :=
  match o with
  | BenignRejection err => LogDelegationNotAccepted err
  | UnlimitedRetryFault _ => LogSendFailedUnlimitedRetry
  | OtherSendFailure _ => LogSendFailed
  | ReceiptFailure _ => LogGettingReceiptFailed
  | Confirmed receipt => LogTxnSucceeded (receipt_transaction_hash receipt)
  | Reverted receipt => LogTxnFailed (receipt_transaction_hash receipt)
  end.

(** A submission between its two suspension points. *)
Inductive SendProgress :=
| Sent (transaction : PendingTransaction)
| Finished (result : Res unit).

Section submission.
Context `{Provider P}.

(** [gateway_provider.send_transaction(request).await]. *)
Definition gateway_send (request : TransactionRequest)
    : M (World P) (Result PendingTransaction RpcError) :=
  emit (EvGatewaySend request) ;;
  gateway <- gets w_gateway_provider ;;
  let r := provider_send_transaction gateway request in
  modify (set_gateway_provider (snd r)) ;;
  ret (fst r).

(** [transaction.with_timeout(..).with_required_confirmations(..).get_receipt().await]. *)
Definition gateway_get_receipt (transaction : PendingTransaction) (timeout confirmations : Z)
    : M (World P) (Result TransactionReceipt PendingTransactionError) :=
  emit (EvGatewayReceipt transaction) ;;
  gateway <- gets w_gateway_provider ;;
  let r := get_receipt gateway transaction timeout confirmations in
  modify (set_gateway_provider (snd r)) ;;
  ret (fst r).

(** The first half of [send_transaction]: gas overprovision, the send and
    the [match transaction]. *)
Definition send_phase (op : DelegateUserDecryptOperation) (delegation : DelegationRow)
    (txn_request : TransactionRequest) : M (World P) SendProgress :=
  gateway <- gets w_gateway_provider ;;
  let transaction_request :=
    try_overprovision_gas_limit gateway txn_request
      (gas_limit_overprovision_percent (conf op)) in
  transaction <- gateway_send transaction_request ;;
  match transaction with
  | Ok txn => ret (Sent txn)
  | Err e =>
      match non_applicable_delegation e with
      | Some err =>
          log (LogDelegationNotAccepted err) ;;
          ret (Finished (Ok tt))
      | None =>
          if unlimited_retry_error e then
            fail_counter_inc ;;
            log LogSendFailedUnlimitedRetry ;;
            ret (Finished (Err (ErrRpc e)))
          else
            fail_counter_inc ;;
            log LogSendFailed ;;
            ret (Finished (Err (ErrRpc e)))
      end
  end.

(** The second half: the receipt under the configured timeout and
    confirmation count, and the check of its status. *)
Definition receipt_phase (op : DelegateUserDecryptOperation) (delegation : DelegationRow)
    (transaction : PendingTransaction) : M (World P) (Res unit) :=
  receipt <- gateway_get_receipt transaction
               (as_u64 (txn_receipt_timeout_secs (conf op)))
               (as_u64 (required_txn_confirmations (conf op))) ;;
  match receipt with
  | Err error =>
      fail_counter_inc ;;
      log LogGettingReceiptFailed ;;
      ret (Err (ErrPendingTransaction error))
  | Ok receipt =>
      let transaction_hash := receipt_transaction_hash receipt in
      if receipt_status receipt then
        log (LogTxnSucceeded transaction_hash) ;;
        success_counter_inc ;;
        ret (Ok tt)
      else
        fail_counter_inc ;;
        log (LogTxnFailed transaction_hash) ;;
        ret (Err (ErrMsg (TransactionFailedWithStatus transaction_hash)))
  end.

(** [async fn send_transaction]. *)
Definition send_transaction (op : DelegateUserDecryptOperation) (delegation : DelegationRow)
    (txn_request : TransactionRequest) (src_transaction_id : option bytes)
    : M (World P) (Res unit) :=
  progress <- send_phase op delegation txn_request ;;
  match progress with
  | Sent transaction => receipt_phase op delegation transaction
  | Finished result => ret result
  end.

(** ** The specification of one submission *)

(** The request that is sent. *)
Definition sent_request (op : DelegateUserDecryptOperation) (gateway : P)
    (txn_request : TransactionRequest) : TransactionRequest :=
  try_overprovision_gas_limit gateway txn_request (gas_limit_overprovision_percent (conf op)).

(** The outcome of a submission, the gateway after it and the calls made,
    as a function of the gateway before it. *)
Definition submission_outcome (op : DelegateUserDecryptOperation) (gateway : P)
    (txn_request : TransactionRequest) : SubmissionOutcome * P * list Event :=
  let request := sent_request op gateway txn_request in
  let sent := provider_send_transaction gateway request in
  match fst sent with
  | Err e => (classify_send_error e, snd sent, [EvGatewaySend request])
  | Ok txn =>
      let got := get_receipt (snd sent) txn
                   (as_u64 (txn_receipt_timeout_secs (conf op)))
                   (as_u64 (required_txn_confirmations (conf op))) in
      (classify_receipt (fst got), snd got, [EvGatewaySend request; EvGatewayReceipt txn])
  end.

(** The world after a submission with the given outcome. *)
Definition apply_outcome (o : SubmissionOutcome) (gateway' : P) (calls : list Event)
    (w : World P) : World P :=
  add_events (calls ++ [EvLog (outcome_log o)])
    (add_counts (outcome_success o) (outcome_fail o) (set_gateway_provider gateway' w)).

End submission.

(** ** The code implements the specification *)

Section submission_run.
Context `{Provider P}.
Implicit Types (w : World P) (op : DelegateUserDecryptOperation) (o : SubmissionOutcome).

(** Unfolds the effects of a submission down to a world built by [mkWorld]. *)
Ltac run_submission :=
  unfold send_transaction, send_phase, receipt_phase, gateway_send, gateway_get_receipt,
    success_counter_inc, fail_counter_inc, submission_outcome, sent_request,
    apply_outcome, classify_send_error, classify_receipt,
    inc_success, inc_fail in *;
  trace_simpl; unfold add_events, add_counts, set_gateway_provider; simpl.

Lemma send_phase_run op d req w :
  send_phase op d req w =
  let request := sent_request op (w_gateway_provider w) req in
  let sent := provider_send_transaction (w_gateway_provider w) request in
  match fst sent with
  | Ok txn =>
      (Sent txn, add_events [EvGatewaySend request] (set_gateway_provider (snd sent) w))
  | Err e =>
      (Finished (outcome_result (classify_send_error e)),
       apply_outcome (classify_send_error e) (snd sent) [EvGatewaySend request] w)
  end.
Proof.
  run_submission.
  destruct (provider_send_transaction _ _) as [[txn|e] gw']; simpl; [done|].
  destruct (non_applicable_delegation e); [|destruct (unlimited_retry_error e)];
    simpl; by rewrite <- ?app_assoc.
Qed.

Lemma receipt_phase_run op d txn w :
  receipt_phase op d txn w =
  let got := get_receipt (w_gateway_provider w) txn
               (as_u64 (txn_receipt_timeout_secs (conf op)))
               (as_u64 (required_txn_confirmations (conf op))) in
  (outcome_result (classify_receipt (fst got)),
   apply_outcome (classify_receipt (fst got)) (snd got) [EvGatewayReceipt txn] w).
Proof.
  run_submission.
  destruct (get_receipt _ _ _ _) as [[receipt|e] gw']; simpl;
    [destruct (receipt_status receipt)|]; simpl; by rewrite <- ?app_assoc.
Qed.

Lemma send_transaction_run op d req tid w :
  send_transaction op d req tid w =
  let '(o, gateway', calls) := submission_outcome op (w_gateway_provider w) req in
  (outcome_result o, apply_outcome o gateway' calls w).
Proof.
  unfold send_transaction. rewrite run_bind. unfold eval, exec.
  rewrite send_phase_run. unfold submission_outcome. simpl.
  destruct (provider_send_transaction _ _) as [[txn|e] gw']; simpl; [|done].
  rewrite receipt_phase_run. simpl.
  destruct (get_receipt _ _ _ _) as [r gw'']; simpl.
  unfold apply_outcome, add_events, add_counts, set_gateway_provider; simpl.
  by rewrite <- app_assoc.
Qed.

End submission_run.

(** ** Properties of the submission engine *)

Section submission_properties.
Context `{Provider P}.
Implicit Types (w : World P) (op : DelegateUserDecryptOperation) (o : SubmissionOutcome).

Lemma frame_apply_outcome o gateway' calls w : frame w (apply_outcome o gateway' calls w).
Proof.
  unfold apply_outcome.
  etrans; [apply frame_set_gateway_provider|].
  etrans; [apply frame_add_counts|apply frame_add_events].
Qed.

Lemma framed_send_phase op d req : framed (send_phase op d req).
Proof.
  intros w. unfold exec. rewrite send_phase_run. simpl.
  destruct (provider_send_transaction _ _) as [[txn|e] gw']; simpl.
  - etrans; [apply frame_set_gateway_provider|apply frame_add_events].
  - apply frame_apply_outcome.
Qed.

Lemma framed_receipt_phase op d txn : framed (receipt_phase op d txn).
Proof. intros w. unfold exec. rewrite receipt_phase_run. apply frame_apply_outcome. Qed.

Lemma framed_send_transaction op d req tid : framed (send_transaction op d req tid).
Proof.
  unfold send_transaction. apply framed_bind; [apply framed_send_phase|].
  intros [txn|r]; [apply framed_receipt_phase|apply framed_ret].
Qed.

(** C3. [send_transaction] implements the specification of a submission: its
    result, the gateway after it, the two counters and the trace are those of
    [submission_outcome], which classifies the answer to the send in three
    tiers and the receipt by its status. *)
Theorem send_transaction_refines_outcome op d req tid w :
  let '(o, gateway', calls) := submission_outcome op (w_gateway_provider w) req in
  eval (send_transaction op d req tid) w = outcome_result o /\
  exec (send_transaction op d req tid) w =
    add_events (calls ++ [EvLog (outcome_log o)])
      (add_counts (outcome_success o) (outcome_fail o) (set_gateway_provider gateway' w)).
Proof.
  unfold eval, exec. rewrite send_transaction_run.
  by destruct (submission_outcome _ _ _) as [[o gw'] calls].
Qed.

(** C30. The only errors that count as "the delegation is already in place" are
    error responses whose data decodes to one of the two interface errors
    CoprocessorAlreadyDelegatedOrRevokedUserDecryption and
    UserDecryptionDelegationCounterTooLow. *)
Theorem non_applicable_delegation_spec (e : RpcError) (err : MultichainACLErrors) :
  non_applicable_delegation e = Some err <->
  exists payload,
    e = ErrorResp payload /\ as_decoded_interface_error payload = Some err /\
    (err = CoprocessorAlreadyDelegatedOrRevokedUserDecryption \/
     err = UserDecryptionDelegationCounterTooLow).
Proof.
  unfold non_applicable_delegation. split.
  - destruct e as [payload| | | | | |]; simpl; try done.
    destruct (as_decoded_interface_error payload) as [[]|] eqn:E; simpl; try done;
      intros [= <-]; eauto.
  - intros (payload & -> & Hd & [->| ->]); simpl; by rewrite Hd.
Qed.

(** C16. Idempotent retry: when the contract rejects the send with one of the
    two benign interface errors, the submission returns normally, neither
    counter moves and no receipt is waited for. *)
Theorem benign_rejection_is_success op d req tid w e err :
  fst (provider_send_transaction (w_gateway_provider w)
         (sent_request op (w_gateway_provider w) req)) = Err e ->
  non_applicable_delegation e = Some err ->
  let w' := exec (send_transaction op d req tid) w in
  eval (send_transaction op d req tid) w = Ok tt /\
  w_fail_counter w' = w_fail_counter w /\
  w_success_counter w' = w_success_counter w /\
  w_trace w' = w_trace w ++
    [EvGatewaySend (sent_request op (w_gateway_provider w) req);
     EvLog (LogDelegationNotAccepted err)].
Proof.
  intros Hsend Hbenign. unfold eval, exec. rewrite send_transaction_run.
  unfold submission_outcome, classify_send_error. rewrite Hsend, Hbenign. done.
Qed.

(** C17. Every other error of the send is returned as it is and counted once as
    a failure, whether it is one of the faults that are retried without limit
    or not: the two tiers differ in the log line only.  No receipt is waited
    for. *)
Theorem send_error_propagates op d req tid w e :
  fst (provider_send_transaction (w_gateway_provider w)
         (sent_request op (w_gateway_provider w) req)) = Err e ->
  non_applicable_delegation e = None ->
  let w' := exec (send_transaction op d req tid) w in
  eval (send_transaction op d req tid) w = Err (ErrRpc e) /\
  w_fail_counter w' = S (w_fail_counter w) /\
  w_success_counter w' = w_success_counter w /\
  w_trace w' = w_trace w ++
    [EvGatewaySend (sent_request op (w_gateway_provider w) req);
     EvLog (if unlimited_retry_error e then LogSendFailedUnlimitedRetry else LogSendFailed)].
Proof.
  intros Hsend Hbenign. unfold eval, exec. rewrite send_transaction_run.
  unfold submission_outcome, classify_send_error. rewrite Hsend, Hbenign.
  by destruct (unlimited_retry_error e).
Qed.

(** C18. A transaction that was mined with a failing status is a failure of the
    submission like any other: it is counted as a failure and returned as an
    error, and is not inspected for a benign cause. *)
Theorem reverted_receipt_is_failure op d req tid w txn receipt :
  let sent := provider_send_transaction (w_gateway_provider w)
                (sent_request op (w_gateway_provider w) req) in
  fst sent = Ok txn ->
  fst (get_receipt (snd sent) txn (as_u64 (txn_receipt_timeout_secs (conf op)))
         (as_u64 (required_txn_confirmations (conf op)))) = Ok receipt ->
  receipt_status receipt = false ->
  let w' := exec (send_transaction op d req tid) w in
  eval (send_transaction op d req tid) w =
    Err (ErrMsg (TransactionFailedWithStatus (receipt_transaction_hash receipt))) /\
  w_fail_counter w' = S (w_fail_counter w) /\
  w_success_counter w' = w_success_counter w.
Proof.
  intros sent Hsend Hreceipt Hstatus. unfold eval, exec. rewrite send_transaction_run.
  unfold submission_outcome. fold sent. rewrite Hsend, Hreceipt.
  unfold classify_receipt. by rewrite Hstatus.
Qed.

(** C31. A submission moves the counters by one step at most: the failure
    counter goes up by one exactly when an error is returned, the success
    counter goes up by one exactly when a receipt with a good status was
    obtained, and never both. *)
Theorem send_transaction_counters op d req tid w :
  let r := eval (send_transaction op d req tid) w in
  let w' := exec (send_transaction op d req tid) w in
  w_fail_counter w' = ((if is_err r then 1 else 0) + w_fail_counter w)%nat /\
  (w_success_counter w' = w_success_counter w \/
   w_success_counter w' = S (w_success_counter w) /\ r = Ok tt).
Proof.
  unfold eval, exec. rewrite send_transaction_run.
  destruct (submission_outcome _ _ _) as [[o gw'] calls]. simpl.
  destruct o; simpl; auto.
Qed.

End submission_properties.

#[export] Hint Resolve @framed_send_phase @framed_receipt_phase @framed_send_transaction
  : relay.

(** ** Checks at concrete inputs *)

Definition world_rejecting : World MockProvider :=
  sample_world chain_100 (gateway_scripted [already_delegated] []) []
    (oracle_of RecvTimeout []).

Definition backend_gone : Result PendingTransaction RpcError :=
  Err (Transport BackendGone).

Definition world_backend_gone : World MockProvider :=
  sample_world chain_100 (gateway_scripted [backend_gone] []) []
    (oracle_of RecvTimeout []).

Definition reverted_receipt : TransactionReceipt := mkReceipt [x01] false.

Definition world_reverting : World MockProvider :=
  sample_world chain_100 (gateway_scripted [] [Ok reverted_receipt]) []
    (oracle_of RecvTimeout []).

Lemma non_applicable_delegation_spec_witness :
  non_applicable_delegation
    (ErrorResp (mkErrorPayload 3 (Some UserDecryptionDelegationCounterTooLow))) =
  Some UserDecryptionDelegationCounterTooLow.
Proof.
  apply (proj2 (non_applicable_delegation_spec _ _)).
  eexists. split_and!; [reflexivity|reflexivity|by right].
Defined.

Definition sample_delegation : DelegationRow :=
  delegation_of_sample 100 hash_H 1.

Lemma benign_rejection_is_success_witness :
  let w' := exec (send_transaction sample_op sample_delegation sample_request None)
              world_rejecting in
  eval (send_transaction sample_op sample_delegation sample_request None) world_rejecting
    = Ok tt /\
  w_fail_counter w' = w_fail_counter world_rejecting /\
  w_success_counter w' = w_success_counter world_rejecting /\
  w_trace w' = w_trace world_rejecting ++
    [EvGatewaySend (sent_request sample_op (w_gateway_provider world_rejecting) sample_request);
     EvLog (LogDelegationNotAccepted CoprocessorAlreadyDelegatedOrRevokedUserDecryption)].
Proof.
  apply (benign_rejection_is_success sample_op sample_delegation sample_request None
           world_rejecting
           (ErrorResp (mkErrorPayload 3
              (Some CoprocessorAlreadyDelegatedOrRevokedUserDecryption)))
           CoprocessorAlreadyDelegatedOrRevokedUserDecryption); reflexivity.
Defined.

Lemma send_error_propagates_witness :
  let w' := exec (send_transaction sample_op sample_delegation sample_request None)
              world_backend_gone in
  eval (send_transaction sample_op sample_delegation sample_request None) world_backend_gone
    = Err (ErrRpc (Transport BackendGone)) /\
  w_fail_counter w' = S (w_fail_counter world_backend_gone) /\
  w_success_counter w' = w_success_counter world_backend_gone /\
  w_trace w' = w_trace world_backend_gone ++
    [EvGatewaySend (sent_request sample_op (w_gateway_provider world_backend_gone)
                      sample_request);
     EvLog (if unlimited_retry_error (Transport BackendGone)
            then LogSendFailedUnlimitedRetry else LogSendFailed)].
Proof.
  apply (send_error_propagates sample_op sample_delegation sample_request None
           world_backend_gone (Transport BackendGone)); reflexivity.
Defined.

Lemma reverted_receipt_is_failure_witness :
  let w' := exec (send_transaction sample_op sample_delegation sample_request None)
              world_reverting in
  eval (send_transaction sample_op sample_delegation sample_request None) world_reverting =
    Err (ErrMsg (TransactionFailedWithStatus (receipt_transaction_hash reverted_receipt))) /\
  w_fail_counter w' = S (w_fail_counter world_reverting) /\
  w_success_counter w' = w_success_counter world_reverting.
Proof.
  apply (reverted_receipt_is_failure sample_op sample_delegation sample_request None
           world_reverting (mkPendingTransaction []) reverted_receipt); reflexivity.
Defined.
