(* ===== verification/Orchestrator.v ===== *)
(** * Orchestrator: the Readiness Notifier [wait_last_block_number] and the
    Batch Orchestrator [execute].

    A pass waits for a height, subtracts the finality delay, opens a
    transaction, classifies the ready rows, spawns one submission per stable
    row, joins them, and then either deletes the handled block hashes and
    commits, or rolls back.  The spawned tasks advance under the schedule of
    the world's oracle ([join_tasks]); after a failure they go on while the
    rollback is awaited and are dropped when [execute] returns
    ([run_until_drop]). *)

From Stdlib Require Import ZArith Lia List String Ascii.
From Stdlib.Strings Require Import Byte.
From stdpp Require Import base option list.
From S2P Require Import Prelude Types Mock Store Classifier Submission.

#[local] Open Scope Z_scope.
#[local] Open Scope relay_scope.

(** ** Definitions *)

(** [str::parse::<u64>]: decimal digits after an optional [+], no other
    character, and a value that fits. *)
Definition digit_value (c : ascii) : option Z :=
  let n := Z.of_N (N_of_ascii c) in
  if decide (48 <= n <= 57) then Some (n - 48) else None.

Fixpoint parse_digits (s : string) (acc : Z) : option Z :=
  match s with
  | EmptyString => Some acc
  | String c s' =>
      match digit_value c with
      | Some d =>
          let acc' := acc * 10 + d in
          if decide (acc' <= u64_max) then parse_digits s' acc' else None
      | None => None
      end
  end.

Definition parse_u64 (s : string) : option Z :=
  match s with
  | EmptyString => None
  | String c s' =>
      if decide (c = "+"%char) then
        match s' with EmptyString => None | _ => parse_digits s' 0 end
      else parse_digits s 0
  end.

(** [Address::from_slice]: panics unless the slice has 20 bytes. *)
Definition address_from_slice (b : bytes) : option bytes :=
  if decide (length b = 20%nat) then Some b else None.

(** The request of one delegation:
    [multichain_acl.delegateUserDecryption(..).into_transaction_request()],
    with the fixed gas limit when there is one. *)
Definition delegation_request (op : DelegateUserDecryptOperation)
    (delegation : DelegationRow) : option TransactionRequest :=
  a_delegator ← address_from_slice (delegator delegation);
  a_delegate ← address_from_slice (delegate delegation);
  a_contract ← address_from_slice (contract_address delegation);
  Some {| request_to := multichain_acl_address op;
          request_call :=
            {| call_chain_id := host_chain_id delegation;
               call_delegator := a_delegator;
               call_delegate := a_delegate;
               call_contract_address := a_contract;
               call_expiry_date := expiry_date delegation;
               call_delegation_counter := delegation_counter delegation |};
          request_gas_limit := gas op |}.

(** A spawned [send_transaction] between its suspension points. *)
Inductive TaskState :=
| TaskReady (delegation : DelegationRow) (txn_request : TransactionRequest)
| TaskSent (delegation : DelegationRow) (transaction : PendingTransaction)
| TaskDone (result : Res unit).

Definition task_failed (t : TaskState) : bool :=
  match t with TaskDone (Err _) => true | _ => false end.

Definition task_succeeded (t : TaskState) : bool :=
  match t with TaskDone (Ok _) => true | _ => false end.

(** What the join loop decides. *)
Inductive JoinOutcome :=
| JoinAllOk
| JoinFailed.

(** The join loop looking at the tasks: a finished failure ends it, and so
    does the success of all; otherwise it has to wait. *)
Definition poll (tasks : list TaskState) : option JoinOutcome :=
  if existsb task_failed tasks then Some JoinFailed
  else if forallb task_succeeded tasks then Some JoinAllOk
  else None.

(** The [for delegation in ready_delegations] that spawns the tasks: the
    tasks spawned, and whether building a request panicked. *)
Fixpoint spawn_all (op : DelegateUserDecryptOperation) (ready : list DelegationRow)
    : list TaskState * bool :=
  match ready with
  | [] => ([], false)
  | delegation :: rest =>
      match delegation_request op delegation with
      | None => ([], true)
      | Some txn_request =>
          let r := spawn_all op rest in
          (TaskReady delegation txn_request :: fst r, snd r)
      end
  end.

Section orchestrator.
Context `{Provider P}.

(** [self.host_chain_provider.get_block_number().await?]. *)
Definition from_host_chain : M (World P) (Res Z) :=
  emit EvHostGetBlockNumber ;;
  host <- gets w_host_chain_provider ;;
  ret (match get_block_number host with
       | Ok n => Ok n
       | Err e => Err (ErrRpc e)
       end).

(** [async fn wait_last_block_number]. *)
Definition wait_last_block_number (op : DelegateUserDecryptOperation) : M (World P) (Res Z) :=
  _ <-? db_op OpListenerConnect ;;
  _ <-? db_op OpListen ;;
  notification <- gets w_recv ;;
  match notification with
  | RecvTimeout => log LogNoNotification ;; from_host_chain
  | RecvConnectionError => log LogNotificationError ;; from_host_chain
  | RecvNotification payload =>
      match parse_u64 payload with
      | None => log (LogInvalidPayload payload) ;; from_host_chain
      | Some block_number => ret (Ok block_number)
      end
  end.

(** One spawned task advancing to its next suspension point. *)
Definition task_step (op : DelegateUserDecryptOperation) (t : TaskState)
    : M (World P) TaskState :=
  match t with
  | TaskReady delegation txn_request =>
      progress <- send_phase op delegation txn_request ;;
      ret (match progress with
           | Sent transaction => TaskSent delegation transaction
           | Finished result => TaskDone result
           end)
  | TaskSent delegation transaction =>
      result <- receipt_phase op delegation transaction ;;
      ret (TaskDone result)
  | TaskDone result => ret (TaskDone result)
  end.

Definition step_task_at (op : DelegateUserDecryptOperation) (i : nat)
    (tasks : list TaskState) : M (World P) (list TaskState) :=
  match tasks !! i with
  | Some t => t' <- task_step op t ;; ret (<[i := t']> tasks)
  | None => ret tasks
  end.

(** A task run to its end: at most two suspension points. *)
Definition run_to_end (op : DelegateUserDecryptOperation) (t : TaskState)
    : M (World P) TaskState :=
  t' <- task_step op t ;; task_step op t'.

(** What the join loop leaves behind when it ends: its decision, the tasks
    as they are then, and the part of the schedule that has not run. *)
Record JoinResult := mkJoinResult {
  joined_outcome : JoinOutcome;
  joined_tasks : list TaskState;
  joined_schedule : list SchedItem;
}.

(** The [while let Some(res) = join_set.join_next().await] under a schedule.
    A [Poll] at which a finished task has failed ends the loop, with the
    other tasks where they are; when the schedule ends, every task runs to
    its end and the loop sees all results. *)
Fixpoint join_tasks (op : DelegateUserDecryptOperation) (schedule : list SchedItem)
    (tasks : list TaskState) : M (World P) JoinResult :=
  match schedule with
  | [] =>
      tasks' <- mapM (run_to_end op) tasks ;;
      ret (mkJoinResult (if existsb task_failed tasks' then JoinFailed else JoinAllOk)
             tasks' [])
  | Run i :: schedule' =>
      tasks' <- step_task_at op i tasks ;;
      join_tasks op schedule' tasks'
  | Poll :: schedule' =>
      match poll tasks with
      | Some outcome => ret (mkJoinResult outcome tasks schedule')
      | None => join_tasks op schedule' tasks
      end
  end.

(** The tasks of a [JoinSet] that is still alive while [execute] is suspended
    or unwinding: they advance under the schedule up to its next [Poll], and
    what has not run by then is dropped with the [JoinSet]. *)
Fixpoint run_until_drop (op : DelegateUserDecryptOperation) (schedule : list SchedItem)
    (tasks : list TaskState) : M (World P) unit :=
  match schedule with
  | [] | Poll :: _ => ret tt
  | Run i :: schedule' =>
      tasks' <- step_task_at op i tasks ;;
      run_until_drop op schedule' tasks'
  end.

(** The part of [execute] from the spawn of the tasks to the commit.  A
    panic of the spawn loop drops the [JoinSet] with the tasks spawned so
    far.  After a failed task the [JoinSet] lives until [execute] returns,
    so the other tasks go on while [tx.rollback()] is awaited. *)
Definition join_and_clean (op : DelegateUserDecryptOperation) (tx : DbTransaction)
    (ready_delegations : list DelegationRow) (handled_block_delegation : list bytes)
    : M (World P) (Res bool) :=
  schedule <- gets w_schedule ;;
  let spawned := spawn_all op ready_delegations in
  if snd spawned then
    run_until_drop op schedule (fst spawned) ;;
    ret (Err (ErrPanic AddressFromSliceLength))
  else
    joined <- join_tasks op schedule (fst spawned) ;;
    match joined_outcome joined with
    | JoinFailed =>
        rolled_back <- tx_rollback tx ;;
        run_until_drop op (joined_schedule joined) (joined_tasks joined) ;;
        _ <-? ret rolled_back ;;
        ret (Err (ErrMsg ErrorSendingDelegationTransaction))
    | JoinAllOk =>
        cleaned <- clean_delegation tx handled_block_delegation ;;
        (match fst cleaned with
         | Err _ => log LogCannotClean
         | Ok _ => ret tt
         end) ;;
        _ <-? tx_commit (snd cleaned) ;;
        ret (Ok true)
    end.

(** The part of [execute] after the readiness filter returned its lists:
    nothing to do, or [join_and_clean]. *)
Definition submit_and_clean (op : DelegateUserDecryptOperation) (tx : DbTransaction)
    (ready_delegations : list DelegationRow) (handled_block_delegation : list bytes)
    : M (World P) (Res bool) :=
  if bool_decide (ready_delegations = []) && bool_decide (handled_block_delegation = [])
  then
    _ <-? tx_commit tx ;;
    log LogNoDelegations ;;
    ret (Ok true)
  else join_and_clean op tx ready_delegations handled_block_delegation.

(** [async fn execute].  [overflow_checks] says whether the build panics on
    an integer overflow or wraps. *)
Definition execute (overflow_checks : bool) (op : DelegateUserDecryptOperation)
    : M (World P) (Res bool) :=
  block_number <-? wait_last_block_number op ;;
  match u64_sub overflow_checks block_number (block_delay_for_delegation (conf op)) with
  | None => ret (Err (ErrPanic SubtractWithOverflow))
  | Some up_to_block_number =>
      tx <-? tx_begin ;;
      delegations <- tx_check_ready_delegations tx up_to_block_number ;;
      match delegations with
      | Err _ =>
          _ <-? tx_rollback tx ;;
          log LogErrorCheckingReady ;;
          ret (Err (ErrMsg ErrorCheckingReadyDelegations))
      | Ok (ready_delegations, handled_block_delegation) =>
          submit_and_clean op tx ready_delegations handled_block_delegation
      end
  end.

(** ** The specification of a pass *)

(** The height of the direct query. *)
Definition host_height (w : World P) : Res Z :=
  match get_block_number (w_host_chain_provider w) with
  | Ok n => Ok n
  | Err e => Err (ErrRpc e)
  end.

(** The height a pass starts from: the notified one, or the one of the direct
    query when no usable notification arrives. *)
Definition notified_height (w : World P) : Res Z :=
  if w_db_fault w OpListenerConnect then Err (ErrDb OpListenerConnect)
  else if w_db_fault w OpListen then Err (ErrDb OpListen)
  else
    match w_recv w with
    | RecvNotification payload =>
        match parse_u64 payload with
        | Some block_number => Ok block_number
        | None => host_height w
        end
    | RecvTimeout | RecvConnectionError => host_height w
    end.

(** The threshold of a pass, when it gets that far. *)
Definition pass_threshold (overflow_checks : bool) (op : DelegateUserDecryptOperation)
    (w : World P) : option Z :=
  match notified_height w with
  | Ok block_number =>
      u64_sub overflow_checks block_number (block_delay_for_delegation (conf op))
  | Err _ => None
  end.

(** The block hashes a pass deletes when it commits: those handled by the
    readiness filter at the threshold, unless the DELETE fails. *)
Definition pass_deletion_set (overflow_checks : bool) (op : DelegateUserDecryptOperation)
    (w : World P) : list bytes :=
  match pass_threshold overflow_checks op w with
  | Some threshold =>
      if w_db_fault w OpDelete then []
      else handled_hashes (w_host_chain_provider w) (fetched_rows (w_table w) threshold)
  | None => []
  end.

(** The table after a pass, from its result. *)
Definition pass_table (overflow_checks : bool) (op : DelegateUserDecryptOperation)
    (w : World P) (result : Res bool) : list DbRow :=
  match result with
  | Ok _ => delete_block_hashes (w_table w) (pass_deletion_set overflow_checks op w)
  | Err _ => w_table w
  end.

End orchestrator.

(** ** Frames of the orchestrator's steps *)

Section orchestrator_frames.
Context `{Provider P}.
Implicit Types (w : World P) (op : DelegateUserDecryptOperation).
Implicit Types (tasks : list TaskState) (schedule : list SchedItem).

Lemma framed_from_host_chain : framed (from_host_chain (P:=P)).
Proof. unfold from_host_chain. solve_framed. Qed.

Lemma framed_wait_last_block_number op : framed (wait_last_block_number op).
Proof.
  pose proof framed_from_host_chain.
  unfold wait_last_block_number. solve_framed.
Qed.

Lemma quiet_wait_last_block_number op : quiet (wait_last_block_number op).
Proof. unfold wait_last_block_number, from_host_chain. solve_quiet. Qed.

Lemma framed_task_step op t : framed (task_step op t).
Proof. unfold task_step. solve_framed. Qed.

Lemma framed_step_task_at op i tasks : framed (step_task_at op i tasks).
Proof. pose proof (framed_task_step op). unfold step_task_at. solve_framed. Qed.

Lemma framed_run_to_end op t : framed (run_to_end op t).
Proof. pose proof (framed_task_step op). unfold run_to_end. solve_framed. Qed.

Lemma framed_join_tasks op schedule tasks : framed (join_tasks op schedule tasks).
Proof.
  pose proof (framed_step_task_at op). pose proof (framed_run_to_end op).
  revert tasks. induction schedule as [|[i|] schedule IH]; intros tasks; simpl;
    solve_framed.
Qed.

Lemma framed_run_until_drop op schedule tasks : framed (run_until_drop op schedule tasks).
Proof.
  pose proof (framed_step_task_at op).
  revert tasks. induction schedule as [|[i|] schedule IH]; intros tasks; simpl;
    solve_framed.
Qed.

End orchestrator_frames.

#[export] Hint Resolve @quiet_wait_last_block_number : relay.
#[export] Hint Resolve @framed_from_host_chain @framed_wait_last_block_number
  @framed_task_step @framed_step_task_at @framed_run_to_end @framed_join_tasks
  @framed_run_until_drop : relay.

(** ** Atomicity of a failing pass *)

Section atomicity.
Context `{Provider P}.
Implicit Types (w : World P) (op : DelegateUserDecryptOperation) (tx : DbTransaction).

(** An action that fails only by frame steps: an error leaves the table, the
    host provider and the oracle untouched. *)
Definition failure_atomic {A} (m : M (World P) (Res A)) : Prop :=
  forall w, is_err (eval m w) = true -> frame w (exec m w).

Lemma failure_atomic_framed {A} (m : M (World P) (Res A)) : framed m -> failure_atomic m.
Proof. intros Hm w _. apply Hm. Qed.

Lemma failure_atomic_bind {A B} (m : M (World P) A) (k : A -> M (World P) (Res B)) :
  framed m -> (forall a, failure_atomic (k a)) -> failure_atomic (bind m k).
Proof.
  intros Hm Hk w. unfold eval, exec. rewrite run_bind. intros Herr.
  etrans; [apply Hm|]. by apply Hk.
Qed.

(** After a commit that succeeded nothing fails any more. *)
Lemma failure_atomic_commit {B} tx (k : M (World P) (Res B)) :
  (forall w, is_err (eval k w) = false) ->
  failure_atomic (_ <-? tx_commit tx ;; k).
Proof.
  intros Hk w. unfold eval, exec. rewrite run_bind. unfold eval, exec.
  rewrite tx_commit_run. destruct (w_db_fault w OpCommit); simpl.
  - intros _. apply frame_add_events.
  - intros Herr. fold (eval k (set_table tx (add_events [EvDb OpCommit] w))) in Herr.
    by rewrite Hk in Herr.
Qed.

End atomicity.

(** Proves [failure_atomic] of a composite action: a commit ends the part
    that can fail, everything before it is framed. *)
Ltac solve_atomic :=
  repeat first
    [ solve [auto 2]
    | apply failure_atomic_commit; [by intros|]
    | apply failure_atomic_commit; by intros
    | apply failure_atomic_bind; [solve_framed; fail|]
    | apply failure_atomic_framed; solve_framed; fail
    | progress intros
    | case_match ].

Section atomicity_of_execute.
Context `{Provider P}.
Implicit Types (w : World P) (op : DelegateUserDecryptOperation) (tx : DbTransaction).

Lemma failure_atomic_join_and_clean op tx ready handled :
  failure_atomic (join_and_clean op tx ready handled).
Proof. unfold join_and_clean. solve_atomic. Qed.

Lemma failure_atomic_submit_and_clean op tx ready handled :
  failure_atomic (submit_and_clean op tx ready handled).
Proof.
  pose proof (failure_atomic_join_and_clean op tx ready handled).
  unfold submit_and_clean. solve_atomic.
Qed.

Lemma failure_atomic_execute c op : failure_atomic (execute c op).
Proof.
  pose proof (failure_atomic_submit_and_clean op).
  unfold execute. solve_atomic.
Qed.

End atomicity_of_execute.

(** ** A pass against its specification *)

Section pass.
Context `{Provider P}.
Implicit Types (w : World P) (op : DelegateUserDecryptOperation) (tx : DbTransaction).

(** A parsed payload is a [u64]. *)
Lemma parse_digits_is_u64 s acc n :
  is_u64 acc -> parse_digits s acc = Some n -> is_u64 n.
Proof.
  revert acc. induction s as [|c s IH]; intros acc Hacc; simpl; [by intros [= <-]|].
  unfold digit_value. case_decide; [|done]. case_decide; [|done].
  apply IH. unfold is_u64 in *. lia.
Qed.

Lemma parse_u64_is_u64 s n : parse_u64 s = Some n -> is_u64 n.
Proof.
  assert (is_u64 0) by (unfold is_u64, u64_max; lia).
  unfold parse_u64. destruct s as [|c s]; [done|].
  case_decide; [destruct s; [done|]|]; by apply parse_digits_is_u64.
Qed.

Lemma wait_last_block_number_eval op w :
  eval (wait_last_block_number op) w = notified_height w.
Proof.
  unfold wait_last_block_number, notified_height, host_height, from_host_chain, eval.
  rewrite run_bind. unfold eval, exec. rewrite db_op_run. simpl.
  destruct (w_db_fault w OpListenerConnect); simpl; [done|].
  rewrite run_bind. unfold eval, exec. rewrite db_op_run. simpl.
  autorewrite with relay_rw.
  destruct (w_db_fault w OpListen); simpl; [done|].
  rewrite run_bind. unfold eval, exec, gets. simpl.
  autorewrite with relay_rw.
  destruct (w_recv w) as [| |payload]; [done..|].
  by destruct (parse_u64 payload).
Qed.

(** A pass that gets to the join and returns normally has committed the
    transaction after the DELETE. *)
Lemma join_and_clean_success op tx ready handled w b :
  eval (join_and_clean op tx ready handled) w = Ok b ->
  b = true /\
  w_table (exec (join_and_clean op tx ready handled) w) =
    if w_db_fault w OpDelete then tx else delete_block_hashes tx handled.
Proof.
  unfold join_and_clean. autorewrite with relay_run.
  destruct (spawn_all op ready) as [tasks [|]]; simpl.
  { autorewrite with relay_run. done. }
  autorewrite with relay_run.
  pose proof (framed_join_tasks op (w_schedule w) tasks w) as Hf.
  set (w1 := exec (join_tasks op (w_schedule w) tasks) w) in *.
  destruct (joined_outcome _); autorewrite with relay_run.
  - destruct (eval (tx_commit _) _) eqn:Hcommit; autorewrite with relay_run; [|done].
    intros [= <-]. split; [done|]. rewrite (tx_commit_ok _ _ _ Hcommit).
    rewrite eval_clean_delegation, (frame_db_fault _ _ Hf).
    destruct handled, (w_db_fault w OpDelete); simpl; by rewrite ?delete_block_hashes_nil.
  - by destruct (eval (tx_rollback tx) w1).
Qed.

Lemma submit_and_clean_success op tx ready handled w b :
  eval (submit_and_clean op tx ready handled) w = Ok b ->
  b = true /\
  w_table (exec (submit_and_clean op tx ready handled) w) =
    if w_db_fault w OpDelete then tx else delete_block_hashes tx handled.
Proof.
  unfold submit_and_clean.
  destruct (bool_decide (ready = []) && bool_decide (handled = [])) eqn:E;
    [|apply join_and_clean_success].
  apply andb_prop in E as [_ ->%bool_decide_eq_true]. autorewrite with relay_run.
  destruct (eval (tx_commit _) _) eqn:Hcommit; autorewrite with relay_run; [|done].
  intros [= <-]. split; [done|]. autorewrite with relay_rw.
  rewrite (tx_commit_ok _ _ _ Hcommit), delete_block_hashes_nil. by destruct (w_db_fault w OpDelete).
Qed.

Lemma execute_success c op w b :
  eval (execute c op) w = Ok b ->
  b = true /\
  w_table (exec (execute c op) w) =
    delete_block_hashes (w_table w) (pass_deletion_set c op w).
Proof.
  unfold execute, pass_deletion_set, pass_threshold.
  rewrite eval_bind, exec_bind, wait_last_block_number_eval.
  pose proof (framed_wait_last_block_number op w) as Hf.
  set (w1 := exec (wait_last_block_number op) w) in *.
  destruct (notified_height w) as [block_number|e]; [|done].
  destruct (u64_sub _ _ _) as [threshold|]; [|done].
  rewrite eval_bind, exec_bind, eval_tx_begin, exec_tx_begin.
  rewrite (frame_db_fault _ _ Hf), (frame_table _ _ Hf).
  destruct (w_db_fault w OpBegin); [done|].
  rewrite eval_bind, exec_bind, eval_check_ready, exec_check_ready.
  autorewrite with relay_rw. rewrite (frame_db_fault _ _ Hf), (frame_host _ _ Hf).
  destruct (w_db_fault w OpFetch) eqn:Hfetch.
  { autorewrite with relay_run. by destruct (eval (tx_rollback _) _). }
  intros [-> ->]%submit_and_clean_success. split; [done|].
  autorewrite with relay_rw. rewrite (frame_db_fault _ _ Hf).
  destruct (w_db_fault w OpDelete); [|done]. by rewrite delete_block_hashes_nil.
Qed.

(** A request cannot be built exactly when one of the three address columns
    is not 20 bytes long. *)
Lemma delegation_request_None op d :
  delegation_request op d = None <->
  length (delegator d) <> 20%nat \/ length (delegate d) <> 20%nat \/
  length (contract_address d) <> 20%nat.
Proof.
  unfold delegation_request, address_from_slice.
  repeat case_decide; simpl; split; try done; tauto.
Qed.

(** One malformed row among the rows to submit panics the spawn loop. *)
Lemma spawn_all_panics op ready d :
  d ∈ ready -> delegation_request op d = None -> snd (spawn_all op ready) = true.
Proof.
  intros Hd Hnone. induction ready as [|d' ready IH]; [by apply elem_of_nil in Hd|].
  simpl. destruct (delegation_request op d') as [request|] eqn:Hd'; [|done].
  apply elem_of_cons in Hd as [->|Hd]; [congruence|by apply IH].
Qed.

(** A pass whose notifier, subtraction, begin and fetch succeed is
    [submit_and_clean] on the two lists of the readiness filter, run from a
    world that differs from the first one by store calls, lookups and log
    lines only. *)
Lemma execute_reaches_submit c op w block_number threshold :
  eval (wait_last_block_number op) w = Ok block_number ->
  u64_sub c block_number (block_delay_for_delegation (conf op)) = Some threshold ->
  w_db_fault w OpBegin = false -> w_db_fault w OpFetch = false ->
  let rest :=
    submit_and_clean op (w_table w)
      (stable_rows (w_host_chain_provider w) (fetched_rows (w_table w) threshold))
      (handled_hashes (w_host_chain_provider w) (fetched_rows (w_table w) threshold)) in
  exists w1,
    frame w w1 /\ quiet_step w w1 /\
    eval (execute c op) w = eval rest w1 /\ exec (execute c op) w = exec rest w1.
Proof.
  intros Hwait Hsub Hbegin Hfetch.
  pose proof (framed_wait_last_block_number op w) as Hf.
  pose proof (quiet_wait_last_block_number op w) as Hq.
  unfold execute. rewrite eval_bind, exec_bind, Hwait. cbv beta iota. rewrite Hsub.
  rewrite eval_bind, exec_bind, eval_tx_begin, exec_tx_begin, (frame_db_fault _ _ Hf), Hbegin.
  cbv beta iota. rewrite eval_bind, exec_bind, eval_check_ready, exec_check_ready.
  autorewrite with relay_rw.
  rewrite (frame_db_fault _ _ Hf), (frame_table _ _ Hf), (frame_host _ _ Hf), Hfetch.
  refine (ex_intro _ _ (conj _ (conj _ (conj eq_refl eq_refl)))).
  - etrans; [apply Hf|apply frame_add_events].
  - etrans; [apply Hq|apply quiet_add_events].
Qed.

Lemma execute_table c op w :
  w_table (exec (execute c op) w) = pass_table c op w (eval (execute c op) w).
Proof.
  destruct (eval (execute c op) w) as [b|e] eqn:E; simpl.
  - by destruct (execute_success c op w b E) as [_ ->].
  - apply (failure_atomic_execute c op w). by rewrite E.
Qed.

(** Every hash of the deletion set is the hash of a fetched row whose height
    the host resolves. *)
Lemma elem_of_pass_deletion_set c op w h :
  h ∈ pass_deletion_set c op w ->
  exists threshold r,
    pass_threshold c op w = Some threshold /\ r ∈ w_table w /\
    db_block_number r <= as_i64 threshold /\ db_block_hash r = h /\
    live_status (w_host_chain_provider w) (delegation_of_db_row r) <> Unkown.
Proof.
  unfold pass_deletion_set. destruct (pass_threshold c op w) as [threshold|];
    [|by intros ?%elem_of_nil].
  destruct (w_db_fault w OpDelete); [by intros ?%elem_of_nil|].
  intros (d & Hd & <- & Hs)%elem_of_handled_hashes.
  rewrite memo_status_unknown in Hs by done.
  apply list_elem_of_fmap in Hd as (r & -> & [Hr Hn]%elem_of_select_delayed_sorted).
  by exists threshold, r.
Qed.

Lemma execute_keeps c op w r :
  r ∈ w_table w -> db_block_hash r ∉ pass_deletion_set c op w ->
  r ∈ w_table (exec (execute c op) w).
Proof.
  intros Hr Hh. rewrite execute_table. unfold pass_table.
  destruct (eval (execute c op) w); [|done]. by apply elem_of_delete_block_hashes.
Qed.

End pass.

(** ** Properties of a pass *)

Section pass_properties.
Context `{Provider P}.
Implicit Types (w : World P) (op : DelegateUserDecryptOperation) (r : DbRow).

(** C1. [execute] implements the specification of a pass: it never returns
    [Ok false]; when it returns [Ok], the table is the old one without the
    rows whose block hash the readiness filter handled at the threshold (all
    rows kept when the DELETE failed); when it returns an error, the table is
    the old one. *)
Theorem execute_refines_pass c op w :
  eval (execute c op) w <> Ok false /\
  w_table (exec (execute c op) w) = pass_table c op w (eval (execute c op) w).
Proof.
  split; [|apply execute_table].
  intros E. by destruct (execute_success c op w false E).
Qed.

(** C4. A pass that fails changes nothing but the gateway chain, the trace
    and the counters: the table, the host chain and the oracle are as before,
    whatever was sent before the failure and while the rollback was awaited. *)
Theorem execute_failure_atomic c op w e :
  eval (execute c op) w = Err e -> frame w (exec (execute c op) w).
Proof. intros E. apply failure_atomic_execute. by rewrite E. Qed.

(** A pass never adds or reorders rows: the table after it is a
    subsequence of the table before. *)
Theorem execute_never_inserts c op w :
  w_table (exec (execute c op) w) `sublist_of` w_table w.
Proof.
  rewrite execute_table. unfold pass_table.
  destruct (eval (execute c op) w); [apply delete_block_hashes_sublist|done].
Qed.

(** A pass keeps the table well formed: every integer column of every
    row stays a non-negative [i64]. *)
Theorem execute_preserves_wf c op w :
  wf_table (w_table w) -> wf_table (w_table (exec (execute c op) w)).
Proof.
  rewrite execute_table. unfold pass_table.
  destruct (eval (execute c op) w); [apply delete_block_hashes_wf|done].
Qed.

(** C21. A row stays in the table when no row with its block hash has a height
    the host chain resolves: rows of unknown status are retried by a later
    pass. *)
Theorem execute_keeps_unresolved_rows c op w r :
  r ∈ w_table w ->
  (forall r', r' ∈ w_table w -> db_block_hash r' = db_block_hash r ->
     live_status (w_host_chain_provider w) (delegation_of_db_row r') = Unkown) ->
  r ∈ w_table (exec (execute c op) w).
Proof.
  intros Hr Hunknown. apply execute_keeps; [done|].
  intros (threshold & r' & _ & Hr' & _ & Hh & Hs)%elem_of_pass_deletion_set.
  by apply Hs, Hunknown.
Qed.

(** C22. A row stays in the table when every row with its block hash is above
    the threshold of the pass: a pass only deletes what it fetched. *)
Theorem execute_keeps_unready_rows c op w r :
  r ∈ w_table w ->
  (forall threshold r', pass_threshold c op w = Some threshold ->
     r' ∈ w_table w -> db_block_hash r' = db_block_hash r ->
     as_i64 threshold < db_block_number r') ->
  r ∈ w_table (exec (execute c op) w).
Proof.
  intros Hr Habove. apply execute_keeps; [done|].
  intros (threshold & r' & Ht & Hr' & Hn & Hh & _)%elem_of_pass_deletion_set.
  specialize (Habove threshold r' Ht Hr' Hh). lia.
Qed.

(** C23. Without a usable notification (a timeout, a connection error of the
    listener or a payload that is not a [u64]) the height of a pass is the
    one the host chain reports. *)
Theorem wait_last_block_number_fallback op w :
  w_db_fault w OpListenerConnect = false -> w_db_fault w OpListen = false ->
  (forall payload, w_recv w = RecvNotification payload -> parse_u64 payload = None) ->
  eval (wait_last_block_number op) w = host_height w.
Proof.
  intros Hconnect Hlisten Hrecv. rewrite wait_last_block_number_eval.
  unfold notified_height. rewrite Hconnect, Hlisten.
  destruct (w_recv w) as [| |payload]; [done..|]. by rewrite (Hrecv payload).
Qed.

(** C39. A notification whose payload is a decimal [u64] gives that height,
    whatever the host chain would report. *)
Theorem wait_last_block_number_notified op w payload block_number :
  w_db_fault w OpListenerConnect = false -> w_db_fault w OpListen = false ->
  w_recv w = RecvNotification payload -> parse_u64 payload = Some block_number ->
  eval (wait_last_block_number op) w = Ok block_number.
Proof.
  intros Hconnect Hlisten Hrecv Hparse. rewrite wait_last_block_number_eval.
  unfold notified_height. by rewrite Hconnect, Hlisten, Hrecv, Hparse.
Qed.

(** C24. A listener that cannot connect fails the pass before anything else
    happens: the height is not taken from the host chain instead. *)
Theorem listener_error_fails_pass c op w :
  w_db_fault w OpListenerConnect = true ->
  run (execute c op) w =
    (Err (ErrDb OpListenerConnect), add_events [EvDb OpListenerConnect] w).
Proof.
  intros Hconnect. unfold run, execute, wait_last_block_number.
  rewrite run_bind. autorewrite with relay_run. by rewrite Hconnect.
Qed.

(** C25. When the height is below the finality delay and overflow checks are
    on, the subtraction panics: the pass fails and the table is as before. *)
Theorem execute_underflow_panics op w block_number :
  eval (wait_last_block_number op) w = Ok block_number ->
  block_number < block_delay_for_delegation (conf op) ->
  eval (execute true op) w = Err (ErrPanic SubtractWithOverflow) /\
  w_table (exec (execute true op) w) = w_table w.
Proof.
  intros Hwait Hlt.
  assert (eval (execute true op) w = Err (ErrPanic SubtractWithOverflow)) as E.
  { unfold execute. rewrite eval_bind, Hwait. unfold u64_sub.
    rewrite decide_False by lia. done. }
  split; [done|]. by rewrite execute_table, E.
Qed.

(** C26. When the height is below the finality delay and overflow checks are
    off, the threshold wraps to a value of 2^63 or more, the cast to [i64]
    makes the bound of the query negative, and the pass leaves every row of
    a well-formed table where it is. *)
Theorem execute_underflow_wraps op w block_number :
  wf_table (w_table w) ->
  eval (wait_last_block_number op) w = Ok block_number ->
  0 <= block_number < block_delay_for_delegation (conf op) ->
  block_delay_for_delegation (conf op) <= u64_max ->
  block_delay_for_delegation (conf op) - block_number <= 2 ^ 63 ->
  w_table (exec (execute false op) w) = w_table w.
Proof.
  intros Hwf Hwait Hlt Hmax Hdelay. rewrite execute_table. unfold pass_table.
  destruct (eval (execute false op) w); [|done].
  unfold pass_deletion_set, pass_threshold.
  rewrite <- (wait_last_block_number_eval op), Hwait.
  rewrite u64_sub_wrapping_underflow by (unfold is_u64, u64_max in *; lia).
  unfold fetched_rows. rewrite select_delayed_sorted_negative; [|done|].
  - destruct (w_db_fault w OpDelete); apply delete_block_hashes_nil.
  - rewrite as_i64_of_big; unfold u64_max, u64_modulus in *; lia.
Qed.

(** C36. A stable row with an address column that is not 20 bytes long
    panics the pass while the requests are built ([Address::from_slice]):
    whenever the notifier, the subtraction, the begin and the fetch succeed
    and such a row is among the rows to submit, the pass ends with that
    panic and no row is deleted, so the row is fetched again by every pass
    and blocks the rows fetched with it. *)
Theorem short_address_panics_pass c op w block_number threshold d :
  eval (wait_last_block_number op) w = Ok block_number ->
  u64_sub c block_number (block_delay_for_delegation (conf op)) = Some threshold ->
  w_db_fault w OpBegin = false -> w_db_fault w OpFetch = false ->
  d ∈ stable_rows (w_host_chain_provider w) (fetched_rows (w_table w) threshold) ->
  length (delegator d) <> 20%nat \/ length (delegate d) <> 20%nat \/
    length (contract_address d) <> 20%nat ->
  eval (execute c op) w = Err (ErrPanic AddressFromSliceLength) /\
  w_table (exec (execute c op) w) = w_table w.
Proof.
  intros Hwait Hsub Hbegin Hfetch Hd Hshort. apply (delegation_request_None op) in Hshort.
  destruct (execute_reaches_submit c op w _ _ Hwait Hsub Hbegin Hfetch)
    as (w1 & _ & _ & Heval & _).
  assert (eval (execute c op) w = Err (ErrPanic AddressFromSliceLength)) as Herr.
  { rewrite Heval. unfold submit_and_clean. rewrite bool_decide_eq_false_2, andb_false_l.
    - unfold join_and_clean. autorewrite with relay_run.
      rewrite (spawn_all_panics op _ d Hd Hshort). by autorewrite with relay_run.
    - intros Hnil. rewrite Hnil in Hd. by apply elem_of_nil in Hd. }
  split; [done|]. by rewrite execute_table, Herr.
Qed.

End pass_properties.

(** ** Checks at concrete inputs *)

(** The notification of height 100. *)
Definition notify_100 : RecvOutcome := RecvNotification "100".

(** Scenario A: one row at height 100 with the hash the chain has there. *)
Definition world_A : World MockProvider :=
  sample_world chain_100 gateway_ok [sample_row 100 hash_H 1] (oracle_of notify_100 []).

(** Scenario B: one row at height 100 with a hash the chain does not have. *)
Definition world_B : World MockProvider :=
  sample_world chain_100 gateway_ok [sample_row 100 hash_H' 1] (oracle_of notify_100 []).

(** Scenario C: no notification, the chain at height 205, a delay of 5 blocks,
    a row at height 200 and one at height 201. *)
Definition chain_205 : MockProvider :=
  mkMock [(200, hash_H); (201, hash_H')] [] (Ok 205) [] [] [] accepted.

Definition op_delay_5 : DelegateUserDecryptOperation :=
  mkOperation (replicate 20 xee) (mkConfigSettings 120 30 1 10 5) None.

Definition world_C : World MockProvider :=
  sample_world chain_205 gateway_ok [sample_row 200 hash_H 1; sample_row 201 hash_H' 1]
    (oracle_of RecvTimeout []).

(** Two rows of one block, a gateway whose first answer to a send is a
    transport error, and a schedule. *)
Definition world_two_rows (schedule : list SchedItem) : World MockProvider :=
  sample_world chain_100 (gateway_scripted [Err (Transport BackendGone)] [])
    [sample_row 100 hash_H 1; sample_row 100 hash_H 2] (oracle_of notify_100 schedule).

(** A row whose delegator has 19 bytes. *)
Definition short_row : DbRow :=
  mkDbRow (replicate 19 xa1) address_B address_C 1 0 1000 1 100 hash_H None.

Definition world_short_row : World MockProvider :=
  sample_world chain_100 gateway_ok [short_row] (oracle_of notify_100 []).

(** A chain at height 3, below the delay of 5 blocks. *)
Definition chain_3 : MockProvider := mkMock [] [] (Ok 3) [] [] [] accepted.

Definition world_young_chain : World MockProvider :=
  sample_world chain_3 gateway_ok [sample_row 1 hash_H 1] (oracle_of RecvTimeout []).

(** A store whose listener cannot connect. *)
Definition world_no_listener : World MockProvider :=
  sample_world chain_100 gateway_ok [sample_row 100 hash_H 1]
    (mkPassOracle (fun op => bool_decide (op = OpListenerConnect)) RecvTimeout []).

(** The request of the sample row with a counter. *)
Definition request_of_sample (counter : Z) : TransactionRequest :=
  mkTransactionRequest (replicate 20 xee)
    (mkCall 1 address_A address_B address_C 1000 counter) None.

(** *** The scenarios of the specification, run on the model *)

(** Scenario A: a row whose recorded hash is the live hash at its height is
    submitted once, confirmed and deleted, and the pass commits. *)
Example scenario_A_stable_row_is_submitted_and_deleted :
  let w' := exec (execute true sample_op) world_A in
  eval (execute true sample_op) world_A = Ok true /\
  w_table w' = [] /\
  mock_accepted (w_gateway_provider w') = [request_of_sample 1] /\
  w_success_counter w' = 1%nat /\ w_fail_counter w' = 0%nat.
Proof. by vm_compute. Qed.

(** Scenario B: a row whose recorded hash differs from the live hash at its
    height is deleted without being submitted, and the pass commits. *)
Example scenario_B_reorged_row_is_dismissed :
  let w' := exec (execute true sample_op) world_B in
  eval (execute true sample_op) world_B = Ok true /\
  w_table w' = [] /\
  mock_accepted (w_gateway_provider w') = [] /\
  EvLog (LogDismissed 1) ∈ w_trace w'.
Proof. split_and!; [by vm_compute..|by_compute]. Qed.

(** Scenario C: after a timeout of the notifier the pass asks the chain for
    its height, 205, and with a delay of 5 blocks handles the row at height
    200 and leaves the row at height 201. *)
Example scenario_C_fallback_threshold :
  let w' := exec (execute true op_delay_5) world_C in
  eval (execute true op_delay_5) world_C = Ok true /\
  w_table w' = [sample_row 201 hash_H' 1] /\
  mock_accepted (w_gateway_provider w') = [request_of_sample 1] /\
  EvHostGetBlockNumber ∈ w_trace w'.
Proof. split_and!; [by vm_compute..|by_compute]. Qed.

(** A failed first task under three schedules.  When nothing runs between
    the poll that sees the failure and the return of [execute], the second
    delegation is never sent; when its task runs while the rollback is
    awaited, or before the poll, its request reaches the gateway chain
    although the pass rolls back and keeps both rows. *)
Example failed_pass_and_its_sibling :
  let accepted_under schedule :=
    mock_accepted (w_gateway_provider
                     (exec (execute true sample_op) (world_two_rows schedule))) in
  accepted_under [Run 0%nat; Poll] = [] /\
  accepted_under [Run 0%nat; Poll; Run 1%nat] = [request_of_sample 2] /\
  accepted_under [] = [request_of_sample 2] /\
  Forall (fun schedule =>
            eval (execute true sample_op) (world_two_rows schedule) =
              Err (ErrMsg ErrorSendingDelegationTransaction) /\
            w_table (exec (execute true sample_op) (world_two_rows schedule)) =
              w_table (world_two_rows schedule))
    [[Run 0%nat; Poll]; [Run 0%nat; Poll; Run 1%nat]; []].
Proof. split_and!; [by vm_compute..|by_compute]. Qed.

(** *** The theorems at concrete inputs *)

Lemma short_address_panics_pass_witness :
  eval (execute true sample_op) world_short_row = Err (ErrPanic AddressFromSliceLength) /\
  w_table (exec (execute true sample_op) world_short_row) = w_table world_short_row.
Proof.
  apply (short_address_panics_pass true sample_op world_short_row 100 100
           (delegation_of_db_row short_row));
    [reflexivity..|by_compute|left; by vm_compute].
Defined.

Lemma execute_failure_atomic_witness :
  frame (world_two_rows []) (exec (execute true sample_op) (world_two_rows [])).
Proof.
  apply (execute_failure_atomic true sample_op (world_two_rows [])
           (ErrMsg ErrorSendingDelegationTransaction)).
  reflexivity.
Defined.

Lemma execute_preserves_wf_witness :
  wf_table (w_table (exec (execute true sample_op) world_A)).
Proof. apply (execute_preserves_wf true sample_op world_A). by_compute. Defined.

Lemma execute_keeps_unresolved_rows_witness :
  sample_row 101 hash_H' 1 ∈ w_table (exec (execute true sample_op) world_3).
Proof.
  apply (execute_keeps_unresolved_rows true sample_op world_3); [by_compute|].
  apply (Forall_forall
           (fun r' => db_block_hash r' = hash_H' ->
                      live_status chain_100 (delegation_of_db_row r') = Unkown)).
  by_compute.
Defined.

Lemma execute_keeps_unready_rows_witness :
  sample_row 201 hash_H' 1 ∈ w_table (exec (execute true op_delay_5) world_C).
Proof.
  apply (execute_keeps_unready_rows true op_delay_5 world_C); [by_compute|].
  intros threshold r' [= <-]. revert r'.
  apply (Forall_forall
           (fun r' => db_block_hash r' = hash_H' -> as_i64 200 < db_block_number r')).
  by_compute.
Defined.

Lemma wait_last_block_number_fallback_witness :
  eval (wait_last_block_number op_delay_5) world_C = host_height world_C.
Proof. by apply (wait_last_block_number_fallback op_delay_5 world_C). Defined.

Lemma wait_last_block_number_notified_witness :
  eval (wait_last_block_number sample_op) world_A = Ok 100.
Proof.
  apply (wait_last_block_number_notified sample_op world_A "100" 100); reflexivity.
Defined.

Lemma listener_error_fails_pass_witness :
  run (execute true sample_op) world_no_listener =
    (Err (ErrDb OpListenerConnect), add_events [EvDb OpListenerConnect] world_no_listener).
Proof. apply (listener_error_fails_pass true sample_op world_no_listener). reflexivity. Defined.

Lemma execute_underflow_panics_witness :
  eval (execute true op_delay_5) world_young_chain = Err (ErrPanic SubtractWithOverflow) /\
  w_table (exec (execute true op_delay_5) world_young_chain) = w_table world_young_chain.
Proof.
  apply (execute_underflow_panics op_delay_5 world_young_chain 3); [reflexivity|].
  simpl. lia.
Defined.

Lemma execute_underflow_wraps_witness :
  w_table (exec (execute false op_delay_5) world_young_chain) = w_table world_young_chain.
Proof.
  apply (execute_underflow_wraps op_delay_5 world_young_chain 3);
    [by_compute|reflexivity|simpl; lia|by vm_compute|by vm_compute].
Defined.

(** The payloads of a notification: decimal digits with an optional sign
    [+], within the range of a [u64]. *)
Example parse_u64_examples :
  parse_u64 "205" = Some 205 /\ parse_u64 "+7" = Some 7 /\
  parse_u64 "18446744073709551615" = Some u64_max /\
  parse_u64 "18446744073709551616" = None /\
  parse_u64 "" = None /\ parse_u64 "+" = None /\ parse_u64 "-1" = None /\
  parse_u64 " 5" = None /\ parse_u64 "0x10" = None.
Proof. by vm_compute. Qed.
