(* ===== verification/Batch.v ===== *)
(** * Batch: what the submissions of a pass have done when the pass ends.

    The join loop of [execute] runs the spawned submissions under a schedule.
    This file carries an invariant through every schedule ([batch_inv]): each
    task that has left its first state has sent the request of its
    delegation, and the failure counter has grown by the number of failed
    tasks.  With it, a pass that returns [Ok] has sent the request of every
    row it submitted and none of its submissions failed.  Two instances of a
    generic invariant that excludes failed tasks give progress: over a
    gateway chain that cooperates the pass commits, and over one on which
    the delegations are already in place it commits without counting. *)

From Stdlib Require Import ZArith Lia List.
From Stdlib.Strings Require Import Byte.
From stdpp Require Import base option list relations.
From S2P Require Import Prelude Types Mock Store Classifier Submission Orchestrator.

#[local] Open Scope relay_scope.

(** ** Definitions *)

Section batch.
Context `{Provider P}.
Implicit Types (w : World P) (op : DelegateUserDecryptOperation).
Implicit Types (t : TaskState) (tasks : list TaskState).

(** The events a world has more than an earlier one. *)
Definition new_events (w0 w : World P) : list Event :=
  drop (length (w_trace w0)) (w_trace w).

(** The request of a delegation was sent to the gateway chain since [w0],
    after the gas overprovision of the gateway as it was then. *)
Definition was_sent op (w0 : World P) (request : TransactionRequest) (w : World P) : Prop :=
  exists gateway, EvGatewaySend (sent_request op gateway request) ∈ new_events w0 w.

(** 1 for a failed task. *)
Definition failed t : nat := if task_failed t then 1 else 0.

Definition failed_count tasks : nat := sum_list_with failed tasks.

(** A task against the task it was spawned as: it keeps its delegation, and
    once it has left its first state its request was sent. *)
Definition task_inv op (w0 : World P) (t0 t : TaskState) (w : World P) : Prop :=
  match t0, t with
  | TaskReady d request, TaskReady d' request' => d' = d /\ request' = request
  | TaskReady d request, TaskSent d' _ => d' = d /\ was_sent op w0 request w
  | TaskReady d request, TaskDone _ => was_sent op w0 request w
  | _, _ => True
  end.

(** The invariant of the join loop, against the world [w0] and the tasks
    [tasks0] it started with. *)
Record batch_inv op (w0 : World P) (tasks0 tasks : list TaskState) (w : World P) : Prop := {
  batch_frame : frame w0 w;
  batch_tasks : Forall2 (fun t0 t => task_inv op w0 t0 t w) tasks0 tasks;
  batch_fail : w_fail_counter w = (w_fail_counter w0 + failed_count tasks)%nat;
}.

(** The interleavings of a batch: a step of the batch is a step of one of
    its tasks, to its next suspension point. *)
Inductive batch_step op : list TaskState * World P -> list TaskState * World P -> Prop :=
| batch_step_task i t tasks w :
    tasks !! i = Some t ->
    batch_step op (tasks, w)
      (<[i := eval (task_step op t) w]> tasks, exec (task_step op t) w).

(** The rows a pass submits: the stable rows at its threshold. *)
Definition pass_submitted (overflow_checks : bool) op (w : World P) : list DelegationRow :=
  match pass_threshold overflow_checks op w with
  | Some threshold => stable_rows (w_host_chain_provider w) (fetched_rows (w_table w) threshold)
  | None => []
  end.

End batch.

(** ** The trace only grows *)

Section growth.
Context `{Provider P}.
Implicit Types (w : World P) (op : DelegateUserDecryptOperation).

Lemma trace_new_events w0 w :
  w_trace w0 `prefix_of` w_trace w -> w_trace w = w_trace w0 ++ new_events w0 w.
Proof. unfold new_events. intros [k ->]. by rewrite drop_app_length. Qed.

Lemma new_events_mono w0 w w' :
  w_trace w0 `prefix_of` w_trace w -> w_trace w `prefix_of` w_trace w' ->
  new_events w0 w `prefix_of` new_events w0 w'.
Proof.
  unfold new_events. intros [k ->] [k' ->].
  rewrite <- app_assoc, !drop_app_length. by apply prefix_app_r.
Qed.

Lemma new_events_base w0 w1 w :
  w_trace w0 `prefix_of` w_trace w1 -> w_trace w1 `prefix_of` w_trace w ->
  new_events w1 w ⊆ new_events w0 w.
Proof.
  unfold new_events. intros [k ->] [k' ->].
  rewrite drop_app_length, <- app_assoc, drop_app_length. intros e He. apply elem_of_app. by right.
Qed.

Lemma was_sent_mono op w0 request w w' :
  w_trace w0 `prefix_of` w_trace w -> w_trace w `prefix_of` w_trace w' ->
  was_sent op w0 request w -> was_sent op w0 request w'.
Proof.
  intros H0 H1 [gateway Hsent]. exists gateway.
  by eapply elem_of_prefix; [|apply new_events_mono].
Qed.

Lemma was_sent_base op w0 w1 request w :
  w_trace w0 `prefix_of` w_trace w1 -> w_trace w1 `prefix_of` w_trace w ->
  was_sent op w1 request w -> was_sent op w0 request w.
Proof.
  intros H0 H1 [gateway Hsent]. exists gateway. by eapply new_events_base.
Qed.

Lemma task_inv_mono op w0 t0 t w w' :
  frame w0 w -> frame w w' -> task_inv op w0 t0 t w -> task_inv op w0 t0 t w'.
Proof.
  intros H0 H1. pose proof (frame_trace _ _ H0). pose proof (frame_trace _ _ H1).
  destruct t0, t; simpl; try done; [intros [-> ?]; split; [done|]|];
    by eapply was_sent_mono.
Qed.

End growth.

(** ** One step of one task *)

Section task_steps.
Context `{Provider P}.
Implicit Types (w : World P) (op : DelegateUserDecryptOperation).
Implicit Types (t : TaskState) (tasks : list TaskState).

Lemma outcome_fail_failed o : outcome_fail o = failed (TaskDone (outcome_result o)).
Proof. by destruct o. Qed.

Lemma new_events_add_events evs w w' :
  w_trace w' = w_trace w -> new_events w (add_events evs w') = evs.
Proof. intros Ht. unfold new_events. simpl. by rewrite Ht, drop_app_length. Qed.

(** The first step sends the request. *)
Lemma task_step_ready op d request w :
  let t' := eval (task_step op (TaskReady d request)) w in
  let w' := exec (task_step op (TaskReady d request)) w in
  EvGatewaySend (sent_request op (w_gateway_provider w) request) ∈ new_events w w' /\
  w_fail_counter w' = (w_fail_counter w + failed t')%nat /\
  match t' with TaskReady _ _ => False | TaskSent d' _ => d' = d | TaskDone _ => True end.
Proof.
  unfold task_step. rewrite eval_bind, exec_bind. unfold eval, exec.
  rewrite send_phase_run. simpl.
  destruct (provider_send_transaction _ _) as [[txn|e] gateway']; simpl.
  - rewrite new_events_add_events by done. split_and!; [by left|unfold failed; simpl; lia|done].
  - unfold apply_outcome. rewrite new_events_add_events by done.
    rewrite outcome_fail_failed. split_and!; [by left|simpl; lia|done].
Qed.

(** The second step ends the task. *)
Lemma task_step_sent op d txn w :
  exists r,
    eval (task_step op (TaskSent d txn)) w = TaskDone r /\
    w_fail_counter (exec (task_step op (TaskSent d txn)) w) =
      (w_fail_counter w + failed (TaskDone r))%nat.
Proof.
  unfold task_step. rewrite eval_bind, exec_bind. unfold eval, exec.
  rewrite receipt_phase_run. simpl. eexists. split; [done|].
  rewrite outcome_fail_failed. simpl. lia.
Qed.

Lemma task_step_fail op t w :
  (w_fail_counter (exec (task_step op t) w) + failed t =
   w_fail_counter w + failed (eval (task_step op t) w))%nat.
Proof.
  destruct t as [d request|d txn|r].
  - destruct (task_step_ready op d request w) as (_ & Hfail & _). rewrite Hfail.
    change (failed (TaskReady d request)) with 0%nat. lia.
  - destruct (task_step_sent op d txn w) as (r & Hr & Hfail). rewrite Hfail, Hr.
    change (failed (TaskSent d txn)) with 0%nat. lia.
  - done.
Qed.

Lemma task_inv_step op w0 t0 t w :
  frame w0 w -> task_inv op w0 t0 t w ->
  task_inv op w0 t0 (eval (task_step op t) w) (exec (task_step op t) w).
Proof.
  intros Hf Hinv. pose proof (framed_task_step op t w) as Hstep.
  destruct t as [d request|d txn|r].
  - destruct t0 as [d0 request0| |]; try (by destruct (eval _ _)).
    destruct Hinv as [-> ->].
    destruct (task_step_ready op d0 request0 w) as (Hsent & _ & Hshape).
    assert (was_sent op w0 request0 (exec (task_step op (TaskReady d0 request0)) w)).
    { eapply was_sent_base; [apply Hf|apply Hstep|]. by eexists. }
    simpl. by destruct (eval _ _).
  - destruct (task_step_sent op d txn w) as (r & -> & _).
    apply (task_inv_mono op w0 t0 _ w _ Hf Hstep) in Hinv.
    destruct t0; simpl in *; tauto.
  - done.
Qed.

End task_steps.

(** ** The join loop follows the interleavings *)

Section reachable.
Context `{Provider P}.
Implicit Types (w : World P) (op : DelegateUserDecryptOperation).
Implicit Types (t : TaskState) (tasks pre post : list TaskState).

(** A step of the task in the middle of a list is a step of the batch. *)
Lemma batch_step_middle op pre t post w :
  batch_step op (pre ++ t :: post, w)
    (pre ++ eval (task_step op t) w :: post, exec (task_step op t) w).
Proof.
  pose proof (batch_step_task op (length pre) t (pre ++ t :: post) w) as Hstep.
  rewrite list_lookup_middle, insert_app_r_alt, Nat.sub_diag in Hstep by done.
  by apply Hstep.
Qed.

Lemma step_task_at_reachable op i tasks w :
  rtc (batch_step op) (tasks, w)
    (eval (step_task_at op i tasks) w, exec (step_task_at op i tasks) w).
Proof.
  unfold step_task_at. destruct (tasks !! i) as [t|] eqn:Hi; [|done].
  autorewrite with relay_run. by apply rtc_once, batch_step_task.
Qed.

Lemma run_to_end_reachable op pre t post w :
  rtc (batch_step op) (pre ++ t :: post, w)
    (pre ++ eval (run_to_end op t) w :: post, exec (run_to_end op t) w).
Proof.
  unfold run_to_end. rewrite eval_bind, exec_bind.
  eapply rtc_l; [apply batch_step_middle|]. apply rtc_once, batch_step_middle.
Qed.

Lemma mapM_run_to_end_reachable op pre tasks w :
  rtc (batch_step op) (pre ++ tasks, w)
    (pre ++ eval (mapM (run_to_end op) tasks) w, exec (mapM (run_to_end op) tasks) w).
Proof.
  revert pre w. induction tasks as [|t tasks IH]; intros pre w; [done|].
  simpl. autorewrite with relay_run.
  etrans; [apply run_to_end_reachable|].
  rewrite (cons_middle _ pre), (cons_middle _ pre (eval _ _)), !app_assoc. apply IH.
Qed.

(** Whatever the schedule, the join loop ends in a state that the batch
    reaches by steps of its tasks. *)
Lemma join_tasks_reachable op schedule tasks w :
  rtc (batch_step op) (tasks, w)
    (joined_tasks (eval (join_tasks op schedule tasks) w), exec (join_tasks op schedule tasks) w).
Proof.
  revert tasks w. induction schedule as [|[i|] schedule IH]; intros tasks w; simpl.
  - autorewrite with relay_run. simpl. apply (mapM_run_to_end_reachable op []).
  - autorewrite with relay_run. etrans; [apply step_task_at_reachable|apply IH].
  - destruct (poll tasks); [done|apply IH].
Qed.

(** A property of the batch that every step keeps holds in every state the
    batch reaches. *)
Lemma reachable_invariant op (Inv : list TaskState -> World P -> Prop) tasks w tasks' w' :
  (forall tasks w tasks' w',
     batch_step op (tasks, w) (tasks', w') -> Inv tasks w -> Inv tasks' w') ->
  rtc (batch_step op) (tasks, w) (tasks', w') -> Inv tasks w -> Inv tasks' w'.
Proof.
  intros Hstep Hreach. remember (tasks, w) as s eqn:Es. remember (tasks', w') as s' eqn:Es'.
  revert tasks w Es. induction Hreach as [s|s [tasks1 w1] s' Hs _ IH]; intros tasks w ->.
  - by simplify_eq.
  - intros Hinv. eapply IH; [done..|]. by eapply Hstep.
Qed.

End reachable.

(** ** The invariant of the batch *)

Section batch_steps.
Context `{Provider P}.
Implicit Types (w : World P) (op : DelegateUserDecryptOperation).
Implicit Types (t : TaskState) (tasks pre post : list TaskState).

Lemma failed_count_middle pre t post :
  failed_count (pre ++ t :: post) = (failed_count pre + failed t + failed_count post)%nat.
Proof. unfold failed_count. rewrite sum_list_with_app. simpl. lia. Qed.

(** A step of the task in the middle of the list. *)
Lemma batch_inv_step_middle op w0 tasks0 pre t post w :
  batch_inv op w0 tasks0 (pre ++ t :: post) w ->
  batch_inv op w0 tasks0 (pre ++ eval (task_step op t) w :: post) (exec (task_step op t) w).
Proof.
  intros [Hf Htasks Hfail]. pose proof (framed_task_step op t w) as Hstep.
  apply Forall2_app_inv_r in Htasks as (pre0 & post0 & Hpre & Hpost & ->).
  apply Forall2_cons_inv_r in Hpost as (t0 & post0' & Ht & Hpost & ->).
  split.
  - by etrans.
  - apply Forall2_app; [|constructor; [by apply task_inv_step|]];
      (eapply Forall2_impl; [eassumption|]); intros ? ?; by apply task_inv_mono.
  - pose proof (task_step_fail op t w). rewrite failed_count_middle in *. lia.
Qed.

(** Every step of the batch keeps the invariant. *)
Lemma batch_inv_step op w0 tasks0 tasks w tasks' w' :
  batch_step op (tasks, w) (tasks', w') ->
  batch_inv op w0 tasks0 tasks w -> batch_inv op w0 tasks0 tasks' w'.
Proof.
  inversion 1 as [i t ? ? Hi]; subst. intros Hinv.
  rewrite insert_take_drop by (by eapply lookup_lt_Some).
  apply batch_inv_step_middle. by rewrite take_drop_middle.
Qed.

Lemma batch_inv_join_tasks op w0 tasks0 schedule tasks w :
  batch_inv op w0 tasks0 tasks w ->
  batch_inv op w0 tasks0 (joined_tasks (eval (join_tasks op schedule tasks) w))
    (exec (join_tasks op schedule tasks) w).
Proof.
  apply (reachable_invariant op (batch_inv op w0 tasks0));
    [apply batch_inv_step|apply join_tasks_reachable].
Qed.

(** Two steps end a task. *)
Lemma run_to_end_done op t w : exists r, eval (run_to_end op t) w = TaskDone r.
Proof.
  unfold run_to_end. rewrite eval_bind. destruct t as [d request|d txn|r].
  - destruct (task_step_ready op d request w) as (_ & _ & Hshape).
    destruct (eval (task_step op (TaskReady d request)) w) as [| d' txn|r]; [done| |by eexists].
    destruct (task_step_sent op d' txn (exec (task_step op (TaskReady d request)) w))
      as (r & -> & _). by eexists.
  - destruct (task_step_sent op d txn w) as (r & -> & _). by eexists.
  - by eexists.
Qed.

Lemma mapM_run_to_end_done op tasks w :
  Forall (fun t => exists r, t = TaskDone r) (eval (mapM (run_to_end op) tasks) w).
Proof.
  revert w. induction tasks as [|t tasks IH]; intros w; simpl; [done|].
  autorewrite with relay_run. constructor; [apply run_to_end_done|apply IH].
Qed.

Lemma existsb_task_failed_false tasks :
  existsb task_failed tasks = false ->
  Forall (fun t => exists r, t = TaskDone r) tasks ->
  Forall (fun t => task_succeeded t = true) tasks.
Proof.
  intros Hfailed Hdone. induction Hdone as [|t tasks [r ->] _ IH]; [done|].
  simpl in Hfailed. apply orb_false_elim in Hfailed as [Ht Hfailed].
  constructor; [by destruct r|by apply IH].
Qed.

(** When the join loop ends well, every task has ended well. *)
Lemma join_tasks_all_ok op schedule tasks w :
  joined_outcome (eval (join_tasks op schedule tasks) w) = JoinAllOk ->
  Forall (fun t => task_succeeded t = true) (joined_tasks (eval (join_tasks op schedule tasks) w)).
Proof.
  revert tasks w. induction schedule as [|[i|] schedule IH]; intros tasks w; simpl.
  - autorewrite with relay_run. simpl.
    destruct (existsb task_failed _) eqn:Hfailed; [done|]. intros _.
    apply existsb_task_failed_false; [done|apply mapM_run_to_end_done].
  - autorewrite with relay_run. apply IH.
  - unfold poll. destruct (existsb task_failed tasks); [done|].
    destruct (forallb task_succeeded tasks) eqn:Hall; [|apply IH].
    intros _. simpl. apply Forall_forall. intros t Ht.
    by apply (proj1 (forallb_forall _ _) Hall), list_elem_of_In.
Qed.

End batch_steps.

(** ** A pass that returns [Ok] *)

Section committed_pass.
Context `{Provider P}.
Implicit Types (w : World P) (op : DelegateUserDecryptOperation) (tx : DbTransaction).
Implicit Types (ready : list DelegationRow) (handled : list bytes).

(** What holds of a row that was submitted since [w0]. *)
Definition submitted op (w0 w : World P) (d : DelegationRow) : Prop :=
  exists request, delegation_request op d = Some request /\ was_sent op w0 request w.

Lemma spawn_all_ready op ready :
  snd (spawn_all op ready) = false ->
  Forall2 (fun d t => exists request,
             delegation_request op d = Some request /\ t = TaskReady d request)
    ready (fst (spawn_all op ready)).
Proof.
  induction ready as [|d ready IH]; simpl; [done|].
  destruct (delegation_request op d) as [request|] eqn:Hd; simpl; [|done].
  intros Hok. constructor; [by eexists|by apply IH].
Qed.

Lemma batch_inv_init op w ready tasks :
  Forall2 (fun d t => exists request,
             delegation_request op d = Some request /\ t = TaskReady d request) ready tasks ->
  batch_inv op w tasks tasks w.
Proof.
  intros Hready. split; [done| |].
  - induction Hready as [|d t ready tasks (request & _ & ->) _ IH]; by constructor.
  - enough (failed_count tasks = 0%nat) as -> by lia.
    induction Hready as [|d t ready tasks (request & _ & ->) _ IH]; [done|].
    unfold failed_count in *. simpl. by rewrite IH.
Qed.

Lemma failed_count_succeeded tasks :
  Forall (fun t => task_succeeded t = true) tasks -> failed_count tasks = 0%nat.
Proof.
  unfold failed_count. induction 1 as [|t tasks Ht _ IH]; [done|].
  simpl. rewrite IH. by destruct t as [| |[]].
Qed.

Lemma submitted_of_inv op w0 w' ready tasks0 tasks' :
  Forall2 (fun d t => exists request,
             delegation_request op d = Some request /\ t = TaskReady d request)
    ready tasks0 ->
  Forall2 (fun t0 t => task_inv op w0 t0 t w') tasks0 tasks' ->
  Forall (fun t => task_succeeded t = true) tasks' ->
  Forall (submitted op w0 w') ready.
Proof.
  intros Hready. revert tasks'.
  induction Hready as [|d t ready tasks (request & Hd & ->) _ IH]; intros tasks'; [done|].
  intros (t' & tasks'' & Ht' & Htasks & ->)%Forall2_cons_inv_l [Hs Hall]%Forall_cons.
  constructor; [|by eapply IH].
  exists request. split; [done|]. by destruct t' as [| |r].
Qed.

(** After a join that ended well every spawned task has sent its request and
    the failure counter is where it was. *)
Lemma join_tasks_ok op ready w :
  snd (spawn_all op ready) = false ->
  let joined := eval (join_tasks op (w_schedule w) (fst (spawn_all op ready))) w in
  let w' := exec (join_tasks op (w_schedule w) (fst (spawn_all op ready))) w in
  joined_outcome joined = JoinAllOk ->
  w_fail_counter w' = w_fail_counter w /\ Forall (submitted op w w') ready.
Proof.
  intros Hspawn. pose proof (spawn_all_ready op ready Hspawn) as Hready. intros joined w' Hok.
  pose proof (batch_inv_join_tasks op w _ (w_schedule w) _ w (batch_inv_init op w _ _ Hready))
    as [Hf Htasks Hfail].
  pose proof (join_tasks_all_ok op _ _ _ Hok) as Hall.
  split; [subst w'; rewrite Hfail, failed_count_succeeded by done; lia|].
  by eapply submitted_of_inv.
Qed.

Lemma submitted_mono op w0 w w' d :
  grows w0 w -> grows w w' -> submitted op w0 w d -> submitted op w0 w' d.
Proof.
  intros H0 H1 (request & Hd & Hsent). exists request. split; [done|].
  by eapply was_sent_mono.
Qed.

Lemma submitted_base op w0 w1 w d :
  grows w0 w1 -> grows w1 w -> submitted op w1 w d -> submitted op w0 w d.
Proof.
  intros H0 H1 (request & Hd & Hsent). exists request. split; [done|].
  by eapply was_sent_base.
Qed.

Lemma join_and_clean_submits op tx ready handled w b :
  eval (join_and_clean op tx ready handled) w = Ok b ->
  let w' := exec (join_and_clean op tx ready handled) w in
  w_fail_counter w' = w_fail_counter w /\ Forall (submitted op w w') ready.
Proof.
  unfold join_and_clean. rewrite eval_bind, exec_bind, eval_gets, exec_gets. simpl.
  destruct (snd (spawn_all op ready)) eqn:Hspawn; [by rewrite eval_bind|].
  rewrite eval_bind, exec_bind.
  destruct (joined_outcome (eval (join_tasks _ _ _) w)) eqn:Hjoin;
    [|by rewrite !eval_bind; case_match].
  destruct (join_tasks_ok op ready w Hspawn Hjoin) as [Hfail Hsub].
  pose proof (framed_join_tasks op (w_schedule w) (fst (spawn_all op ready)) w) as Hf.
  set (w1 := exec (join_tasks _ _ _) w) in *. intros _.
  match goal with
  | |- context [exec ?m w1] =>
      assert (quiet m) as Hq by solve_quiet; assert (growing m) as Hg by solve_growing
  end.
  split; [by rewrite (quiet_fail _ _ (Hq w1))|].
  eapply Forall_impl; [apply Hsub|]. intros d.
  apply submitted_mono; [by apply frame_grows|apply Hg].
Qed.

Lemma growing_submit_and_clean op tx ready handled :
  growing (submit_and_clean op tx ready handled).
Proof. unfold submit_and_clean, join_and_clean. solve_growing. Qed.

Lemma submit_and_clean_submits op tx ready handled w b :
  eval (submit_and_clean op tx ready handled) w = Ok b ->
  let w' := exec (submit_and_clean op tx ready handled) w in
  w_fail_counter w' = w_fail_counter w /\ Forall (submitted op w w') ready.
Proof.
  unfold submit_and_clean.
  destruct (bool_decide (ready = []) && bool_decide (handled = [])) eqn:E;
    [|apply join_and_clean_submits].
  apply andb_prop in E as [->%bool_decide_eq_true _]. intros _. split; [|done].
  match goal with |- context [exec ?m w] => assert (quiet m) as Hq by solve_quiet end.
  apply (quiet_fail _ _ (Hq w)).
Qed.

Lemma execute_submits c op w b :
  eval (execute c op) w = Ok b ->
  let w' := exec (execute c op) w in
  w_fail_counter w' = w_fail_counter w /\ Forall (submitted op w w') (pass_submitted c op w).
Proof.
  unfold execute, pass_submitted, pass_threshold.
  rewrite eval_bind, exec_bind, wait_last_block_number_eval.
  pose proof (framed_wait_last_block_number op w) as Hf.
  pose proof (quiet_wait_last_block_number op w) as Hq.
  set (w1 := exec (wait_last_block_number op) w) in *.
  destruct (notified_height w) as [block_number|e]; [|done].
  destruct (u64_sub _ _ _) as [threshold|]; [|done].
  rewrite eval_bind, exec_bind, eval_tx_begin, exec_tx_begin.
  destruct (w_db_fault w1 OpBegin); [done|].
  rewrite eval_bind, exec_bind, eval_check_ready, exec_check_ready.
  autorewrite with relay_rw. rewrite (frame_table _ _ Hf), (frame_host _ _ Hf).
  destruct (w_db_fault w1 OpFetch).
  { autorewrite with relay_run. by destruct (eval (tx_rollback _) _). }
  set (w3 := add_events _ w1).
  assert (grows w w3) as Hgrows.
  { etrans; apply frame_grows; [apply Hf|apply frame_add_events]. }
  intros [Hfail Hsub]%submit_and_clean_submits. split.
  - rewrite Hfail. unfold w3. simpl. apply (quiet_fail _ _ Hq).
  - eapply Forall_impl; [apply Hsub|]. intros d.
    apply submitted_base; [done|apply growing_submit_and_clean].
Qed.

End committed_pass.

(** ** Properties of a committed pass *)

Section batch_properties.
Context `{Provider P}.
Implicit Types (w : World P) (op : DelegateUserDecryptOperation) (r : DbRow).

(** A row that a pass removed carried a hash of the deletion set. *)
Lemma deleted_row_handled c op w r :
  r ∈ w_table w -> r ∉ w_table (exec (execute c op) w) ->
  db_block_hash r ∈ pass_deletion_set c op w.
Proof.
  intros Hr Hgone. destruct (decide (db_block_hash r ∈ pass_deletion_set c op w)); [done|].
  destruct Hgone. by apply execute_keeps.
Qed.

(** C32. In every state that a batch reaches from its spawned tasks by steps
    of its tasks, in any order, each task that has left its first state has
    sent the request of its delegation since the spawn, the trace, the
    counters and the rest of the world are a frame of the world at the
    spawn, and the failure counter has grown by the number of failed tasks. *)
Theorem batch_invariant_reachable op w0 ready tasks w :
  snd (spawn_all op ready) = false ->
  rtc (batch_step op) (fst (spawn_all op ready), w0) (tasks, w) ->
  batch_inv op w0 (fst (spawn_all op ready)) tasks w.
Proof.
  intros Hspawn Hreach.
  apply (reachable_invariant op (batch_inv op w0 (fst (spawn_all op ready))) _ _ _ _
           (batch_inv_step op w0 _) Hreach).
  eapply batch_inv_init. by apply spawn_all_ready.
Qed.

(** C6. A pass that returns [Ok] has sent to the gateway chain, during the
    pass, the request of every row that the readiness filter returned as
    stable, under every schedule of the submissions, and none of the
    submissions failed: the failure counter is where it was. *)
Theorem execute_ok_submits_every_stable_row c op w b :
  eval (execute c op) w = Ok b ->
  let w' := exec (execute c op) w in
  w_fail_counter w' = w_fail_counter w /\
  Forall (submitted op w w') (pass_submitted c op w).
Proof. apply execute_submits. Qed.

(** C5. No delegation is lost: when a block hash determines the height and a
    height the block hash over a well-formed table, a row that a pass that
    returns [Ok] removed from the table, and whose recorded hash is the hash
    of the live block at its height, had its request sent to the gateway
    chain during the pass. *)
Theorem no_delegation_lost c op w b r :
  eval (execute c op) w = Ok b ->
  wf_table (w_table w) ->
  height_determines_hash (delegation_of_db_row <$> w_table w) ->
  hash_determines_height (delegation_of_db_row <$> w_table w) ->
  r ∈ w_table w -> r ∉ w_table (exec (execute c op) w) ->
  live_status (w_host_chain_provider w) (delegation_of_db_row r) = Stable ->
  submitted op w (exec (execute c op) w) (delegation_of_db_row r).
Proof.
  intros Hok Hwf Hheight Hhash Hr Hgone Hstable.
  pose proof (deleted_row_handled c op w r Hr Hgone) as Hdel.
  apply elem_of_pass_deletion_set in Hdel
    as (threshold & r' & Hthreshold & Hr' & Hn & Hh & _).
  destruct (execute_submits c op w b Hok) as [_ Hsub].
  rewrite Forall_forall in Hsub. apply Hsub.
  unfold pass_submitted. rewrite Hthreshold.
  unfold wf_table in Hwf. rewrite Forall_forall in Hwf.
  assert (db_block_number r = db_block_number r') as Hsame.
  { rewrite <- !block_number_of_db_row by auto.
    apply Hhash; [by apply list_elem_of_fmap_2..|done]. }
  assert (delegation_of_db_row r ∈ fetched_rows (w_table w) threshold) as Hd.
  { apply list_elem_of_fmap_2, elem_of_select_delayed_sorted. split; [done|lia]. }
  apply elem_of_stable_rows. split; [done|].
  rewrite memo_status_live; [done| |done].
  intros d1 d2 (r1 & -> & [? _]%elem_of_select_delayed_sorted)%list_elem_of_fmap
    (r2 & -> & [? _]%elem_of_select_delayed_sorted)%list_elem_of_fmap.
  apply Hheight; by apply list_elem_of_fmap_2.
Qed.

End batch_properties.

(** ** Progress: batches in which no task fails *)

(** Moves a fault of the store back over framed actions. *)
Ltac fault_before :=
  repeat match goal with
    | |- context [w_db_fault (exec ?m ?w0)] =>
        let Hm := fresh in
        assert (framed m) as Hm by solve_framed;
        rewrite (frame_db_fault _ _ (Hm w0)); clear Hm
    end.

(** A pass over a batch with an invariant that every step of a task keeps
    and that excludes failed tasks. *)
Section no_failure.
Context `{Provider P}.
Implicit Types (w : World P) (tx : DbTransaction).
Implicit Types (t : TaskState) (tasks : list TaskState).
Variable op : DelegateUserDecryptOperation.
Variable Inv : list TaskState -> World P -> Prop.
Hypothesis Inv_step : forall tasks w tasks' w',
  batch_step op (tasks, w) (tasks', w') -> Inv tasks w -> Inv tasks' w'.
Hypothesis Inv_no_failure : forall tasks w,
  Inv tasks w -> Forall (fun t => task_failed t = false) tasks.

Lemma not_failed_existsb tasks :
  Forall (fun t => task_failed t = false) tasks -> existsb task_failed tasks = false.
Proof. induction 1 as [|t tasks Ht _ IH]; [done|]. simpl. by rewrite Ht, IH. Qed.

Lemma Inv_reachable tasks w tasks' w' :
  rtc (batch_step op) (tasks, w) (tasks', w') -> Inv tasks w -> Inv tasks' w'.
Proof. by apply reachable_invariant. Qed.

(** The join loop ends well under every schedule. *)
Lemma join_tasks_no_failure schedule tasks w :
  Inv tasks w ->
  joined_outcome (eval (join_tasks op schedule tasks) w) = JoinAllOk /\
  Inv (joined_tasks (eval (join_tasks op schedule tasks) w))
    (exec (join_tasks op schedule tasks) w).
Proof.
  intros Hinv. split; [|by eapply Inv_reachable; [apply join_tasks_reachable|]].
  revert tasks w Hinv. induction schedule as [|[i|] schedule IH]; intros tasks w Hinv; simpl.
  - autorewrite with relay_run. simpl.
    pose proof (Inv_reachable _ _ _ _ (mapM_run_to_end_reachable op [] tasks w) Hinv) as Hend.
    simpl in Hend. by rewrite (not_failed_existsb _ (Inv_no_failure _ _ Hend)).
  - autorewrite with relay_run. apply IH.
    by eapply Inv_reachable; [apply step_task_at_reachable|].
  - unfold poll. rewrite (not_failed_existsb _ (Inv_no_failure _ _ Hinv)).
    destruct (forallb task_succeeded tasks); [done|by apply IH].
Qed.

Lemma join_and_clean_no_failure tx ready handled w :
  snd (spawn_all op ready) = false -> Inv (fst (spawn_all op ready)) w ->
  w_db_fault w OpCommit = false ->
  eval (join_and_clean op tx ready handled) w = Ok true /\
  exists tasks' w1,
    Inv tasks' w1 /\ quiet_step w1 (exec (join_and_clean op tx ready handled) w).
Proof.
  intros Hspawn Hinv Hcommit.
  destruct (join_tasks_no_failure (w_schedule w) _ w Hinv) as [Hok Hinv'].
  unfold join_and_clean. rewrite eval_bind, exec_bind, eval_gets, exec_gets. simpl.
  rewrite Hspawn, eval_bind, exec_bind, Hok. split.
  - autorewrite with relay_run. rewrite eval_tx_commit. fault_before. by rewrite Hcommit.
  - eexists _, _. split; [apply Hinv'|].
    set (w1 := exec (join_tasks _ _ _) w).
    match goal with |- context [exec ?m w1] => assert (quiet m) as Hq by solve_quiet end.
    apply Hq.
Qed.

Lemma submit_and_clean_no_failure tx ready handled w :
  snd (spawn_all op ready) = false -> Inv (fst (spawn_all op ready)) w ->
  w_db_fault w OpCommit = false ->
  eval (submit_and_clean op tx ready handled) w = Ok true /\
  exists tasks' w1,
    Inv tasks' w1 /\ quiet_step w1 (exec (submit_and_clean op tx ready handled) w).
Proof.
  intros Hspawn Hinv Hcommit. unfold submit_and_clean.
  case_match; [|by apply join_and_clean_no_failure]. split.
  - autorewrite with relay_run. by rewrite eval_tx_commit, Hcommit.
  - eexists _, w. split; [apply Hinv|].
    match goal with |- context [exec ?m w] => assert (quiet m) as Hq by solve_quiet end.
    apply Hq.
Qed.

(** The whole pass: it commits, and it ends in a world that differs by
    store calls and log lines from one in which the invariant holds. *)
Lemma execute_no_failure c w block_number threshold :
  eval (wait_last_block_number op) w = Ok block_number ->
  u64_sub c block_number (block_delay_for_delegation (conf op)) = Some threshold ->
  w_db_fault w OpBegin = false -> w_db_fault w OpFetch = false ->
  w_db_fault w OpCommit = false ->
  let ready := stable_rows (w_host_chain_provider w) (fetched_rows (w_table w) threshold) in
  snd (spawn_all op ready) = false ->
  (forall w1, quiet_step w w1 -> Inv (fst (spawn_all op ready)) w1) ->
  eval (execute c op) w = Ok true /\
  exists tasks' w1, Inv tasks' w1 /\ quiet_step w1 (exec (execute c op) w).
Proof.
  intros Hwait Hsub Hbegin Hfetch Hcommit ready Hspawn Hinv.
  destruct (execute_reaches_submit c op w _ _ Hwait Hsub Hbegin Hfetch)
    as (w1 & Hf & Hq & -> & ->).
  apply submit_and_clean_no_failure; [done|by apply Hinv|].
  by rewrite (frame_db_fault _ _ Hf).
Qed.

End no_failure.

(** ** A gateway chain that cooperates *)

Section progress.
Context `{Provider P}.
Implicit Types (w : World P) (op : DelegateUserDecryptOperation).
Implicit Types (t : TaskState) (tasks : list TaskState) (gateway : P).

(** A set of gateway states, closed under sends and receipt waits, in which
    every send is accepted or rejected as not applicable and every receipt
    arrives with a good status. *)
Record cooperative op (I : P -> Prop) : Prop := {
  coop_send gateway request :
    I gateway ->
    I (snd (provider_send_transaction gateway request)) /\
    forall e, fst (provider_send_transaction gateway request) = Err e ->
              is_Some (non_applicable_delegation e);
  coop_receipt gateway txn :
    I gateway ->
    let got := get_receipt gateway txn (as_u64 (txn_receipt_timeout_secs (conf op)))
                 (as_u64 (required_txn_confirmations (conf op))) in
    I (snd got) /\ exists receipt, fst got = Ok receipt /\ receipt_status receipt = true;
}.

(** The tasks of a batch of which none has failed, over a gateway in [I]. *)
Definition healthy (I : P -> Prop) tasks w : Prop :=
  I (w_gateway_provider w) /\ Forall (fun t => task_failed t = false) tasks.

Lemma task_step_cooperative op I t w :
  cooperative op I -> I (w_gateway_provider w) ->
  I (w_gateway_provider (exec (task_step op t) w)) /\
  (task_failed t = false -> task_failed (eval (task_step op t) w) = false).
Proof.
  intros [Hsend Hreceipt] HI. destruct t as [d request|d txn|r]; [| |done].
  - unfold task_step. rewrite eval_bind, exec_bind. unfold eval, exec.
    rewrite send_phase_run. simpl.
    destruct (Hsend (w_gateway_provider w)
                (sent_request op (w_gateway_provider w) request) HI) as [HI' Herr].
    destruct (provider_send_transaction _ _) as [[txn|e] gateway']; simpl in *; [done|].
    split; [done|]. intros _. destruct (Herr e eq_refl) as [err Herr'].
    unfold classify_send_error. by rewrite Herr'.
  - unfold task_step. rewrite eval_bind, exec_bind. unfold eval, exec.
    rewrite receipt_phase_run. simpl.
    destruct (Hreceipt (w_gateway_provider w) txn HI) as [HI' (receipt & Hgot & Hstatus)].
    simpl in *. split; [done|]. intros _. unfold classify_receipt.
    by rewrite Hgot, Hstatus.
Qed.

(** Every step of the batch keeps the batch healthy. *)
Lemma healthy_step op I tasks w tasks' w' :
  cooperative op I -> batch_step op (tasks, w) (tasks', w') ->
  healthy I tasks w -> healthy I tasks' w'.
Proof.
  intros Hcoop Hstep [HI Hall]. inversion Hstep as [i t ? ? Hi]; subst.
  destruct (task_step_cooperative op I t w Hcoop HI) as [HI' Ht].
  split; [done|]. apply Forall_insert; [done|].
  apply Ht. by eapply (Forall_lookup_1 _ _ _ _ Hall).
Qed.

Lemma spawn_all_total op ready :
  Forall (fun d => is_Some (delegation_request op d)) ready ->
  snd (spawn_all op ready) = false /\
  Forall (fun t => task_failed t = false) (fst (spawn_all op ready)).
Proof.
  induction 1 as [|d ready [request Hd] _ [IH1 IH2]]; simpl; [done|].
  rewrite Hd. simpl. split; [done|by constructor].
Qed.

Lemma execute_commits c op I w block_number threshold :
  cooperative op I -> I (w_gateway_provider w) ->
  eval (wait_last_block_number op) w = Ok block_number ->
  u64_sub c block_number (block_delay_for_delegation (conf op)) = Some threshold ->
  w_db_fault w OpBegin = false -> w_db_fault w OpFetch = false ->
  w_db_fault w OpCommit = false ->
  Forall (fun d => is_Some (delegation_request op d))
    (stable_rows (w_host_chain_provider w) (fetched_rows (w_table w) threshold)) ->
  eval (execute c op) w = Ok true.
Proof.
  intros Hcoop HI Hwait Hsub Hbegin Hfetch Hcommit [Hspawn Hall]%spawn_all_total.
  apply (execute_no_failure op (healthy I)) with block_number threshold; try done.
  - intros tasks w1 tasks' w1'. by apply healthy_step.
  - by intros tasks w1 [_ ?].
  - intros w1 Hq. split; [by rewrite (quiet_gateway _ _ Hq)|done].
Qed.

Lemma pass_threshold_wait c op w block_number threshold :
  eval (wait_last_block_number op) w = Ok block_number ->
  u64_sub c block_number (block_delay_for_delegation (conf op)) = Some threshold ->
  pass_threshold c op w = Some threshold.
Proof.
  intros Hwait Hsub. unfold pass_threshold.
  by rewrite <- (wait_last_block_number_eval op), Hwait.
Qed.

(** C7. Progress: over a gateway chain that accepts or benignly rejects
    every send and confirms every receipt, a pass whose notifier gives a
    height at or above the delay, whose store serves begin, fetch and commit,
    and whose stable rows have well-formed addresses returns [Ok(true)] under
    every schedule of its submissions. *)
Theorem execute_commits_when_gateway_cooperates c op I w block_number threshold :
  cooperative op I -> I (w_gateway_provider w) ->
  eval (wait_last_block_number op) w = Ok block_number ->
  u64_sub c block_number (block_delay_for_delegation (conf op)) = Some threshold ->
  w_db_fault w OpBegin = false -> w_db_fault w OpFetch = false ->
  w_db_fault w OpCommit = false ->
  Forall (fun d => is_Some (delegation_request op d))
    (stable_rows (w_host_chain_provider w) (fetched_rows (w_table w) threshold)) ->
  eval (execute c op) w = Ok true.
Proof. apply execute_commits. Qed.

(** C8. One good pass drains the queue up to the threshold: over a
    cooperative gateway, with a store that serves the pass, stable rows
    whose addresses are 20 bytes long and a host chain that resolves the
    height of every row up to the threshold, every row that is left in the
    table after the pass is above the threshold. *)
Theorem cooperative_pass_drains_ready_rows c op I w block_number threshold r :
  cooperative op I -> I (w_gateway_provider w) ->
  eval (wait_last_block_number op) w = Ok block_number ->
  u64_sub c block_number (block_delay_for_delegation (conf op)) = Some threshold ->
  (forall o, w_db_fault w o = false) ->
  Forall (fun d => is_Some (delegation_request op d))
    (stable_rows (w_host_chain_provider w) (fetched_rows (w_table w) threshold)) ->
  (forall r, r ∈ w_table w -> (db_block_number r <= as_i64 threshold)%Z ->
     live_status (w_host_chain_provider w) (delegation_of_db_row r) <> Unkown) ->
  r ∈ w_table (exec (execute c op) w) -> (as_i64 threshold < db_block_number r)%Z.
Proof.
  intros Hcoop HI Hwait Hsub Hfault Hready Hresolved.
  rewrite execute_table, (execute_commits c op I w block_number threshold) by done.
  unfold pass_table, pass_deletion_set.
  rewrite (pass_threshold_wait c op w block_number threshold), Hfault by done.
  intros [Hr Hh]%elem_of_delete_block_hashes.
  destruct (decide (db_block_number r <= as_i64 threshold)%Z) as [Hn|]; [|lia].
  destruct Hh. apply elem_of_handled_hashes. exists (delegation_of_db_row r).
  assert (delegation_of_db_row r ∈ fetched_rows (w_table w) threshold) as Hd.
  { by apply list_elem_of_fmap_2, elem_of_select_delayed_sorted. }
  split_and!; [done..|]. rewrite memo_status_unknown by done. by apply Hresolved.
Qed.

End progress.

(** ** A gateway chain on which the delegations are already in place *)

Section idempotence.
Context `{Provider P}.
Implicit Types (w : World P) (op : DelegateUserDecryptOperation).
Implicit Types (t : TaskState) (tasks : list TaskState) (gateway : P).

(** A set of gateway states, closed under sends, in which every send is
    rejected with one of the two benign interface errors. *)
Definition rejecting (I : P -> Prop) : Prop :=
  forall gateway request,
    I gateway ->
    I (snd (provider_send_transaction gateway request)) /\
    exists e, fst (provider_send_transaction gateway request) = Err e /\
              is_Some (non_applicable_delegation e).

(** A task that has not sent, or has ended well without a receipt. *)
Definition at_rest t : Prop :=
  match t with TaskReady _ _ | TaskDone (Ok _) => True | _ => False end.

(** The tasks of a batch over a gateway in [I], with the success counter
    where it was in [w0]. *)
Definition resting (I : P -> Prop) (w0 : World P) tasks w : Prop :=
  I (w_gateway_provider w) /\ w_success_counter w = w_success_counter w0 /\
  Forall at_rest tasks.

Lemma task_step_rejecting op I t w :
  rejecting I -> I (w_gateway_provider w) -> at_rest t ->
  I (w_gateway_provider (exec (task_step op t) w)) /\
  w_success_counter (exec (task_step op t) w) = w_success_counter w /\
  at_rest (eval (task_step op t) w).
Proof.
  intros Hsend HI Ht. destruct t as [d request|d txn|r]; [|done..].
  unfold task_step. rewrite eval_bind, exec_bind. unfold eval, exec.
  rewrite send_phase_run. simpl.
  destruct (Hsend (w_gateway_provider w)
              (sent_request op (w_gateway_provider w) request) HI)
    as [HI' (e & He & err & Herr)].
  destruct (provider_send_transaction _ _) as [[txn|e'] gateway']; simpl in *; [done|].
  injection He as ->. unfold classify_send_error. rewrite Herr. simpl.
  split_and!; [done|lia|done].
Qed.

Lemma resting_step op I w0 tasks w tasks' w' :
  rejecting I -> batch_step op (tasks, w) (tasks', w') ->
  resting I w0 tasks w -> resting I w0 tasks' w'.
Proof.
  intros Hrej Hstep (HI & Hsuccess & Hall). inversion Hstep as [i t ? ? Hi]; subst.
  destruct (task_step_rejecting op I t w Hrej HI) as (HI' & Hsuccess' & Ht).
  { by eapply (Forall_lookup_1 _ _ _ _ Hall). }
  split_and!; [done|congruence|by apply Forall_insert].
Qed.

Lemma resting_no_failure I w0 tasks w :
  resting I w0 tasks w -> Forall (fun t => task_failed t = false) tasks.
Proof. intros (_ & _ & Hall). eapply Forall_impl; [done|]. by intros [| |[]]. Qed.

Lemma spawn_all_at_rest op ready : Forall at_rest (fst (spawn_all op ready)).
Proof.
  induction ready as [|d ready IH]; simpl; [done|].
  destruct (delegation_request op d); simpl; [by constructor|done].
Qed.

(** C33. Idempotence: when the gateway chain answers every send with one of
    the two benign interface errors, as it does when the delegations of the
    batch are already in place, a pass whose notifier gives a height at or
    above the delay, whose store serves begin, fetch and commit and whose
    stable rows have 20-byte addresses returns [Ok(true)] under every
    schedule, deletes the rows it handled and counts neither a success nor a
    failure. *)
Theorem resubmission_is_idempotent c op I w block_number threshold :
  rejecting I -> I (w_gateway_provider w) ->
  eval (wait_last_block_number op) w = Ok block_number ->
  u64_sub c block_number (block_delay_for_delegation (conf op)) = Some threshold ->
  w_db_fault w OpBegin = false -> w_db_fault w OpFetch = false ->
  w_db_fault w OpCommit = false ->
  Forall (fun d => is_Some (delegation_request op d))
    (stable_rows (w_host_chain_provider w) (fetched_rows (w_table w) threshold)) ->
  let w' := exec (execute c op) w in
  eval (execute c op) w = Ok true /\
  w_table w' = delete_block_hashes (w_table w) (pass_deletion_set c op w) /\
  w_success_counter w' = w_success_counter w /\ w_fail_counter w' = w_fail_counter w.
Proof.
  intros Hrej HI Hwait Hsub Hbegin Hfetch Hcommit [Hspawn _]%spawn_all_total.
  destruct (execute_no_failure op (resting I w) (fun _ _ _ _ => resting_step op I w _ _ _ _ Hrej)
              (resting_no_failure I w) c w block_number threshold)
    as (Hok & tasks' & w1 & (_ & Hsuccess & _) & Hq); try done.
  { intros w1 Hq. split_and!; [by rewrite (quiet_gateway _ _ Hq)| |apply spawn_all_at_rest].
    apply (quiet_success _ _ Hq). }
  split_and!; [done| | |].
  - by rewrite execute_table, Hok.
  - by rewrite (quiet_success _ _ Hq).
  - by destruct (execute_submits c op w true Hok).
Qed.

End idempotence.

(** ** Checks at concrete inputs *)

(** Two rows of one block with counters 1 and 2, a gateway that accepts
    everything, and a schedule. *)
Definition world_two_ok (schedule : list SchedItem) : World MockProvider :=
  sample_world chain_100 gateway_ok
    [sample_row 100 hash_H 1; sample_row 100 hash_H 2] (oracle_of notify_100 schedule).

Lemma execute_ok_submits_every_stable_row_witness :
  let w' := exec (execute true sample_op) (world_two_ok [Run 1%nat; Poll; Run 0%nat]) in
  w_fail_counter w' = w_fail_counter (world_two_ok [Run 1%nat; Poll; Run 0%nat]) /\
  Forall (submitted sample_op (world_two_ok [Run 1%nat; Poll; Run 0%nat]) w')
    (pass_submitted true sample_op (world_two_ok [Run 1%nat; Poll; Run 0%nat])).
Proof.
  apply (execute_ok_submits_every_stable_row true sample_op
           (world_two_ok [Run 1%nat; Poll; Run 0%nat]) true).
  reflexivity.
Defined.

Lemma batch_invariant_reachable_witness :
  let ready := fetched_rows (w_table (world_two_ok [])) 100 in
  let tasks := fst (spawn_all sample_op ready) in
  batch_inv sample_op (world_two_ok []) tasks
    (joined_tasks (eval (join_tasks sample_op [Run 1%nat; Run 0%nat; Run 1%nat] tasks) (world_two_ok [])))
    (exec (join_tasks sample_op [Run 1%nat; Run 0%nat; Run 1%nat] tasks) (world_two_ok [])).
Proof.
  apply (batch_invariant_reachable sample_op (world_two_ok [])
           (fetched_rows (w_table (world_two_ok [])) 100));
    [reflexivity|apply join_tasks_reachable].
Defined.

Lemma no_delegation_lost_witness :
  submitted sample_op world_A (exec (execute true sample_op) world_A)
    (delegation_of_db_row (sample_row 100 hash_H 1)).
Proof.
  apply (no_delegation_lost true sample_op world_A true (sample_row 100 hash_H 1));
    [reflexivity|by_compute..|reflexivity].
Defined.

(** The states of the scripted gateway whose scripts are used up: they accept
    every send and confirm every receipt. *)
Definition scripts_used_up (gateway : MockProvider) : Prop :=
  mock_send_answers gateway = [] /\ mock_receipt_answers gateway = [] /\
  mock_send_default gateway = accepted.

Lemma scripts_used_up_cooperative op : cooperative op scripts_used_up.
Proof.
  split.
  - intros gateway request (Hsend & Hreceipt & Hdefault).
    unfold provider_send_transaction. simpl.
    unfold mock_send. rewrite Hsend, Hdefault. by split.
  - intros gateway txn (Hsend & Hreceipt & Hdefault). simpl. unfold mock_get_receipt.
    rewrite Hreceipt. split; [done|by eexists].
Qed.

Lemma execute_commits_when_gateway_cooperates_witness :
  eval (execute true sample_op) (world_two_ok [Run 1%nat; Poll; Run 0%nat; Poll]) = Ok true.
Proof.
  apply (execute_commits_when_gateway_cooperates true sample_op scripts_used_up
           (world_two_ok [Run 1%nat; Poll; Run 0%nat; Poll]) 100 100
           (scripts_used_up_cooperative sample_op));
    [done|reflexivity..|by_compute].
Defined.

Lemma cooperative_pass_drains_ready_rows_witness :
  (as_i64 200 < db_block_number (sample_row 201 hash_H' 1))%Z.
Proof.
  apply (cooperative_pass_drains_ready_rows true op_delay_5 scripts_used_up world_C 205%Z 200%Z
           (sample_row 201 hash_H' 1) (scripts_used_up_cooperative op_delay_5));
    [done|reflexivity|reflexivity|done|by_compute| |by_compute].
  apply (Forall_forall
           (fun r => (db_block_number r <= as_i64 200)%Z ->
                     live_status chain_205 (delegation_of_db_row r) <> Unkown)).
  by_compute.
Defined.

(** A gateway on which every delegation is already in place. *)
Definition world_already_delegated : World MockProvider :=
  sample_world chain_100 gateway_rejecting
    [sample_row 100 hash_H 1; sample_row 100 hash_H 2] (oracle_of notify_100 [Run 1%nat; Poll]).

Definition always_rejects (gateway : MockProvider) : Prop :=
  mock_send_answers gateway = [] /\ mock_send_default gateway = already_delegated.

Lemma always_rejects_rejecting : rejecting always_rejects.
Proof.
  intros gateway request [Hsend Hdefault]. unfold provider_send_transaction. simpl.
  unfold mock_send. rewrite Hsend, Hdefault. split; [done|]. eexists. split; [done|].
  by_compute.
Qed.

Lemma resubmission_is_idempotent_witness :
  let w' := exec (execute true sample_op) world_already_delegated in
  eval (execute true sample_op) world_already_delegated = Ok true /\
  w_table w' =
    delete_block_hashes (w_table world_already_delegated)
      (pass_deletion_set true sample_op world_already_delegated) /\
  w_success_counter w' = w_success_counter world_already_delegated /\
  w_fail_counter w' = w_fail_counter world_already_delegated.
Proof.
  apply (resubmission_is_idempotent true sample_op always_rejects world_already_delegated
           100 100 always_rejects_rejecting);
    [done|reflexivity..|by_compute].
Defined.
