(* ===== verification/Sends.v ===== *)
(** * Sends: the requests a pass sends to the gateway chain, their order and
    their number.

    [sent_during] reads the requests an action sends off the trace.  The
    steps of a pass that send nothing ([silent]) are separated from the
    steps of the spawned tasks, each of which sends once, on its first step.
    From this: the order of the requests is the order of the schedule; the
    first failure that the join loop sees drops the tasks that have not
    sent; and a pass sends at most one request per stable row, exactly one
    each when it returns [Ok]. *)

From Stdlib Require Import ZArith Lia List.
From Stdlib.Strings Require Import Byte.
From stdpp Require Import base option list relations.
From S2P Require Import Prelude Types Mock Store Classifier Submission Orchestrator Batch.

#[local] Open Scope relay_scope.

(** ** The requests a batch sends, in order *)

Section sends.
Context `{Provider P}.
Implicit Types (w : World P) (op : DelegateUserDecryptOperation) (tx : DbTransaction).
Implicit Types (t : TaskState) (tasks : list TaskState).

(** The requests sent to the gateway chain, in the order of the trace. *)
Definition gateway_sends (evs : list Event) : list TransactionRequest :=
  omap (fun e => match e with EvGatewaySend request => Some request | _ => None end) evs.

(** The requests an action sends. *)
Definition sent_during {A} (m : M (World P) A) w : list TransactionRequest :=
  gateway_sends (new_events w (exec m w)).

Lemma new_events_trans w0 w1 w2 :
  grows w0 w1 -> grows w1 w2 -> new_events w0 w2 = new_events w0 w1 ++ new_events w1 w2.
Proof.
  unfold grows, new_events. intros [k ->] [k' ->].
  by rewrite (drop_app_length (_ ++ k)), <- app_assoc, !drop_app_length.
Qed.

Lemma sent_during_bind {A B} (m : M (World P) A) (k : A -> M (World P) B) w :
  growing m -> (forall a, growing (k a)) ->
  sent_during (bind m k) w = sent_during m w ++ sent_during (k (eval m w)) (exec m w).
Proof.
  intros Hm Hk. unfold sent_during. rewrite exec_bind.
  rewrite (new_events_trans w (exec m w)) by (apply Hm || apply Hk).
  apply omap_app.
Qed.

Lemma sent_during_ret {A} (a : A) w : sent_during (ret a) w = [].
Proof. unfold sent_during, new_events. rewrite exec_ret. by rewrite drop_all. Qed.

(** The first step of a task sends its request and nothing else. *)
Lemma sent_during_task_ready op d request w :
  sent_during (task_step op (TaskReady d request)) w =
  [sent_request op (w_gateway_provider w) request].
Proof.
  unfold sent_during, task_step. rewrite exec_bind. unfold eval, exec.
  rewrite send_phase_run. simpl.
  destruct (provider_send_transaction _ _) as [[txn|e] gateway']; simpl;
    unfold apply_outcome; by rewrite new_events_add_events.
Qed.

Lemma sent_during_step_ready op i tasks d request w :
  tasks !! i = Some (TaskReady d request) ->
  sent_during (step_task_at op i tasks) w = [sent_request op (w_gateway_provider w) request] /\
  eval (step_task_at op i tasks) w =
    <[i := eval (task_step op (TaskReady d request)) w]> tasks.
Proof.
  intros Hi. unfold step_task_at. rewrite Hi. split; [|by rewrite eval_bind].
  rewrite sent_during_bind by solve_growing.
  by rewrite sent_during_task_ready, sent_during_ret.
Qed.

Lemma growing_join_tasks op schedule tasks : growing (join_tasks op schedule tasks).
Proof. apply growing_framed, framed_join_tasks. Qed.

Lemma growing_step_task_at op i tasks : growing (step_task_at op i tasks).
Proof. apply growing_framed, framed_step_task_at. Qed.

(** A send that fails with an error that is not benign ends the task. *)
Lemma task_step_ready_fails op d request w e :
  fst (provider_send_transaction (w_gateway_provider w)
         (sent_request op (w_gateway_provider w) request)) = Err e ->
  non_applicable_delegation e = None ->
  eval (task_step op (TaskReady d request)) w = TaskDone (Err (ErrRpc e)).
Proof.
  intros He Hnone. unfold task_step. rewrite eval_bind. unfold eval, exec.
  rewrite send_phase_run. simpl in *. rewrite He. simpl.
  unfold classify_send_error. rewrite Hnone. by destruct (unlimited_retry_error e).
Qed.

(** The join loop in which the first task runs, fails, and is seen by the
    next poll. *)
Lemma join_tasks_first_fails op d request tasks rest w e :
  fst (provider_send_transaction (w_gateway_provider w)
         (sent_request op (w_gateway_provider w) request)) = Err e ->
  non_applicable_delegation e = None ->
  eval (join_tasks op (Run 0%nat :: Poll :: rest) (TaskReady d request :: tasks)) w =
    mkJoinResult JoinFailed (TaskDone (Err (ErrRpc e)) :: tasks) rest /\
  sent_during (join_tasks op (Run 0%nat :: Poll :: rest) (TaskReady d request :: tasks)) w =
    [sent_request op (w_gateway_provider w) request].
Proof.
  intros He Hnone.
  destruct (sent_during_step_ready op 0 (TaskReady d request :: tasks) d request w eq_refl)
    as [Hsent Heval].
  rewrite (task_step_ready_fails op d request w e He Hnone) in Heval. simpl in Heval.
  cbn [join_tasks]. split.
  - by rewrite eval_bind, Heval.
  - rewrite sent_during_bind, Hsent, Heval by (intros; apply growing_framed; solve_framed).
    simpl. by rewrite sent_during_ret.
Qed.

Lemma sent_during_tx_rollback tx w : sent_during (tx_rollback tx) w = [].
Proof.
  unfold sent_during, tx_rollback. autorewrite with relay_run.
  by rewrite new_events_add_events.
Qed.

(** C34. The gateway chain receives the requests of a batch in the order in
    which the schedule runs their tasks, not in the order of the store: of
    two tasks that have not sent yet, the one that the schedule runs first
    sends first, whatever their positions in the batch. *)
Theorem submission_order_follows_schedule op tasks i j di ri dj rj schedule w :
  tasks !! i = Some (TaskReady di ri) -> tasks !! j = Some (TaskReady dj rj) -> i <> j ->
  exists gateway rest,
    sent_during (join_tasks op (Run i :: Run j :: schedule) tasks) w =
    sent_request op (w_gateway_provider w) ri :: sent_request op gateway rj :: rest.
Proof.
  intros Hi Hj Hij.
  destruct (sent_during_step_ready op i tasks di ri w Hi) as [Hsi Hei].
  set (w1 := exec (step_task_at op i tasks) w).
  assert (eval (step_task_at op i tasks) w !! j = Some (TaskReady dj rj)) as Hj1.
  { by rewrite Hei, list_lookup_insert_ne. }
  destruct (sent_during_step_ready op j _ dj rj w1 Hj1) as [Hsj _].
  cbn [join_tasks]. rewrite sent_during_bind, Hsi by (intros; apply growing_framed; solve_framed).
  cbn [join_tasks]. rewrite sent_during_bind by (intros; apply growing_framed; solve_framed).
  fold w1. rewrite Hsj. by eexists _, _.
Qed.

(** A pass whose first task fails at once: what it returns, and what it
    sends, the request of the first row and then whatever the other tasks
    send while the rollback is awaited. *)
Lemma join_and_clean_first_fails op tx d request ready handled rest w e :
  w_schedule w = Run 0%nat :: Poll :: rest ->
  delegation_request op d = Some request ->
  Forall (fun d => is_Some (delegation_request op d)) ready ->
  fst (provider_send_transaction (w_gateway_provider w)
         (sent_request op (w_gateway_provider w) request)) = Err e ->
  non_applicable_delegation e = None ->
  let tasks := fst (spawn_all op ready) in
  let w1 := exec (tx_rollback tx)
              (exec (join_tasks op (Run 0%nat :: Poll :: rest) (TaskReady d request :: tasks)) w) in
  is_err (eval (join_and_clean op tx (d :: ready) handled) w) = true /\
  sent_during (join_and_clean op tx (d :: ready) handled) w =
    sent_request op (w_gateway_provider w) request ::
    sent_during (run_until_drop op rest (TaskDone (Err (ErrRpc e)) :: tasks)) w1.
Proof.
  intros Hschedule Hd [Hspawn _]%spawn_all_total He Hnone tasks w1.
  destruct (join_tasks_first_fails op d request tasks rest w e He Hnone) as [Hjoin Hsent].
  assert (spawn_all op (d :: ready) = (TaskReady d request :: tasks, false))
    as Hs by (simpl; rewrite Hd; simpl; by rewrite Hspawn).
  unfold join_and_clean. rewrite Hs. cbn [fst snd]. split.
  - rewrite eval_bind, eval_gets, exec_gets, Hschedule, eval_bind, Hjoin.
    cbn [joined_outcome]. autorewrite with relay_run. by destruct (eval (tx_rollback tx) _).
  - unfold sent_during at 1. rewrite exec_bind, eval_gets, exec_gets, Hschedule.
    change (gateway_sends (new_events w (exec ?m w))) with (sent_during m w).
    rewrite sent_during_bind, Hsent, Hjoin by solve_growing.
    cbn [joined_outcome joined_schedule joined_tasks].
    rewrite sent_during_bind, sent_during_tx_rollback by solve_growing.
    rewrite sent_during_bind by solve_growing. fold w1.
    rewrite sent_during_bind, sent_during_ret by solve_growing.
    rewrite eval_ret. destruct (eval (tx_rollback tx) _); by rewrite sent_during_ret, !app_nil_r.
Qed.

(** C35. The first failure ends the batch.  When the first task runs, its
    send fails with an error that is not benign, the join loop sees it, and
    no other task runs before [execute] returns, the pass fails with the
    request of the first row as the only one sent: the tasks of all other
    rows of the batch, however many, are dropped without having sent. *)
Theorem first_failure_drops_siblings op tx d request ready handled w e :
  w_schedule w = [Run 0%nat; Poll] ->
  delegation_request op d = Some request ->
  Forall (fun d => is_Some (delegation_request op d)) ready ->
  fst (provider_send_transaction (w_gateway_provider w)
         (sent_request op (w_gateway_provider w) request)) = Err e ->
  non_applicable_delegation e = None ->
  is_err (eval (join_and_clean op tx (d :: ready) handled) w) = true /\
  sent_during (join_and_clean op tx (d :: ready) handled) w =
    [sent_request op (w_gateway_provider w) request].
Proof.
  intros Hschedule Hd Hready He Hnone.
  destruct (join_and_clean_first_fails op tx d request ready handled [] w e)
    as [Herr ->]; [done..|].
  split; [done|]. cbn [run_until_drop]. by rewrite sent_during_ret.
Qed.

(** C38. The tasks of a failed batch go on until [execute] returns.  When
    the first task fails as above and the task of the second row runs while
    the rollback is awaited, its request is sent although the pass fails:
    the table is left as it was, so both rows stay and the second is
    submitted again by the next pass. *)
Theorem sibling_sends_during_rollback op tx d request d' request' ready handled w e :
  w_schedule w = [Run 0%nat; Poll; Run 1%nat] ->
  delegation_request op d = Some request ->
  delegation_request op d' = Some request' ->
  Forall (fun d => is_Some (delegation_request op d)) ready ->
  fst (provider_send_transaction (w_gateway_provider w)
         (sent_request op (w_gateway_provider w) request)) = Err e ->
  non_applicable_delegation e = None ->
  exists gateway,
    is_err (eval (join_and_clean op tx (d :: d' :: ready) handled) w) = true /\
    sent_during (join_and_clean op tx (d :: d' :: ready) handled) w =
      [sent_request op (w_gateway_provider w) request; sent_request op gateway request'] /\
    w_table (exec (join_and_clean op tx (d :: d' :: ready) handled) w) = w_table w.
Proof.
  intros Hschedule Hd Hd' Hready He Hnone.
  destruct (join_and_clean_first_fails op tx d request (d' :: ready) handled [Run 1%nat] w e)
    as [Herr ->]; [by try constructor..|].
  eexists. split_and!; [done| |].
  - cbn [run_until_drop spawn_all]. rewrite Hd'. cbn [fst].
    rewrite sent_during_bind by solve_growing.
    destruct (sent_during_step_ready op 1
                (TaskDone (Err (ErrRpc e)) :: TaskReady d' request' :: fst (spawn_all op ready))
                d' request' (exec (tx_rollback tx)
                   (exec (join_tasks op [Run 0%nat; Poll; Run 1%nat]
                      (TaskReady d request :: TaskReady d' request' :: fst (spawn_all op ready)))
                      w)) eq_refl) as [-> _].
    by rewrite sent_during_ret.
  - by apply frame_table, failure_atomic_join_and_clean.
Qed.

End sends.

(** ** The steps of a pass that send nothing *)

Section silent.
Context `{Provider P}.
Implicit Types (w : World P) (op : DelegateUserDecryptOperation) (tx : DbTransaction).

(** A step that adds events to the trace, none of them a send. *)
Definition silent_step (w w' : World P) : Prop :=
  grows w w' /\ gateway_sends (new_events w w') = [].

#[export] Instance silent_step_preorder : PreOrder silent_step.
Proof.
  split.
  - intros w. split; [done|]. unfold new_events. by rewrite drop_all.
  - intros w1 w2 w3 [Hg1 Hs1] [Hg2 Hs2]. split; [by etrans|].
    rewrite (new_events_trans w1 w2 w3) by done. unfold gateway_sends in *.
    by rewrite omap_app, Hs1, Hs2.
Qed.

Definition silent {A} (m : M (World P) A) : Prop := preserves silent_step m.

Lemma silent_sent_during {A} (m : M (World P) A) w : silent m -> sent_during m w = [].
Proof. intros Hm. apply Hm. Qed.

Lemma silent_growing {A} (m : M (World P) A) : silent m -> growing m.
Proof. intros Hm w. apply Hm. Qed.

Lemma silent_add_events evs w : gateway_sends evs = [] -> silent_step w (add_events evs w).
Proof.
  intros Hevs. split; [by apply prefix_app_r|]. by rewrite new_events_add_events.
Qed.

Lemma silent_ret {A} (a : A) : silent (ret (S:=World P) a).
Proof. apply (preserves_ret silent_step). Qed.

Lemma silent_gets {A} (f : World P -> A) : silent (gets f).
Proof. apply (preserves_gets silent_step). Qed.

Lemma silent_bind {A B} (m : M (World P) A) (k : A -> M (World P) B) :
  silent m -> (forall a, silent (k a)) -> silent (bind m k).
Proof. apply (preserves_bind silent_step). Qed.

Lemma silent_foldM {A B} (f : B -> A -> M (World P) B) l b :
  (forall b x, silent (f b x)) -> silent (foldM f l b).
Proof. apply (preserves_foldM silent_step). Qed.

(** An event that is not a send. *)
Lemma silent_emit e : gateway_sends [e] = [] -> silent (emit (P:=P) e).
Proof. intros He w. by apply silent_add_events. Qed.

Lemma silent_log l : silent (log (P:=P) l).
Proof. intros w. by apply silent_add_events. Qed.

Lemma silent_modify_set_table t : silent (modify (set_table (P:=P) t)).
Proof.
  intros w. rewrite exec_modify. split; [unfold grows; reflexivity|].
  unfold new_events. simpl. by rewrite drop_all.
Qed.

End silent.

Create HintDb silent discriminated.
#[export] Hint Resolve @silent_ret @silent_gets @silent_log @silent_modify_set_table : silent.

(** Proves [silent] of a composite action from its parts. *)
Ltac solve_silent :=
  repeat first
    [ solve [auto 2 with silent]
    | apply silent_emit; reflexivity
    | apply silent_bind
    | apply silent_foldM
    | progress intros
    | case_match ].

Section silent_operations.
Context `{Provider P}.
Implicit Types (w : World P) (op : DelegateUserDecryptOperation) (tx : DbTransaction).

Lemma silent_wait_last_block_number op : silent (wait_last_block_number op).
Proof. unfold wait_last_block_number, from_host_chain. solve_silent. Qed.

Lemma silent_tx_begin : silent (tx_begin (P:=P)).
Proof. unfold tx_begin. solve_silent. Qed.

Lemma silent_tx_commit tx : silent (tx_commit (P:=P) tx).
Proof. unfold tx_commit. solve_silent. Qed.

Lemma silent_tx_rollback tx : silent (tx_rollback (P:=P) tx).
Proof. unfold tx_rollback. solve_silent. Qed.

Lemma silent_clean_delegation tx hs : silent (clean_delegation (P:=P) tx hs).
Proof. unfold clean_delegation. solve_silent. Qed.

Lemma silent_tx_check_ready_delegations tx b : silent (tx_check_ready_delegations tx b).
Proof.
  unfold tx_check_ready_delegations, delayed_sorted_delegation, check_fetched,
    check_delegation, block_status_for, get_block_hash.
  solve_silent.
Qed.

End silent_operations.

#[export] Hint Resolve @silent_wait_last_block_number @silent_tx_begin @silent_tx_commit
  @silent_tx_rollback @silent_clean_delegation @silent_tx_check_ready_delegations : silent.

(** ** One request per task *)

Section counting.
Context `{Provider P}.
Implicit Types (w : World P) (op : DelegateUserDecryptOperation) (tx : DbTransaction).
Implicit Types (t : TaskState) (tasks : list TaskState).

(** 1 for a task that has left its first state. *)
Definition started t : nat := match t with TaskReady _ _ => 0 | _ => 1 end.

Definition started_count tasks : nat := sum_list_with started tasks.

(** The invariant of a batch of [n] tasks: since [w0] it has sent as many
    requests as it has tasks that have left their first state. *)
Definition sends_inv (n : nat) (w0 : World P) tasks w : Prop :=
  grows w0 w /\ length tasks = n /\
  length (gateway_sends (new_events w0 w)) = started_count tasks.

Lemma sent_during_task_sent op d txn w : sent_during (task_step op (TaskSent d txn)) w = [].
Proof.
  unfold sent_during, task_step. rewrite exec_bind. unfold eval, exec.
  rewrite receipt_phase_run. simpl. unfold apply_outcome. by rewrite new_events_add_events.
Qed.

(** A task sends on the step that takes it out of its first state, and on
    no other. *)
Lemma task_step_sends op t w :
  (length (sent_during (task_step op t) w) + started t =
   started (eval (task_step op t) w))%nat.
Proof.
  destruct t as [d request|d txn|r].
  - rewrite sent_during_task_ready.
    destruct (task_step_ready op d request w) as (_ & _ & Hshape). by destruct (eval _ _).
  - rewrite sent_during_task_sent. by destruct (task_step_sent op d txn w) as (r & -> & _).
  - change (task_step op (TaskDone r)) with (ret (S:=World P) (TaskDone r)).
    by rewrite sent_during_ret.
Qed.

Lemma started_count_insert tasks i t t' :
  tasks !! i = Some t ->
  (started_count (<[i := t']> tasks) + started t = started_count tasks + started t')%nat.
Proof.
  unfold started_count. revert i.
  induction tasks as [|t0 tasks IH]; intros [|i] Hi; simplify_eq/=; [lia|].
  specialize (IH i Hi). lia.
Qed.

Lemma started_count_le tasks : (started_count tasks <= length tasks)%nat.
Proof.
  unfold started_count. induction tasks as [|[] tasks IH]; simpl; lia.
Qed.

Lemma started_count_succeeded tasks :
  Forall (fun t => task_succeeded t = true) tasks -> started_count tasks = length tasks.
Proof.
  unfold started_count. induction 1 as [|t tasks Ht _ IH]; [done|].
  simpl. rewrite IH. by destruct t.
Qed.

Lemma sends_inv_step op n w0 tasks w tasks' w' :
  batch_step op (tasks, w) (tasks', w') -> sends_inv n w0 tasks w -> sends_inv n w0 tasks' w'.
Proof.
  inversion 1 as [i t ? ? Hi]; subst. intros (Hg & Hlen & Hsends).
  pose proof (growing_framed _ (framed_task_step op t) w) as Hg'.
  split_and!; [by etrans|by rewrite length_insert|].
  rewrite (new_events_trans w0 w) by done. unfold gateway_sends in *.
  rewrite omap_app, length_app.
  pose proof (task_step_sends op t w) as Hstep.
  pose proof (started_count_insert tasks i t (eval (task_step op t) w) Hi).
  unfold sent_during, gateway_sends in Hstep. lia.
Qed.

Lemma sends_inv_silent n w0 tasks w w' :
  silent_step w w' -> sends_inv n w0 tasks w -> sends_inv n w0 tasks w'.
Proof.
  intros [Hg' Hs] (Hg & Hlen & Hsends). split_and!; [by etrans|done|].
  rewrite (new_events_trans w0 w) by done. unfold gateway_sends in *.
  by rewrite omap_app, Hs, app_nil_r.
Qed.

Lemma sends_inv_reachable op n w0 tasks w tasks' w' :
  rtc (batch_step op) (tasks, w) (tasks', w') ->
  sends_inv n w0 tasks w -> sends_inv n w0 tasks' w'.
Proof.
  apply (reachable_invariant op (sends_inv n w0)). intros ? ? ? ?. apply sends_inv_step.
Qed.

(** The spawned tasks: none has sent, and they are as many as the rows
    unless building a request panicked. *)
Lemma sends_inv_spawn_all op ready w :
  sends_inv (length (fst (spawn_all op ready))) w (fst (spawn_all op ready)) w /\
  (length (fst (spawn_all op ready)) <= length ready)%nat /\
  (snd (spawn_all op ready) = false -> length (fst (spawn_all op ready)) = length ready).
Proof.
  unfold sends_inv, new_events, started_count. rewrite drop_all. simpl.
  induction ready as [|d ready (IH1 & IH2 & IH3)]; simpl; [done|].
  destruct (delegation_request op d); simpl; [|split_and!; [done..|lia|done]].
  destruct IH1 as (_ & _ & IH1). split_and!; [done..|lia|]. intros Hs. by rewrite IH3.
Qed.

(** The tasks that go on until the [JoinSet] is dropped make steps of the
    batch. *)
Lemma run_until_drop_reachable op schedule tasks w :
  exists tasks',
    rtc (batch_step op) (tasks, w) (tasks', exec (run_until_drop op schedule tasks) w).
Proof.
  revert tasks w. induction schedule as [|[i|] schedule IH]; intros tasks w; simpl;
    [by exists tasks| |by exists tasks].
  rewrite exec_bind.
  destruct (IH (eval (step_task_at op i tasks) w) (exec (step_task_at op i tasks) w))
    as [tasks' Hreach].
  exists tasks'. etrans; [apply step_task_at_reachable|done].
Qed.

End counting.

(** ** One request per stable row *)

Section once_per_row.
Context `{Provider P}.
Implicit Types (w : World P) (op : DelegateUserDecryptOperation) (tx : DbTransaction).
Implicit Types (ready : list DelegationRow) (handled : list bytes).

(** An action that sends at most [n] requests, and exactly [n] when it
    returns [Ok]. *)
Definition sends_at_most (n : nat) {A} (m : M (World P) (Res A)) w : Prop :=
  match eval m w with
  | Ok _ => length (sent_during m w) = n
  | Err _ => (length (sent_during m w) <= n)%nat
  end.

Lemma sends_at_most_silent_bind {A B} (m : M (World P) A) (k : A -> M (World P) (Res B)) n w :
  silent m -> (forall a, growing (k a)) ->
  sends_at_most n (k (eval m w)) (exec m w) -> sends_at_most n (bind m k) w.
Proof.
  intros Hm Hk. unfold sends_at_most.
  rewrite eval_bind, sent_during_bind by (done || by apply silent_growing).
  by rewrite (silent_sent_during m w Hm).
Qed.

Lemma sends_at_most_failed {A} (m : M (World P) (Res A)) n w :
  silent m -> is_err (eval m w) = true -> sends_at_most n m w.
Proof.
  intros Hm Herr. unfold sends_at_most. rewrite (silent_sent_during m w Hm).
  destruct (eval m w); [done|simpl; lia].
Qed.

(** When [join_and_clean] ends, the batch has sent one request per task
    that has left its first state; when it ends well, every task has ended
    well. *)
Lemma join_and_clean_sends_inv op tx ready handled w :
  exists tasks',
    sends_inv (length (fst (spawn_all op ready))) w tasks'
      (exec (join_and_clean op tx ready handled) w) /\
    (is_ok (eval (join_and_clean op tx ready handled) w) = true ->
     snd (spawn_all op ready) = false /\ Forall (fun t => task_succeeded t = true) tasks').
Proof.
  destruct (sends_inv_spawn_all op ready w) as (Hinit & _ & _).
  unfold join_and_clean. rewrite eval_bind, exec_bind, eval_gets, exec_gets. cbn zeta.
  destruct (snd (spawn_all op ready)) eqn:Hspawn.
  - rewrite eval_bind, exec_bind, exec_ret, eval_ret.
    destruct (run_until_drop_reachable op (w_schedule w) (fst (spawn_all op ready)) w)
      as [tasks' Hreach].
    exists tasks'. split; [by eapply sends_inv_reachable|done].
  - rewrite eval_bind, exec_bind.
    pose proof (sends_inv_reachable op _ w _ w _ _
                  (join_tasks_reachable op (w_schedule w) _ w) Hinit) as Hjoin.
    pose proof (join_tasks_all_ok op (w_schedule w) (fst (spawn_all op ready)) w) as Hall.
    set (joined := eval (join_tasks _ _ _) w) in *.
    set (w1 := exec (join_tasks _ _ _) w) in *.
    destruct (joined_outcome joined).
    + exists (joined_tasks joined). split; [|auto].
      eapply sends_inv_silent; [|exact Hjoin].
      match goal with
      | |- silent_step w1 (exec ?m w1) => assert (silent m) as Hs by solve_silent; apply Hs
      end.
    + destruct (run_until_drop_reachable op (joined_schedule joined) (joined_tasks joined)
                  (exec (tx_rollback tx) w1)) as [tasks' Hreach].
      exists tasks'. rewrite !eval_bind, !exec_bind, eval_ret, exec_ret. split.
      * assert (sends_inv (length (fst (spawn_all op ready))) w tasks'
                  (exec (run_until_drop op (joined_schedule joined) (joined_tasks joined))
                     (exec (tx_rollback tx) w1))) as Hend.
        { eapply sends_inv_reachable; [exact Hreach|].
          eapply sends_inv_silent; [apply silent_tx_rollback|exact Hjoin]. }
        by destruct (eval (tx_rollback tx) w1).
      * by destruct (eval (tx_rollback tx) w1).
Qed.

Lemma sends_at_most_join_and_clean op tx ready handled w :
  sends_at_most (length ready) (join_and_clean op tx ready handled) w.
Proof.
  destruct (join_and_clean_sends_inv op tx ready handled w)
    as (tasks' & (_ & Hlen & Hsends) & Hok).
  destruct (sends_inv_spawn_all op ready w) as (_ & Hle & Heq).
  pose proof (started_count_le tasks'). unfold sends_at_most, sent_during.
  destruct (eval (join_and_clean _ _ _ _) w); [|lia].
  destruct (Hok eq_refl) as [Hspawn Hall].
  rewrite Hsends, (started_count_succeeded _ Hall), Hlen. by apply Heq.
Qed.

Lemma sends_at_most_submit_and_clean op tx ready handled w :
  sends_at_most (length ready) (submit_and_clean op tx ready handled) w.
Proof.
  unfold submit_and_clean.
  destruct (bool_decide (ready = []) && bool_decide (handled = [])) eqn:E;
    [|apply sends_at_most_join_and_clean].
  apply andb_prop in E as [->%bool_decide_eq_true _].
  unfold sends_at_most. rewrite silent_sent_during by solve_silent. by destruct (eval _ _).
Qed.

Lemma sends_at_most_execute c op w :
  sends_at_most (length (pass_submitted c op w)) (execute c op) w.
Proof.
  pose proof (growing_submit_and_clean op) as Hg.
  unfold pass_submitted, pass_threshold. rewrite <- (wait_last_block_number_eval op).
  unfold execute. apply sends_at_most_silent_bind; [solve_silent|solve_growing|].
  pose proof (framed_wait_last_block_number op w) as Hf.
  set (w1 := exec (wait_last_block_number op) w) in *.
  destruct (eval (wait_last_block_number op) w) as [block_number|e];
    [|by apply sends_at_most_failed; [solve_silent|]].
  destruct (u64_sub _ _ _) as [threshold|];
    [|by apply sends_at_most_failed; [solve_silent|]].
  apply sends_at_most_silent_bind; [solve_silent|solve_growing|].
  rewrite eval_tx_begin, exec_tx_begin.
  destruct (w_db_fault w1 OpBegin); [by apply sends_at_most_failed; [solve_silent|]|].
  apply sends_at_most_silent_bind; [solve_silent|solve_growing|].
  rewrite eval_check_ready, exec_check_ready. autorewrite with relay_rw.
  rewrite (frame_table _ _ Hf), (frame_host _ _ Hf).
  destruct (w_db_fault w1 OpFetch).
  - apply sends_at_most_failed; [solve_silent|].
    autorewrite with relay_run. by destruct (eval (tx_rollback _) _).
  - apply sends_at_most_submit_and_clean.
Qed.

(** C37. A pass sends at most one request per stable row, under every
    schedule and whatever fails: the number of requests that reach the
    gateway chain during a pass is at most the number of rows the readiness
    filter returned as stable, and it is exactly that number when the pass
    returns [Ok]. *)
Theorem execute_sends_once_per_row c op w :
  match eval (execute c op) w with
  | Ok _ => length (sent_during (execute c op) w) = length (pass_submitted c op w)
  | Err _ => (length (sent_during (execute c op) w) <= length (pass_submitted c op w))%nat
  end.
Proof. apply sends_at_most_execute. Qed.

End once_per_row.

(** ** Checks at concrete inputs *)

(** The two tasks of [world_two_ok]: the schedule runs the second row first,
    and the delegation with counter 2 is sent before the one with counter 1. *)
Lemma submission_order_follows_schedule_witness :
  exists gateway rest,
    sent_during
      (join_tasks sample_op [Run 1%nat; Run 0%nat]
         (fst (spawn_all sample_op (fetched_rows (w_table (world_two_ok [])) 100))))
      (world_two_ok []) =
    sent_request sample_op gateway_ok (request_of_sample 2) ::
    sent_request sample_op gateway (request_of_sample 1) :: rest.
Proof.
  apply (submission_order_follows_schedule sample_op
           (fst (spawn_all sample_op (fetched_rows (w_table (world_two_ok [])) 100)))
           1 0 (delegation_of_sample 100 hash_H 2) (request_of_sample 2)
           (delegation_of_sample 100 hash_H 1) (request_of_sample 1) [] (world_two_ok []));
    [reflexivity|reflexivity|lia].
Defined.

(** Two rows over a gateway whose first answer is a transport error: the
    second row is never sent. *)
Lemma first_failure_drops_siblings_witness :
  let w := world_two_rows [Run 0%nat; Poll] in
  let batch := [delegation_of_sample 100 hash_H 1; delegation_of_sample 100 hash_H 2] in
  is_err (eval (join_and_clean sample_op (w_table w) batch [hash_H; hash_H]) w) = true /\
  sent_during (join_and_clean sample_op (w_table w) batch [hash_H; hash_H]) w =
    [sent_request sample_op (w_gateway_provider w) (request_of_sample 1)].
Proof.
  apply (first_failure_drops_siblings sample_op
           (w_table (world_two_rows [Run 0%nat; Poll]))
           (delegation_of_sample 100 hash_H 1) (request_of_sample 1)
           [delegation_of_sample 100 hash_H 2] [hash_H; hash_H]
           (world_two_rows [Run 0%nat; Poll]) (Transport BackendGone));
    [reflexivity|reflexivity|by_compute|reflexivity|reflexivity].
Defined.

(** The same two rows when the task of the second row runs while the
    rollback is awaited: its request is sent, and the pass fails. *)
Lemma sibling_sends_during_rollback_witness :
  let w := world_two_rows [Run 0%nat; Poll; Run 1%nat] in
  let batch := [delegation_of_sample 100 hash_H 1; delegation_of_sample 100 hash_H 2] in
  exists gateway,
    is_err (eval (join_and_clean sample_op (w_table w) batch [hash_H; hash_H]) w) = true /\
    sent_during (join_and_clean sample_op (w_table w) batch [hash_H; hash_H]) w =
      [sent_request sample_op (w_gateway_provider w) (request_of_sample 1);
       sent_request sample_op gateway (request_of_sample 2)] /\
    w_table (exec (join_and_clean sample_op (w_table w) batch [hash_H; hash_H]) w) = w_table w.
Proof.
  apply (sibling_sends_during_rollback sample_op
           (w_table (world_two_rows [Run 0%nat; Poll; Run 1%nat]))
           (delegation_of_sample 100 hash_H 1) (request_of_sample 1)
           (delegation_of_sample 100 hash_H 2) (request_of_sample 2)
           [] [hash_H; hash_H]
           (world_two_rows [Run 0%nat; Poll; Run 1%nat]) (Transport BackendGone));
    [reflexivity|reflexivity|reflexivity|done|reflexivity|reflexivity].
Defined.

(** The number of requests of three passes: one that commits, one whose
    first task fails and drops the second, one whose second task sends
    during the rollback. *)
Example sends_of_three_passes :
  length (sent_during (execute true sample_op) (world_two_ok [Run 1%nat; Poll])) = 2%nat /\
  length (sent_during (execute true sample_op) (world_two_rows [Run 0%nat; Poll])) = 1%nat /\
  length (sent_during (execute true sample_op) (world_two_rows [Run 0%nat; Poll; Run 1%nat]))
    = 2%nat.
Proof. by vm_compute. Qed.
